(** * NeuroCard trial controller (AR/neurocard.py): a shallow embedding

    The file has four parts.

    - The model of the Python module, in the order of the module's own
      layout turned leaf-first: [ErrorMetric] and the query-evaluation loop
      ([MakeProgressiveSamplers], [Query], [NotSupportQuery], [evaluate]);
      the trial controller ([LoadCheckpoint], the checkpoint and
      learning-rate stages of [setup], [_maybe_check_asserts], [step]);
      the training loop [run_epoch]; the ordering builder inside
      [MakeMade]; then the gradient helper [PrintGrads], the dataset,
      ordering and model makers ([MakeTableDataset], [MakeOrdering],
      [MakeModel]) with the table, model and query stages of [setup], the
      entry points that answer single queries ([ready_for_evaluate], the
      accessors, [evaluate_one_tree]), and [_log_result].
    - The vocabulary in which the properties are stated.
    - Concrete workloads, epochs and tables on which the model is run.
    - The properties and their proofs.

    Conventions.  Python numbers (cardinalities, errors, learning-rate
    parameters) are modelled by exact rationals [Q]; a Python exception is
    a value of type [exn]; a call that may raise returns [result].  Calls
    into collaborators that are not part of the module (the estimators, the
    density model, the optimizer, numpy's random generator, the file
    system) are either fields of the records that stand for those objects
    or events of a trace.  Printing, meters and timers are left out. *)

From Stdlib Require Import String Ascii List Bool Arith ZArith QArith Qminmax Qround Lia.
From Stdlib Require Import Permutation.
Import ListNotations.

Set Implicit Arguments.
Open Scope nat_scope.

(** ** Exceptions and fallible computations *)

Inductive exn : Type :=
| AssertionError
| ZeroDivisionError
| AttributeError
| IndexError
| ValueError
| TypeError
| NameError
| KeyError
| UnboundLocalError
| ExternalError (tag : nat).

Inductive result (A : Type) : Type :=
| Ok (a : A)
| Raise (e : exn).

Arguments Ok {A} a.
Arguments Raise {A} e.

Definition bind {A B : Type} (m : result A) (k : A -> result B) : result B :=
  match m with
  | Ok a => k a
  | Raise e => Raise e
  end.

Declare Scope result_scope.
Delimit Scope result_scope with result.
Notation "x <- m ;; k" := (bind m (fun x => k))
  (at level 100, m at next level, right associativity) : result_scope.

Definition assert (b : bool) : result unit :=
  if b then Ok tt else Raise AssertionError.

Definition is_ok {A : Type} (m : result A) : bool :=
  match m with Ok _ => true | Raise _ => false end.

(** ** The error metric *)

Module Metric.

Local Open Scope Q_scope.

(** [x == 0] and [x != 0] on Python numbers. *)
Definition is_zero (x : Q) : bool := Qeq_bool x 0.

(** Python's [max(a, b)]: the first argument is kept unless the second is
    strictly larger. *)
Definition py_max (a b : Q) : Q := if Qle_bool b a then a else b.

(** [NeuroCard.ErrorMetric(est_card, card)]. *)
Definition ErrorMetric (est_card card : Q) : Q :=
  if is_zero card && negb (is_zero est_card) then est_card
  else if negb (is_zero card) && is_zero est_card then card
  else if is_zero card && is_zero est_card then 1
  else py_max (est_card / card) (card / est_card).

End Metric.

(** ** The slice of numpy used by the controller *)

Module Numpy.

Local Open Scope Q_scope.

Fixpoint insert_sorted (x : Q) (l : list Q) : list Q :=
  match l with
  | [] => [x]
  | y :: r => if Qle_bool x y then x :: l else y :: insert_sorted x r
  end.

(** [np.sort]. *)
Definition sort (l : list Q) : list Q := fold_right insert_sorted [] l.

(** [np.max]: raises [ValueError] on an empty series. *)
Definition max (l : list Q) : result Q :=
  match l with
  | [] => Raise ValueError
  | x :: r => Ok (fold_left Metric.py_max r x)
  end.

(** [np.quantile(l, q)] with the default linear interpolation: the value at
    the virtual index [q * (n - 1)] of the sorted series.  Only called on a
    series for which [np.max] has already succeeded. *)
Definition quantile (l : list Q) (q : Q) : Q :=
  let a := sort l in
  let h := q * inject_Z (Z.of_nat (length a - 1)) in
  let lo := Z.to_nat (Qfloor h) in
  let frac := h - inject_Z (Qfloor h) in
  let a_lo := nth lo a 0 in
  let a_hi := nth (Nat.min (S lo) (length a - 1)) a 0 in
  a_lo + frac * (a_hi - a_lo).

(** [np.median]: the middle element, or the mean of the two middle ones. *)
Definition median (l : list Q) : Q :=
  let a := sort l in
  let n := length a in
  if Nat.even n
  then (nth (n / 2 - 1) a 0 + nth (n / 2) a 0) / 2
  else nth (n / 2) a 0.

End Numpy.

(** ** Estimators and the query-evaluation loop *)

(** A parsed query: the [(cols, ops, vals)] triple of the workload. *)
Record query : Type := {
  q_cols : list string;
  q_ops : list string;
  q_vals : list Q
}.

(** The running log of an estimator: one entry of [errs], [est_cards] and
    [true_cards] per answered query. *)
Record log_entry : Type := {
  le_err : Q;
  le_est_card : Q;
  le_true_card : Q
}.

(** An estimator object of [estimators_lib], seen from the controller: its
    name [str(est)], its answer to a query (which may raise), its answer to
    the call [est.Query([], [], [], not_support=True)], and its running
    log. *)
Record Estimator : Type := {
  est_name : string;
  est_Query : query -> result Q;
  est_Query_not_support : result Q;
  est_log : list log_entry
}.

(** Modelled from the spec: [Estimator.AddError] of the estimators module,
    which is not part of this file; it appends one (error, estimated
    cardinality, true cardinality) entry to the estimator's running log. *)
Definition AddError (est : Estimator) (err est_card true_card : Q) : Estimator :=
  {| est_name := est_name est;
     est_Query := est_Query est;
     est_Query_not_support := est_Query_not_support est;
     est_log := est_log est ++ [{| le_err := err; le_est_card := est_card; le_true_card := true_card |}] |}.

Definition errs (est : Estimator) : list Q := map le_err (est_log est).

(** A line appended to one of the per-workload log files. *)
Inductive log_line : Type :=
| ErrTrace (i : nat) (e : exn)          (* "err - {i}\t{trace_log}\n" *)
| ErrQueries (err_queries : list nat).  (* "err queries {err_queries}\n" *)

(** *** The controller and its attributes *)

(** The attribute [order_seed]: the string ['reverse'], or a seed for
    numpy's generator. *)
Inductive order_seed_value : Type :=
| Reverse
| Seed (n : nat).

(** The attributes from which the dataset, the ordering and the model are
    made.  [dataset_available] is [self.dataset in available_dataset];
    [order] is the content of the list bound to [self.order]. *)
Record builder_attrs : Type := {
  dataset_available : bool;
  factorize : bool;
  num_sigmoids : Z;
  word_size_bits : nat;
  post_add_noise : bool;
  subvar_dropout : bool;
  adjust_fact_col : bool;
  special_orders : nat;
  order : option (list nat);
  order_seed : option order_seed_value;
  order_content_only : bool;
  order_indicators_at_front : bool;
  activation : string
}.

(** The two estimator classes the controller instantiates. *)
Inductive sampler_class : Type :=
| FactorizedProgressiveSampling
| ProgressiveSampling.

(** The table an estimator is built on: [self.train_data] or [self.table]. *)
Inductive data_source : Type :=
| TrainData
| Table.

(** An estimator of [estimators_lib] as the controller makes it: its class,
    the constructor arguments the controller decides (the model snapshot
    among them), and the two settings the controller may apply afterwards
    ([set_verbose_data] and [make_bytes_domain]). *)
Record ProgressiveSampler : Type := {
  ps_class : sampler_class;
  ps_model : nat;
  ps_data : data_source;
  ps_num_samples : nat;
  ps_shortcircuit : bool;
  ps_do_fanout_scaling : bool;
  ps_verbose_data : option nat;
  ps_bytes_domain : option bool
}.

(** What the controller holds.  [model_state] stands for the state of
    [self.model] and [opt_state] for that of [self.opt]; [use_raw_table]
    and [self_estimators] (the attribute [self.estimators]) are unset
    until [ready_for_evaluate] has run.  [estimators_lib] stands for the
    module of that name, which is not part of this file: the estimator
    object, as the evaluation loop uses it, that the module makes from
    the constructor arguments and settings decided by the controller. *)
Record NeuroCard : Type := {
  epoch : nat;
  mode : string;
  checkpoint_to_load : option string;
  model_state : nat;
  opt_state : nat;
  lloss : option Q;
  asserts : list (string * Q);
  loaded_queries : option (list query);
  oracle_cards : option (list Q);
  oracle : option (query -> result Q);
  not_support_query_idx : list nat;
  num_eval_queries_at_checkpoint_load : nat;
  eval_join_sampling : option nat;
  workload_name : string;
  table_cardinality : Q;
  builder : builder_attrs;
  join_tables : list string;
  eval_psamples : list nat;
  dropout : bool;
  per_row_dropout : bool;
  verbose_mode : bool;
  sample_alg : string;
  use_raw_table : option bool;
  self_estimators : option (list ProgressiveSampler);
  estimators_lib : ProgressiveSampler -> Estimator
}.

(** [NeuroCard.MakeProgressiveSamplers(model, train_data, do_fanout_scaling)]. *)
Definition MakeProgressiveSamplers (self : NeuroCard) (model : nat)
    (train_data : data_source) (do_fanout_scaling : bool)
  : result (list ProgressiveSampler) :=
  let shortcircuit := dropout self || per_row_dropout self in
  let estimators :=
    map (fun n =>
           {| ps_class := if factorize (builder self)
                          then FactorizedProgressiveSampling
                          else ProgressiveSampling;
              ps_model := model;
              ps_data := train_data;
              ps_num_samples := n;
              ps_shortcircuit := shortcircuit;
              ps_do_fanout_scaling := do_fanout_scaling;
              ps_verbose_data := None;
              ps_bytes_domain := None |})
        (eval_psamples self) in
  if verbose_mode self then
    match estimators with
    | [] => Ok estimators
    | _ :: _ =>
        match loaded_queries self with
        | None => Raise TypeError        (* len(None) *)
        | Some queries =>
            Ok (map (fun est =>
                       {| ps_class := ps_class est;
                          ps_model := ps_model est;
                          ps_data := ps_data est;
                          ps_num_samples := ps_num_samples est;
                          ps_shortcircuit := ps_shortcircuit est;
                          ps_do_fanout_scaling := ps_do_fanout_scaling est;
                          ps_verbose_data := Some (length queries);
                          ps_bytes_domain := ps_bytes_domain est |})
                    estimators)
        end
    end
  else Ok estimators.

(** *** The evaluation loop *)

(** The body of the [for est in estimators] loop of [NeuroCard.Query]: the
    estimators already visited keep the entry they logged when a later one
    raises. *)
Fixpoint Query_estimators (q : query) (card : Q) (estimators : list Estimator)
  : list Estimator * result unit :=
  match estimators with
  | [] => ([], Ok tt)
  | est :: rest =>
      match est_Query est q with
      | Raise e => (est :: rest, Raise e)
      | Ok est_card =>
          let err := Metric.ErrorMetric est_card card in
          let est' := AddError est err est_card card in
          let (rest', r) := Query_estimators q card rest in
          (est' :: rest', r)
      end
  end.

(** [NeuroCard.Query(estimators, oracle_card, query, table, oracle_est)].
    The progress line divides the true cardinality by [table.cardinality]. *)
Definition Query (self : NeuroCard) (estimators : list Estimator)
    (oracle_card : option Q) (q : query) (oracle_est : option (query -> result Q))
  : list Estimator * result unit :=
  let card :=
    match oracle_card with
    | Some c => Ok c
    | None =>
        match oracle_est with
        | Some o => o q
        | None => Raise AttributeError
        end
    end in
  match card with
  | Raise e => (estimators, Raise e)
  | Ok card =>
      if Metric.is_zero (table_cardinality self)
      then (estimators, Raise ZeroDivisionError)
      else Query_estimators q card estimators
  end.

(** [NeuroCard.NotSupportQuery(estimators, code)]. *)
Fixpoint NotSupportQuery (estimators : list Estimator) (code : Q)
  : list Estimator * result unit :=
  match estimators with
  | [] => ([], Ok tt)
  | est :: rest =>
      match est_Query_not_support est with
      | Raise e => (est :: rest, Raise e)
      | Ok est_card =>
          let est' := AddError est code est_card code in
          let (rest', r) := NotSupportQuery rest code in
          (est' :: rest', r)
      end
  end.

(** The mutable state of one call of [evaluate]. *)
Record eval_state : Type := {
  estimators : list Estimator;
  err_queries : list nat;
  files : list (string * log_line)
}.

(** [self.oracle_cards[i]], evaluated inside the [try]. *)
Definition oracle_card_at (self : NeuroCard) (i : nat) : result (option Q) :=
  match oracle_cards self with
  | None => Ok None
  | Some cards =>
      match nth_error cards i with
      | Some c => Ok (Some c)
      | None => Raise IndexError
      end
  end.

(** The [try] block of the loop body. *)
Definition try_Query (self : NeuroCard) (i : nat) (q : query)
    (estimators : list Estimator) : list Estimator * result unit :=
  match oracle_card_at self i with
  | Raise e => (estimators, Raise e)
  | Ok oracle_card => Query self estimators oracle_card q (oracle self)
  end.

(** One iteration of the [for i in range(num_queries)] loop of [evaluate].
    The progress report every 100 queries only prints and is left out. *)
Definition evaluate_query (self : NeuroCard) (i : nat) (q : query)
    (st : eval_state) : eval_state * result unit :=
  if existsb (Nat.eqb i) (not_support_query_idx self) then
    (* assert False *)
    (st, Raise AssertionError)
  else
    match try_Query self i q (estimators st) with
    | (ests, Ok _) =>
        ({| estimators := ests; err_queries := err_queries st; files := files st |}, Ok tt)
    | (ests, Raise e) =>
        (* except Exception as e: *)
        let err_code := 0%Q in
        match NotSupportQuery ests err_code with
        | (ests', Raise e') =>
            ({| estimators := ests'; err_queries := err_queries st; files := files st |},
             Raise e')
        | (ests', Ok _) =>
            ({| estimators := ests';
                err_queries := err_queries st ++ [i];
                files := files st ++
                  [((workload_name self ++ "_err_query_trace.log")%string, ErrTrace i e)] |},
             (* assert False *)
             Raise AssertionError)
        end
    end.

Fixpoint evaluate_loop (self : NeuroCard) (i : nat) (queries : list query)
    (st : eval_state) : eval_state * result unit :=
  match queries with
  | [] => (st, Ok tt)
  | q :: rest =>
      match evaluate_query self i q st with
      | (st', Ok _) => evaluate_loop self (S i) rest st'
      | (st', Raise e) => (st', Raise e)
      end
  end.

(** A Python [dict] with string keys, in insertion order. *)
Fixpoint dict_set (d : list (string * Q)) (k : string) (v : Q) : list (string * Q) :=
  match d with
  | [] => [(k, v)]
  | (k', v') :: r => if String.eqb k' k then (k, v) :: r else (k', v') :: dict_set r k v
  end.

Fixpoint dict_get (d : list (string * Q)) (k : string) : option Q :=
  match d with
  | [] => None
  | (k', v) :: r => if String.eqb k' k then Some v else dict_get r k
  end.

(** The four aggregates written for one estimator. *)
Definition report_estimator (results : list (string * Q)) (est : Estimator)
  : result (list (string * Q)) :=
  (m <- Numpy.max (errs est) ;;
   let results := dict_set results (est_name est ++ "_max") m in
   let results := dict_set results (est_name est ++ "_p99") (Numpy.quantile (errs est) (99 # 100)) in
   let results := dict_set results (est_name est ++ "_p95") (Numpy.quantile (errs est) (95 # 100)) in
   let results := dict_set results (est_name est ++ "_median") (Numpy.median (errs est)) in
   Ok results)%result.

Fixpoint report_estimators (results : list (string * Q)) (ests : list Estimator)
  : result (list (string * Q)) :=
  match ests with
  | [] => Ok results
  | est :: rest =>
      (results' <- report_estimator results est ;; report_estimators results' rest)%result
  end.

(** [NeuroCard.evaluate(num_queries, done, estimators=None)]: the final
    state of the estimators and of the log files, and the [results]
    dictionary or the exception that left the call.  When no estimator is
    handed in, the estimators are made by [MakeProgressiveSamplers] from
    the model as it is then.  The CSV exports of the per-query series are
    left out. *)
Definition evaluate (self : NeuroCard) (num_queries : nat)
    (given : option (list Estimator)) (disk : list (string * log_line))
  : eval_state * result (list (string * Q)) :=
  let st0 ests := {| estimators := ests; err_queries := []; files := disk |} in
  if Nat.eqb num_queries 0 then (st0 (match given with Some e => e | None => [] end), Ok [])
  else
    let built :=
      match given with
      | Some ests => Ok ests
      | None =>
          (made <- MakeProgressiveSamplers self (model_state self)
                     (if factorize (builder self) then TrainData else Table)
                     (dataset_available (builder self) && (1 <? length (join_tables self))) ;;
           match eval_join_sampling self with
           | Some (S _) => Raise AssertionError      (* assert False *)
           | _ => Ok (map (estimators_lib self) made)
           end)%result
      end in
    match built with
    | Raise e => (st0 [], Raise e)
    | Ok ests =>
        match loaded_queries self with
        | None => (st0 ests, Raise AssertionError)
        | Some queries =>
            let num_queries := Nat.min (length queries) num_queries in
            match evaluate_loop self 0 (firstn num_queries queries) (st0 ests) with
            | (st, Raise e) => (st, Raise e)
            | (st, Ok _) =>
                let st :=
                  if Nat.ltb 0 (length (err_queries st)) then
                    {| estimators := estimators st;
                       err_queries := err_queries st;
                       files := files st ++
                         [((workload_name self ++ "_err_queries.txt")%string,
                           ErrQueries (err_queries st))] |}
                  else st in
                (st, report_estimators [] (estimators st))
            end
        end
    end.

(** ** The trial controller: checkpoint, learning-rate policy, step *)

(** The record stored in a checkpoint file. *)
Record Checkpoint : Type := {
  ck_model_state_dict : nat;
  ck_optimizer_state_dict : nat;
  ck_epoch : nat;
  ck_loss : Q
}.

(** The file system as [glob.glob] and [torch.load] see it. *)
Record Disk : Type := {
  glob : string -> list string;
  torch_load : string -> result Checkpoint
}.

(** [NeuroCard.LoadCheckpoint()]. *)
Definition LoadCheckpoint (self : NeuroCard) (d : Disk) : result NeuroCard :=
  match checkpoint_to_load self with
  | None => Raise TypeError
  | Some pattern =>
      let all_ckpts := glob d pattern in
      (_ <- assert (length all_ckpts =? 1) ;;
       loaded <- torch_load d (hd EmptyString all_ckpts) ;;
       let with_model (e : nat) (o : nat) (l : option Q) :=
         {| epoch := e; mode := mode self;
            checkpoint_to_load := checkpoint_to_load self;
            model_state := ck_model_state_dict loaded;
            opt_state := o; lloss := l;
            asserts := asserts self;
            loaded_queries := loaded_queries self;
            oracle_cards := oracle_cards self;
            oracle := oracle self;
            not_support_query_idx := not_support_query_idx self;
            num_eval_queries_at_checkpoint_load := num_eval_queries_at_checkpoint_load self;
            eval_join_sampling := eval_join_sampling self;
            workload_name := workload_name self;
            table_cardinality := table_cardinality self;
            builder := builder self;
            join_tables := join_tables self;
            eval_psamples := eval_psamples self;
            dropout := dropout self;
            per_row_dropout := per_row_dropout self;
            verbose_mode := verbose_mode self;
            sample_alg := sample_alg self;
            use_raw_table := use_raw_table self;
            self_estimators := self_estimators self;
            estimators_lib := estimators_lib self |} in
       if String.eqb (mode self) "INFERENCE"
       then Ok (with_model (epoch self) (opt_state self) (lloss self))
       else Ok (with_model (ck_epoch loaded) (ck_optimizer_state_dict loaded)
                           (Some (ck_loss loaded))))%result
  end.

(** The checkpoint stage of [setup]:
    [if self.checkpoint_to_load is not None: self.LoadCheckpoint() else: assert False]. *)
Definition setup_checkpoint (self : NeuroCard) (d : Disk) : result NeuroCard :=
  match checkpoint_to_load self with
  | Some _ => LoadCheckpoint self d
  | None => Raise AssertionError
  end.

(** A scheduler object of [torch.optim.lr_scheduler]. *)
Inductive scheduler : Type :=
| CosineAnnealingLR (T_max : nat)
| OneCycleLR (max_lr : Q) (total_steps : nat) (pct_start : option Q).

(** A learning-rate function of the global step: the cosine schedule of
    [train_utils.get_cosine_learning_rate_fn], or one handed in by the
    caller. *)
Inductive lr_lambda : Type :=
| CosineLearningRateFn (total_steps : nat)
    (learning_rate min_learning_rate_mult constant_fraction warmup_fraction : Q)
| UserLambda (f : nat -> Q).

(** The attribute [self.lr_scheduler]: the name taken from the
    configuration, or the scheduler object that replaces it. *)
Inductive lr_scheduler_attr : Type :=
| SchedulerName (s : string)
| SchedulerObject (s : scheduler).

Record lr_setup : Type := {
  attr_lr_scheduler : option lr_scheduler_attr;
  attr_custom_lr_lambda : option lr_lambda
}.

(** [str.split(sep)]. *)
Fixpoint split (sep : ascii) (s : string) : list string :=
  match s with
  | EmptyString => [EmptyString]
  | String c r =>
      if Ascii.eqb c sep then EmptyString :: split sep r
      else
        match split sep r with
        | [] => [String c EmptyString]
        | w :: ws => String c w :: ws
        end
  end.

(** The learning-rate stage of [setup].  [float] is Python's conversion of
    a string to a number. *)
Definition setup_lr_scheduler (float : string -> result Q)
    (epochs max_steps : nat) (lr_scheduler : option string)
    (custom_lr_lambda : option lr_lambda) : result lr_setup :=
  let total_steps := (epochs * max_steps)%nat in
  let object (s : scheduler) :=
    Ok {| attr_lr_scheduler := Some (SchedulerObject s);
          attr_custom_lr_lambda := custom_lr_lambda |} in
  match lr_scheduler with
  | None =>
      (* the final [else]: assert self.lr_scheduler is None *)
      Ok {| attr_lr_scheduler := None; attr_custom_lr_lambda := custom_lr_lambda |}
  | Some name =>
      if String.eqb name "CosineAnnealingLR" then
        object (CosineAnnealingLR total_steps)
      else if String.eqb name "OneCycleLR" then
        object (OneCycleLR (2 # 1000) total_steps None)
      else if prefix "OneCycleLR-" name then
        (warmup_percentage <- float (last (split "-" name) EmptyString) ;;
         object (OneCycleLR (2 # 1000) total_steps (Some warmup_percentage)))%result
      else if prefix "wd_" name then
        let splits := split "_" name in
        (_ <- assert (length splits =? 3) ;;
         lr <- float (nth 1 splits EmptyString) ;;
         warmup_fraction <- float (nth 2 splits EmptyString) ;;
         Ok {| attr_lr_scheduler := Some (SchedulerName name);
               attr_custom_lr_lambda :=
                 Some (CosineLearningRateFn total_steps lr (1 # 100000) 0 warmup_fraction) |})%result
      else
        (* assert self.lr_scheduler is None *)
        Raise AssertionError
  end.

(** The loop of [_maybe_check_asserts]; [returns] is the optional second
    dictionary ([None] when called from [step]). *)
Fixpoint check_asserts (items : list (string * Q)) (results : list (string * Q))
    (returns : option (list (string * Q))) (error : bool) : result bool :=
  match items with
  | [] => Ok error
  | (key, max_val) :: rest =>
      match dict_get results key with
      | Some v => check_asserts rest results returns (error || Qle_bool max_val v)
      | None =>
          match returns with
          | None => Raise TypeError
          | Some r =>
              match dict_get r key with
              | None => Raise KeyError
              | Some v => check_asserts rest results returns (error || Qle_bool max_val v)
              end
          end
      end
  end.

(** [NeuroCard._maybe_check_asserts(results, returns)]. *)
Definition _maybe_check_asserts (self : NeuroCard) (results : list (string * Q))
    (returns : option (list (string * Q))) : result unit :=
  match asserts self with
  | [] => Ok tt
  | items =>
      (error <- check_asserts items results returns false ;; assert (negb error))%result
  end.

(** The dictionary returned by [step]. *)
Record step_result : Type := {
  sr_epoch : nat;
  sr_done : bool;
  sr_results : list (string * Q)
}.

(** [NeuroCard.step()]. *)
Definition step (self : NeuroCard) (disk : list (string * log_line))
  : eval_state * result step_result :=
  match evaluate self (num_eval_queries_at_checkpoint_load self) None disk with
  | (st, Raise e) => (st, Raise e)
  | (st, Ok results) =>
      (st,
       (_ <- _maybe_check_asserts self results None ;;
        Ok {| sr_epoch := 0; sr_done := true; sr_results := results |})%result)
  end.

(** ** The training loop *)

(** What [run_epoch] reads from the model object: the number of orderings
    when the attribute [orderings] exists, whether it has an [update_masks]
    method, and its embedding width. *)
Record Model : Type := {
  orderings : option nat;
  has_update_masks : bool;
  embed_size : nat
}.

(** A mini-batch as the loader yields it: a tensor, or a list of tensors
    (with [data.TensorDataset]).  Tensors are opaque and named by a
    number. *)
Inductive batch : Type :=
| Tensor (xb : nat)
| TensorList (xbs : list nat).

(** The value bound to [lr] in a training step. *)
Inductive lr_value : Type :=
| LrConstant (lr : Q)
| LrCustom (f : lr_lambda) (global_steps : nat)
| LrWarmup (d_model : nat) (global_steps : nat) (t : Q)
| LrScheduler.

(** The calls [run_epoch] makes on the model, the optimizer and the
    scheduler, in program order. *)
Inductive event : Type :=
| SetLr (lr : lr_value)       (* lr is chosen (and written to every param group) *)
| UpdateMasks                 (* model.update_masks() *)
| Forward (xb : nat)          (* model(xb) *)
| Nll (summed : nat) (xb : nat) (* model.nll(xbhat, xb).mean(), xbhat the sum of [summed] outputs *)
| ZeroGrad                    (* opt.zero_grad() *)
| Backward (accum_iter : nat) (* (loss / accum_iter).backward() *)
| OptStep                     (* opt.step() *)
| SchedulerStep.              (* lr_scheduler.step() *)

(** The arguments of [run_epoch] that drive its control flow.
    [neurocard_instance] carries [(accum_iter, max_steps)]. *)
Record epoch_args : Type := {
  split_name : string;
  model : Model;
  loader : list batch;
  is_iterable_dataset : bool;
  upto : option nat;
  epoch_num : nat;
  epochs : nat;
  warmups : Q;
  constant_lr : option Q;
  lr_scheduler : option scheduler;
  custom_lr_lambda : option lr_lambda;
  neurocard_instance : option (nat * nat)
}.

(** A computation that logs events and may raise: the events logged before
    an exception are kept. *)
Definition traced (A : Type) : Type := list event * result A.

Definition tret {A : Type} (a : A) : traced A := ([], Ok a).

Definition tbind {A B : Type} (m : traced A) (k : A -> traced B) : traced B :=
  match m with
  | (evs, Raise e) => (evs, Raise e)
  | (evs, Ok a) => let (evs', r) := k a in (evs ++ evs', r)
  end.

Definition emit (evs : list event) : traced unit := (evs, Ok tt).

Definition lift {A : Type} (r : result A) : traced A := ([], r).

Declare Scope traced_scope.
Delimit Scope traced_scope with traced.
Notation "x <- m ;; k" := (tbind m (fun x => k))
  (at level 100, m at next level, right associativity) : traced_scope.

(** Truth value of an optional number: [None] and [0] are false. *)
Definition truthy (x : option Q) : bool :=
  match x with
  | Some q => negb (Metric.is_zero q)
  | None => false
  end.

Definition truthy_nat (x : option nat) : bool :=
  match x with
  | Some (S _) => true
  | _ => false
  end.

(** Python's [int] on a number: truncation towards zero. *)
Definition py_int (x : Q) : Z := Z.quot (Qnum x) (Zpos (Qden x)).

(** [global_steps] of a training step. *)
Definition global_steps (a : epoch_args) (step : nat) : result nat :=
  if is_iterable_dataset a then
    match upto a with
    | Some u => Ok (u * epoch_num a + step + 1)
    | None => Raise TypeError
    end
  else Ok (length (loader a) * epoch_num a + step + 1).

(** The warmup step count [t] of the third policy. *)
Definition warmup_steps (a : epoch_args) : result Q :=
  if Qle_bool 1 (warmups a) then Ok (warmups a)
  else
    (* A ratio. *)
    match upto a with
    | Some u =>
        Ok (inject_Z (py_int (warmups a * inject_Z (Z.of_nat u) * inject_Z (Z.of_nat (epochs a)))))
    | None => Raise TypeError
    end.

(** The [if constant_lr: ... elif custom_lr_lambda: ... elif lr_scheduler
    is None: ... else: ...] chain.  It returns the value of [lr] and the
    new value of the local variable [lr_scheduler]. *)
Definition learning_rate (a : epoch_args) (lr_scheduler : option scheduler)
    (global_steps : nat) : result (lr_value * option scheduler) :=
  if truthy (constant_lr a) then
    Ok (LrConstant (match constant_lr a with Some c => c | None => 0%Q end), lr_scheduler)
  else
    match custom_lr_lambda a with
    | Some f => Ok (LrCustom f global_steps, None)
    | None =>
        match lr_scheduler with
        | None =>
            (t <- warmup_steps a ;;
             let d_model := embed_size (model a) in
             if d_model =? 0 then Raise ZeroDivisionError
             else if Metric.is_zero t then Raise ZeroDivisionError
             else if Qle_bool 0 t then Ok (LrWarmup d_model global_steps t, None)
             else Raise TypeError)%result
        | Some s => Ok (LrScheduler, Some s)
        end
    end.

(** The forward pass of one step, potentially through several orderings,
    and the loss. *)
Definition forward_pass (a : epoch_args) (xb : nat) : traced unit :=
  let nsamples :=
    match orderings (model a) with
    | Some n => n
    | None => 1
    end in
  let num_orders_to_forward :=
    if String.eqb (split_name a) "test" && (1 <? nsamples) then nsamples else 1 in
  let one_order :=
    (if has_update_masks (model a) then [UpdateMasks] else []) ++ [Forward xb] in
  (_ <- emit (concat (repeat one_order num_orders_to_forward)) ;;
   if num_orders_to_forward =? 1 then emit [Nll 1 xb]
   else
     (* assert False *)
     lift (Raise AssertionError))%traced.

(** The optimizer part of a training step (under [if split == 'train']). *)
Definition train_update (a : epoch_args) (lr_scheduler : option scheduler)
    (step : nat) : traced unit :=
  let accum_iter :=
    match neurocard_instance a with
    | Some (accum_iter, _) => accum_iter
    | None => 1
    end in
  (_ <- emit (if step =? 0 then [ZeroGrad] else []) ;;
   _ <- emit [Backward accum_iter] ;;
   fires <- lift
     (if accum_iter =? 0 then Raise ZeroDivisionError
      else if (step + 1) mod accum_iter =? 0 then Ok true
      else
        match neurocard_instance a with
        | Some (_, max_step) => Ok (step + 1 =? max_step)
        | None => Raise NameError
        end) ;;
   if fires : bool then
     emit ([OptStep; ZeroGrad] ++
           match lr_scheduler with
           | Some _ => [SchedulerStep]
           | None => []
           end)
   else tret tt)%traced.

Inductive control : Type :=
| Continue
| Break.

(** The local variables that survive an iteration: [lr_scheduler] and
    [losses] (one entry per completed forward pass, named by its step). *)
Record loop_state : Type := {
  ls_lr_scheduler : option scheduler;
  ls_losses : list nat
}.

(** One iteration of [for step, xb in enumerate(loader)]. *)
Definition iteration (a : epoch_args) (step : nat) (xb : batch)
    (st : loop_state) : traced (control * loop_state) :=
  let train := String.eqb (split_name a) "train" in
  (sched <-
     (if train then
        (gs <- lift (global_steps a step) ;;
         lr <- lift (learning_rate a (ls_lr_scheduler st) gs) ;;
         _ <- emit [SetLr (fst lr)] ;;
         tret (snd lr))
      else tret (ls_lr_scheduler st)) ;;
   if truthy_nat (upto a) && (match upto a with Some u => u <=? step | None => false end) then
     tret (Break, {| ls_lr_scheduler := sched; ls_losses := ls_losses st |})
   else
     (x <- lift
        (match xb with
         | Tensor x => Ok x
         | TensorList [x] => Ok x
         | TensorList _ => Raise AssertionError
         end) ;;
      _ <- forward_pass a x ;;
      let losses := ls_losses st ++ [step] in
      _ <- (if train then train_update a sched step else tret tt) ;;
      tret (Continue, {| ls_lr_scheduler := sched; ls_losses := losses |})))%traced.

Fixpoint run_loop (a : epoch_args) (step : nat) (batches : list batch)
    (st : loop_state) : traced loop_state :=
  match batches with
  | [] => tret st
  | xb :: rest =>
      (r <- iteration a step xb st ;;
       match r with
       | (Break, st') => tret st'
       | (Continue, st') => run_loop a (S step) rest st'
       end)%traced
  end.

(** [run_epoch]: the trace of calls, and the steps whose losses are
    returned (or averaged), or the exception that left the function. *)
Definition run_epoch (a : epoch_args) : traced (list nat) :=
  (st <- run_loop a 0 (loader a)
          {| ls_lr_scheduler := lr_scheduler a; ls_losses := [] |} ;;
   match neurocard_instance a, ls_losses st with
   | Some _, [] => lift (Raise UnboundLocalError)   (* neurocard_instance.lloss = loss *)
   | _, losses => tret losses
   end)%traced.

(** ** The ordering builder of [MakeMade] *)

(** A column of the training table; columns are told apart by name and
    domain size. *)
Record Column : Type := {
  name : string;
  distribution_size : nat
}.

Definition Column_eqb (c d : Column) : bool :=
  String.eqb (name c) (name d) && (distribution_size c =? distribution_size d).

(** [cols_to_train.index(col)]: the first position holding [col], or
    [ValueError]. *)
Fixpoint index (cols_to_train : list Column) (col : Column) : result nat :=
  match cols_to_train with
  | [] => Raise ValueError
  | c :: rest =>
      if Column_eqb c col then Ok 0
      else (i <- index rest col ;; Ok (S i))%result
  end.

(** [np.arange(a, b)]. *)
Definition arange (a b : nat) : list nat := seq a (b - a).

(** [len(np.unique(order))]. *)
Definition unique_count (order : list nat) : nat :=
  length (nodup Nat.eq_dec order).

(** [np.delete(order, np.argwhere(order == v))]: every occurrence of [v]
    is removed. *)
Definition delete_value (order : list nat) (v : nat) : list nat :=
  filter (fun x => negb (x =? v)) order.

(** [np.argwhere(order == v)[0][0]]: the first position of [v], or
    [IndexError]. *)
Fixpoint argwhere_first (order : list nat) (v : nat) : result nat :=
  match order with
  | [] => Raise IndexError
  | x :: rest =>
      if x =? v then Ok 0
      else (p <- argwhere_first rest v ;; Ok (S p))%result
  end.

(** [np.insert(order, i, v)]. *)
Definition insert (order : list nat) (i : nat) (v : nat) : result (list nat) :=
  if i <=? length order then Ok (firstn i order ++ v :: skipn i order)
  else Raise IndexError.

(** Modelled from the spec: [utils.InvertOrder], which is not part of this
    file; position [i] of the inverted array gives the rank of original
    column [i] in the ordering. *)
Definition InvertOrder (order : list nat) : list nat :=
  map (fun col =>
         match argwhere_first order col with
         | Ok rank => rank
         | Raise _ => 0
         end)
      (seq 0 (length order)).

(** The factorized table, as far as the builder reads it: the dictionary
    [fact_col_mapping] from an original column to its sub-variable
    columns, in insertion order. *)
Record FactorTable : Type := {
  fact_col_mapping : list (Column * list Column)
}.

(** What [MakeMade] hands to the model: the constructor arguments that
    concern orderings, and the attribute [model.orderings] when it is
    set. *)
Record made_orderings : Type := {
  num_masks : nat;
  natural_ordering : bool;
  made_fixed_ordering : option (list nat);
  model_orderings : option (list (list nat))
}.

(** The inner loop [for j in range(1, len(sub_cols))] of the correction
    for sub-variable ordering. *)
Fixpoint relocate_subvars (cols_to_train : list Column) (first_subvar_index : nat)
    (j : nat) (sub_cols : list Column) (order : list nat) : result (list nat) :=
  match sub_cols with
  | [] => Ok order
  | sub_col :: rest =>
      (subvar_index <- index cols_to_train sub_col ;;
       let order := delete_value order subvar_index in
       p <- argwhere_first order first_subvar_index ;;
       order <- insert order (p + j) subvar_index ;;
       relocate_subvars cols_to_train first_subvar_index (S j) rest order)%result
  end.

(** The body of [for orig_col, sub_cols in factor_table.fact_col_mapping.items()]. *)
Definition correct_column (cols_to_train : list Column) (sub_cols : list Column)
    (order : list nat) : result (list nat) :=
  match sub_cols with
  | [] => Raise IndexError      (* sub_cols[0] *)
  | first :: rest =>
      (first_subvar_index <- index cols_to_train first ;;
       relocate_subvars cols_to_train first_subvar_index 1 rest order)%result
  end.

Fixpoint correct_order (cols_to_train : list Column)
    (mapping : list (Column * list Column)) (order : list nat) : result (list nat) :=
  match mapping with
  | [] => Ok order
  | (_, sub_cols) :: rest =>
      (order <- correct_column cols_to_train sub_cols order ;;
       correct_order cols_to_train rest order)%result
  end.

(** [for i in range(special_orders): orders[i] = ...] in a fallible
    setting. *)
Fixpoint map_result {A B : Type} (f : A -> result B) (l : list A) : result (list B) :=
  match l with
  | [] => Ok []
  | x :: rest =>
      (y <- f x ;; ys <- map_result f rest ;; Ok (y :: ys))%result
  end.

Section Builder.

(** numpy's generator: [np.random.RandomState(seed)] and the method
    [permutation], which also advances the state. *)
Variable rng_state : Type.
Variable RandomState : nat -> rng_state.
Variable permutation : rng_state -> list nat -> list nat * rng_state.

(** The order drawn from one generator when virtual columns are left out
    of the permutation of the content columns. *)
Definition content_only_order (cols_to_train : list Column)
    (order_indicators_at_front : bool) (rng : rng_state) : result (list nat) :=
  let cols := filter (fun c => negb (prefix "__" (name c))) cols_to_train in
  let inds_cols := filter (fun c => prefix "__in_" (name c)) cols_to_train in
  let num_indicators := length inds_cols in
  let num_content := length cols in
  let (content, rng) := permutation rng (arange 0 num_content) in
  let (inds, rng) := permutation rng (arange num_content (num_content + num_indicators)) in
  let (fanouts, _) :=
    permutation rng (arange (num_content + num_indicators) (length cols_to_train)) in
  let order :=
    if order_indicators_at_front then inds ++ content ++ fanouts
    else content ++ inds ++ fanouts in
  (_ <- assert (unique_count order =? length cols_to_train) ;; Ok order)%result.

(** The order appended for ensemble index [i]. *)
Definition special_order (cols_to_train : list Column)
    (order_content_only order_indicators_at_front : bool) (i : nat)
  : result (list nat) :=
  if order_content_only then
    content_only_order cols_to_train order_indicators_at_front (RandomState (i + 1))
  else
    Ok (fst (permutation (RandomState (i + 1)) (arange 0 (length cols_to_train)))).

(** The part of [MakeMade] that deals with orderings. *)
Definition MakeMade (cols_to_train : list Column) (factor_table : option FactorTable)
    (fixed_ordering : option (list nat)) (special_orders : nat)
    (order_content_only order_indicators_at_front inv_order : bool)
  : result made_orderings :=
  let made (o : option (list (list nat))) :=
    {| num_masks := Nat.max 1 special_orders;
       natural_ordering := true;
       made_fixed_ordering := fixed_ordering;
       model_orderings := o |} in
  if 0 <? special_orders then
    (orders <- map_result
                 (special_order cols_to_train order_content_only order_indicators_at_front)
                 (seq 0 special_orders) ;;
     orders <- match factor_table with
               | Some ft =>
                   map_result (correct_order cols_to_train (fact_col_mapping ft)) orders
               | None => Ok orders
               end ;;
     let orders := if inv_order then map InvertOrder orders else orders in
     Ok (made (Some orders)))%result
  else Ok (made None).

End Builder.

(** ** Gradient helpers *)

(** A gradient tensor as [PrintGrads] looks at it: its data, named by a
    number, and whether it holds a NaN. *)
Record Grad : Type := {
  grad_data : nat;
  has_nan : bool
}.

(** [PrintGrads(named_parameters)]: the lines printed, and the outcome.  A
    parameter whose gradient is [None] is skipped; a gradient is printed
    before it is checked. *)
Fixpoint PrintGrads (named_parameters : list (string * option Grad))
  : list (string * nat) * result unit :=
  match named_parameters with
  | [] => ([], Ok tt)
  | (n, None) :: rest => PrintGrads rest
  | (n, Some g) :: rest =>
      if has_nan g then ([(n, grad_data g)], Raise AssertionError)
      else
        let (printed, r) := PrintGrads rest in
        ((n, grad_data g) :: printed, r)
  end.

(** ** The dataset, the fixed ordering and the model *)

(** A table returned by [datasets.LoadDataset]. *)
Record LoadedTable : Type := {
  table_name : string;
  table_columns : list Column;
  cardinality : Q
}.

(** A training dataset of [common]: the table dataset, or the factorized
    table made from it. *)
Inductive train_dataset : Type :=
| TableDataset (table : LoadedTable) (discretize add_noise : bool)
| FactorizedTable (base : train_dataset) (word_size_bits : nat)
    (join_keys : list string) (subvar_dropout adjust_fact_col : bool).

(** [NeuroCard.MakeTableDataset(table, add_noise, join_keys,
    subvar_dropout, adjust_fact_col)]. *)
Definition MakeTableDataset (self : builder_attrs) (table : LoadedTable)
    (add_noise : bool) (join_keys : list string)
    (subvar_dropout adjust_fact_col : bool) : train_dataset :=
  let train_data := TableDataset table (num_sigmoids self <=? 0)%Z add_noise in
  if factorize self then
    FactorizedTable train_data (word_size_bits self) join_keys
                    subvar_dropout adjust_fact_col
  else train_data.

(** The list object an ordering is: the very list bound to [self.order],
    or a list made by the call. *)
Inductive ordering_object : Type :=
| SelfOrder
| NewList (l : list nat).

(** The content of an ordering object. *)
Definition content (self : builder_attrs) (obj : ordering_object) : list nat :=
  match obj with
  | SelfOrder => match order self with Some l => l | None => [] end
  | NewList l => l
  end.

(** In-place update of the list bound to [self.order]. *)
Definition set_order (self : builder_attrs) (l : list nat) : builder_attrs :=
  {| dataset_available := dataset_available self;
     factorize := factorize self;
     num_sigmoids := num_sigmoids self;
     word_size_bits := word_size_bits self;
     post_add_noise := post_add_noise self;
     subvar_dropout := subvar_dropout self;
     adjust_fact_col := adjust_fact_col self;
     special_orders := special_orders self;
     order := Some l;
     order_seed := order_seed self;
     order_content_only := order_content_only self;
     order_indicators_at_front := order_indicators_at_front self;
     activation := activation self |}.

(** The activation class handed to the model. *)
Inductive activation_class : Type :=
| Tanh
| ReLU.

Section Ordering.

(** numpy's generator again, now also with [rng.shuffle(x)], which
    rearranges the list [x] in place. *)
Variable rng_state : Type.
Variable RandomState : nat -> rng_state.
Variable shuffle : rng_state -> list nat -> list nat * rng_state.
Variable permutation : rng_state -> list nat -> list nat * rng_state.

(** [NeuroCard.MakeOrdering(table)], for a table of [num_columns] columns:
    the object returned, and the controller with the list bound to
    [self.order] as the call leaves it.  A seed is taken to be in the range
    numpy accepts. *)
Definition MakeOrdering (self : builder_attrs) (num_columns : nat)
  : result (option ordering_object * builder_attrs) :=
  let fixed_ordering :=
    if negb (dataset_available self) && (special_orders self <=? 1)
    then Some (NewList (seq 0 num_columns))
    else None in
  let fixed_ordering :=
    match order self with
    | Some _ => Some SelfOrder
    | None => fixed_ordering
    end in
  match order_seed self with
  | None => Ok (fixed_ordering, self)
  | Some Reverse =>
      match fixed_ordering with
      | None => Raise TypeError     (* None[::-1] *)
      | Some obj => Ok (Some (NewList (rev (content self obj))), self)
      end
  | Some (Seed n) =>
      match fixed_ordering with
      | None => Raise TypeError     (* rng.shuffle(None) *)
      | Some (NewList l) => Ok (Some (NewList (fst (shuffle (RandomState n) l))), self)
      | Some SelfOrder =>
          Ok (Some SelfOrder,
              set_order self (fst (shuffle (RandomState n) (content self SelfOrder))))
      end
  end.

(** [NeuroCard.MakeModel(table, train_data)], as far as orderings go.
    [train_data_columns] and [train_data] stand for [train_data.columns]
    and for the factorized table handed on as [factor_table]; both are
    read only when [factorize] is set. *)
Definition MakeModel (self : builder_attrs) (table : LoadedTable)
    (train_data_columns : list Column) (train_data : FactorTable)
  : result (made_orderings * builder_attrs) :=
  let cols_to_train :=
    if factorize self then train_data_columns else table_columns table in
  (made_ordering <- MakeOrdering self (length (table_columns table)) ;;
   let self := snd made_ordering in
   model <- MakeMade RandomState permutation cols_to_train
              (if factorize self then Some train_data else None)
              (option_map (content self) (fst made_ordering))
              (special_orders self)
              (order_content_only self)
              (order_indicators_at_front self)
              true ;;
   Ok (model, self))%result.

(** The model stage of [setup]:
    [self.fixed_ordering = self.MakeOrdering(table)], the choice of the
    activation, and [self.MakeModel(self.table, self.train_data)].  The
    result holds the object bound to [self.fixed_ordering], the activation
    the model is given, the model, and the controller. *)
Definition setup_model (self : builder_attrs) (table : LoadedTable)
    (train_data_columns : list Column) (train_data : FactorTable)
  : result (option ordering_object * activation_class * made_orderings * builder_attrs) :=
  (fixed <- MakeOrdering self (length (table_columns table)) ;;
   _ <- (if String.eqb (activation self) "tanh"
         then Raise AssertionError            (* assert False *)
         else Ok tt) ;;
   made <- MakeModel (snd fixed) table train_data_columns train_data ;;
   Ok (fst fixed, ReLU, fst made, snd made))%result.

End Ordering.

(** ** The table stage and the query stage of [setup] *)

(** The attribute [join_tables] as configured: an index into the sorted
    table names, or a list of table names. *)
Inductive join_tables_value : Type :=
| TableIndex (i : nat)
| TableNames (names : list string).

(** The collaborators of the table stage: the sorted table names of the
    benchmark, unpickling the primary-key file (its keys), loading a
    table, the branch taken for a join of several tables (the table it
    ends with), and the join specification of a single table. *)
Record table_env : Type := {
  sorted_table_names : list string;
  pickle_load : string -> result (list string);
  LoadDataset : string -> result LoadedTable;
  join_branch : list LoadedTable -> result LoadedTable;
  get_single_join_spec : result unit
}.

(** [for t in self.join_tables: ... loaded_tables.append(table)]. *)
Fixpoint load_tables (env : table_env) (names : list string)
  : result (list LoadedTable) :=
  match names with
  | [] => Ok []
  | t :: rest =>
      (table <- LoadDataset env t ;;
       tables <- load_tables env rest ;;
       Ok (table :: tables))%result
  end.

(** The table stage of [setup], from the conversion of [join_tables] to
    the training dataset: the table names, the table and the training
    data the later stages work on. *)
Definition setup_tables (env : table_env) (self : builder_attrs)
    (configured : join_tables_value) (PK_tuples_np_loc : option string)
  : result (list string * LoadedTable * train_dataset) :=
  (join_tables <-
     match configured with
     | TableIndex i =>
         match nth_error (sorted_table_names env) i with
         | Some t => Ok [t]
         | None => Raise IndexError
         end
     | TableNames names => Ok names
     end ;;
   PK_tuples_np <-
     match PK_tuples_np_loc with
     | Some loc => pickle_load env loc
     | None => Raise AssertionError           (* assert False *)
     end ;;
   _ <- assert (dataset_available self) ;;
   loaded_tables <- load_tables env join_tables ;;
   table <-
     (if 1 <? length join_tables then join_branch env loaded_tables
      else
        match loaded_tables with
        | [] => Raise IndexError              (* loaded_tables[0] *)
        | table :: _ => Ok table
        end) ;;
   if length join_tables =? 1 then
     (_ <- get_single_join_spec env ;;
      let join_keys := PK_tuples_np in
      Ok (join_tables, table,
          MakeTableDataset self table (post_add_noise self) join_keys
                           (subvar_dropout self) (adjust_fact_col self)))
   else Raise AssertionError)%result.         (* assert False *)

(** The query stage of [setup]: [load] stands for reading and unpacking
    the queries file (the queries, their true cardinalities, and the
    indices of the queries that are not supported).  [self.oracle] has
    been set to [None] by then. *)
Definition setup_queries (self : NeuroCard) (queries_csv : option string)
    (load : string -> result (list query * list Q * list nat))
  : result NeuroCard :=
  let loaded (queries : option (list query)) (cards : option (list Q))
             (not_supported : list nat) :=
    {| epoch := epoch self; mode := mode self;
       checkpoint_to_load := checkpoint_to_load self;
       model_state := model_state self;
       opt_state := opt_state self; lloss := lloss self;
       asserts := asserts self;
       loaded_queries := queries;
       oracle_cards := cards;
       oracle := None;
       not_support_query_idx := not_supported;
       num_eval_queries_at_checkpoint_load := num_eval_queries_at_checkpoint_load self;
       eval_join_sampling := eval_join_sampling self;
       workload_name := workload_name self;
       table_cardinality := table_cardinality self;
       builder := builder self;
       join_tables := join_tables self;
       eval_psamples := eval_psamples self;
       dropout := dropout self;
       per_row_dropout := per_row_dropout self;
       verbose_mode := verbose_mode self;
       sample_alg := sample_alg self;
       use_raw_table := use_raw_table self;
       self_estimators := self_estimators self;
       estimators_lib := estimators_lib self |} in
  if dataset_available (builder self) then
    match queries_csv with
    | Some path =>
        (unpacked <- load path ;;
         Ok (loaded (Some (fst (fst unpacked))) (Some (snd (fst unpacked)))
                    (snd unpacked)))%result
    | None => Ok (loaded None None [])
    end
  else Ok (loaded None None []).

(** ** Estimators for single queries *)

(** [est.make_bytes_domain(use_raw_table)]. *)
Definition make_bytes_domain (est : ProgressiveSampler) (use_raw_table : bool)
  : ProgressiveSampler :=
  {| ps_class := ps_class est;
     ps_model := ps_model est;
     ps_data := ps_data est;
     ps_num_samples := ps_num_samples est;
     ps_shortcircuit := ps_shortcircuit est;
     ps_do_fanout_scaling := ps_do_fanout_scaling est;
     ps_verbose_data := ps_verbose_data est;
     ps_bytes_domain := Some use_raw_table |}.

(** Assignment to [self.use_raw_table] and to [self.estimators]. *)
Definition set_inference (self : NeuroCard) (raw : option bool)
    (ests : option (list ProgressiveSampler)) : NeuroCard :=
  {| epoch := epoch self; mode := mode self;
     checkpoint_to_load := checkpoint_to_load self;
     model_state := model_state self;
     opt_state := opt_state self; lloss := lloss self;
     asserts := asserts self;
     loaded_queries := loaded_queries self;
     oracle_cards := oracle_cards self;
     oracle := oracle self;
     not_support_query_idx := not_support_query_idx self;
     num_eval_queries_at_checkpoint_load := num_eval_queries_at_checkpoint_load self;
     eval_join_sampling := eval_join_sampling self;
     workload_name := workload_name self;
     table_cardinality := table_cardinality self;
     builder := builder self;
     join_tables := join_tables self;
     eval_psamples := eval_psamples self;
     dropout := dropout self;
     per_row_dropout := per_row_dropout self;
     verbose_mode := verbose_mode self;
     sample_alg := sample_alg self;
     use_raw_table := raw;
     self_estimators := ests;
     estimators_lib := estimators_lib self |}.

(** [NeuroCard.ready_for_evaluate(use_raw_table)]; [use_ctypes] is the
    flag imported from the estimators module.  The attributes assigned
    before an exception stay assigned. *)
Definition ready_for_evaluate (use_ctypes : bool) (self : NeuroCard)
    (raw : bool) : NeuroCard * result unit :=
  let self := set_inference self (Some raw) (self_estimators self) in
  match MakeProgressiveSamplers self (model_state self)
          (if factorize (builder self) then TrainData else Table)
          (dataset_available (builder self) && (1 <? length (join_tables self))) with
  | Raise e => (self, Raise e)
  | Ok ests =>
      let self := set_inference self (Some raw) (Some ests) in
      if length ests =? 1 then
        if use_ctypes then
          (set_inference self (Some raw)
                         (Some (map (fun est => make_bytes_domain est raw) ests)),
           Ok tt)
        else (self, Ok tt)
      else (self, Raise AssertionError)
  end.

(** The pattern [for est in self.estimators: return est.<method>(...)] of
    [get_num_rows], [get_all_col_names], [get_natural_idx] and
    [get_domain]: the estimator whose answer is returned, or [None] when
    the loop body never runs. *)
Definition first_estimator (self : NeuroCard) : result (option ProgressiveSampler) :=
  match self_estimators self with
  | None => Raise AttributeError
  | Some [] => Ok None
  | Some (est :: _) => Ok (Some est)
  end.

Definition get_num_rows := first_estimator.
Definition get_all_col_names := first_estimator.
Definition get_natural_idx := first_estimator.
Definition get_domain := first_estimator.

(** A call handed on to an estimator together with the controller's
    settings. *)
Record delegated : Type := {
  callee : ProgressiveSampler;
  with_raw_table : bool;
  with_subvar_dropout : bool;
  with_adjust_fact_col : bool
}.

Definition delegate (self : NeuroCard) (est : ProgressiveSampler)
  : result (option delegated) :=
  match use_raw_table self with
  | None => Raise AttributeError
  | Some raw =>
      Ok (Some {| callee := est;
                  with_raw_table := raw;
                  with_subvar_dropout := subvar_dropout (builder self);
                  with_adjust_fact_col := adjust_fact_col (builder self) |})
  end.

(** [NeuroCard.get_P(...)]. *)
Definition get_P (self : NeuroCard) : result (option delegated) :=
  match self_estimators self with
  | None => Raise AttributeError
  | Some [] => Ok None
  | Some (est :: _) => delegate self est
  end.

(** [NeuroCard.evaluate_one_tree(query, keys, sample_size)]. *)
Definition evaluate_one_tree (self : NeuroCard) : result (option delegated) :=
  match self_estimators self with
  | None => Raise AttributeError
  | Some [] => Ok None
  | Some (est :: _) =>
      (_ <- assert (String.eqb (sample_alg self) "ps") ;; delegate self est)%result
  end.

(** [NeuroCard.evaluate_one(query)] and [NeuroCard.sample_put_input(...)]
    start with [assert False]. *)
Definition evaluate_one (self : NeuroCard) : result (option ProgressiveSampler) :=
  Raise AssertionError.

Definition sample_put_input (self : NeuroCard) : result (option ProgressiveSampler) :=
  Raise AssertionError.

(** [NeuroCard.put_sample(data_to_encode, sample, natural_idx)]: the
    estimator the sample is handed to. *)
Definition put_sample (self : NeuroCard) (sample : option nat)
  : result (option ProgressiveSampler) :=
  match use_raw_table self with
  | None => Raise AttributeError
  | Some true =>
      (_ <- assert (match sample with None => true | Some _ => false end) ;;
       Ok None)%result
  | Some false => first_estimator self
  end.

(** ** Logging a result *)

(** A value of the result dictionary handed to [_log_result]. *)
Inductive pyvalue : Type :=
| PyInt (n : nat)
| PyBool (b : bool)
| PyDict (d : list (string * Q)).

(** [d[k] = v] and [d[k]] on a dictionary of such values. *)
Fixpoint setitem (d : list (string * pyvalue)) (k : string) (v : pyvalue)
  : list (string * pyvalue) :=
  match d with
  | [] => [(k, v)]
  | (k', v') :: r => if String.eqb k' k then (k, v) :: r else (k', v') :: setitem r k v
  end.

Fixpoint getitem (d : list (string * pyvalue)) (k : string) : option pyvalue :=
  match d with
  | [] => None
  | (k', v) :: r => if String.eqb k' k then Some v else getitem r k
  end.

(** [needle in s] on strings. *)
Fixpoint contains (needle s : string) : bool :=
  prefix needle s ||
  match s with
  | EmptyString => false
  | String _ r => contains needle r
  end.

(** What the TensorBoard logger receives: the result dictionary, and the
    tags and title of the custom chart. *)
Record logged : Type := {
  on_result : list (string * pyvalue);
  chart_tags : list string;
  chart_title : string
}.

(** [NeuroCard._log_result(results)]: the dictionary as the call leaves
    it, and what was logged. *)
Definition _log_result (self : NeuroCard) (results : list (string * pyvalue))
  : list (string * pyvalue) * result logged :=
  let results := setitem results "iterations_since_restore" (PyInt (epoch self)) in
  let results := setitem results "training_iteration" (PyInt (epoch self)) in
  match getitem results "results" with
  | None => (results, Raise KeyError)
  | Some (PyDict d) =>
      let psamples := filter (fun kv => contains "psample" (fst kv)) d in
      (results,
       Ok {| on_result := results;
             chart_tags := map (fun kv => ("ray/tune/results/" ++ fst kv)%string) psamples;
             chart_title := "psample" |})
  | Some _ => (results, Raise AttributeError)      (* .items() *)
  end.

(** * Vocabulary of the properties *)

Unset Implicit Arguments.

(** ** The evaluation loop and the step *)

(** Two controllers that agree on everything [evaluate] and the assertion
    hook read: the workload, the model, and what the estimators are made
    from. *)
Definition same_workload (a b : NeuroCard) : Prop :=
  asserts a = asserts b /\
  loaded_queries a = loaded_queries b /\
  oracle_cards a = oracle_cards b /\
  oracle a = oracle b /\
  not_support_query_idx a = not_support_query_idx b /\
  num_eval_queries_at_checkpoint_load a = num_eval_queries_at_checkpoint_load b /\
  eval_join_sampling a = eval_join_sampling b /\
  workload_name a = workload_name b /\
  table_cardinality a = table_cardinality b /\
  model_state a = model_state b /\
  builder a = builder b /\
  join_tables a = join_tables b /\
  eval_psamples a = eval_psamples b /\
  dropout a = dropout b /\
  per_row_dropout a = per_row_dropout b /\
  verbose_mode a = verbose_mode b /\
  estimators_lib a = estimators_lib b.

(** The controller after [self.model.load_state_dict(state)]: the model
    state is replaced and nothing else. *)
Definition load_state_dict (self : NeuroCard) (state : nat) : NeuroCard :=
  {| epoch := epoch self; mode := mode self;
     checkpoint_to_load := checkpoint_to_load self;
     model_state := state;
     opt_state := opt_state self; lloss := lloss self;
     asserts := asserts self;
     loaded_queries := loaded_queries self;
     oracle_cards := oracle_cards self;
     oracle := oracle self;
     not_support_query_idx := not_support_query_idx self;
     num_eval_queries_at_checkpoint_load := num_eval_queries_at_checkpoint_load self;
     eval_join_sampling := eval_join_sampling self;
     workload_name := workload_name self;
     table_cardinality := table_cardinality self;
     builder := builder self;
     join_tables := join_tables self;
     eval_psamples := eval_psamples self;
     dropout := dropout self;
     per_row_dropout := per_row_dropout self;
     verbose_mode := verbose_mode self;
     sample_alg := sample_alg self;
     use_raw_table := use_raw_table self;
     self_estimators := self_estimators self;
     estimators_lib := estimators_lib self |}.

(** The estimators [evaluate] works on when none is handed in: the
    objects the estimators module makes for what [MakeProgressiveSamplers]
    returns on the model as it is (none when that call raises). *)
Definition progressive_samplers (self : NeuroCard) : list Estimator :=
  match MakeProgressiveSamplers self (model_state self)
          (if factorize (builder self) then TrainData else Table)
          (dataset_available (builder self) && (1 <? length (join_tables self))) with
  | Ok made => map (estimators_lib self) made
  | Raise _ => []
  end.

(** An estimator whose running log has grown by [entries]. *)
Definition extend (est : Estimator) (entries : list log_entry) : Estimator :=
  {| est_name := est_name est;
     est_Query := est_Query est;
     est_Query_not_support := est_Query_not_support est;
     est_log := est_log est ++ entries |}.

Definition answer (est : Estimator) (q : query) : Q :=
  match est_Query est q with Ok c => c | Raise _ => 0%Q end.

(** The true cardinality of query [i] as the loop obtains it. *)
Definition true_card (self : NeuroCard) (i : nat) (q : query) : result Q :=
  match oracle_card_at self i with
  | Raise e => Raise e
  | Ok (Some c) => Ok c
  | Ok None =>
      match oracle self with
      | Some o => o q
      | None => Raise AttributeError
      end
  end.

Definition card (self : NeuroCard) (i : nat) (q : query) : Q :=
  match true_card self i q with Ok c => c | Raise _ => 0%Q end.

(** The entry an estimator logs for an answered query: a real error
    value. *)
Definition real_entry (self : NeuroCard) (i : nat) (q : query) (est : Estimator)
  : log_entry :=
  {| le_err := Metric.ErrorMetric (answer est q) (card self i q);
     le_est_card := answer est q;
     le_true_card := card self i q |}.

Fixpoint real_entries (self : NeuroCard) (est : Estimator) (i : nat)
    (queries : list query) : list log_entry :=
  match queries with
  | [] => []
  | q :: rest => real_entry self i q est :: real_entries self est (S i) rest
  end.

(** Query [i] is answered by every estimator and nothing around it
    raises. *)
Definition supported (self : NeuroCard) (ests : list Estimator) (i : nat)
    (q : query) : Prop :=
  existsb (Nat.eqb i) (not_support_query_idx self) = false /\
  is_ok (true_card self i q) = true /\
  Metric.is_zero (table_cardinality self) = false /\
  Forall (fun est => is_ok (est_Query est q) = true) ests.


(** ** The training loop *)

(** The condition of the optimizer gate at a step. *)
Definition fires (w max_step step : nat) : bool :=
  ((step + 1) mod w =? 0) || (step + 1 =? max_step).

(** The scheduler object that is still bound to [lr_scheduler] once the
    learning-rate chain has run: a custom schedule function unbinds it. *)
Definition active_scheduler (a : epoch_args) : option scheduler :=
  if truthy (constant_lr a) then lr_scheduler a
  else
    match custom_lr_lambda a with
    | Some _ => None
    | None => lr_scheduler a
    end.

(** The optimizer calls of one training step with window [w]. *)
Definition update_events (a : epoch_args) (w max_step step : nat) : list event :=
  (if step =? 0 then [ZeroGrad] else []) ++
  [Backward w] ++
  (if fires w max_step step then
     [OptStep; ZeroGrad] ++
     match active_scheduler a with
     | Some _ => [SchedulerStep]
     | None => []
     end
   else []).

Definition is_update_event (e : event) : bool :=
  match e with
  | ZeroGrad | Backward _ | OptStep | SchedulerStep => true
  | _ => false
  end.

Definition is_opt_step (e : event) : bool :=
  match e with OptStep => true | _ => false end.

(** The model calls of one forward pass through a single ordering. *)
Definition single_forward (a : epoch_args) (xb : nat) : list event :=
  (if has_update_masks (model a) then [UpdateMasks] else []) ++ [Forward xb].

Definition is_model_event (e : event) : bool :=
  match e with
  | UpdateMasks | Forward _ | Nll _ _ => true
  | _ => false
  end.

(** The tensor a batch unwraps to. *)
Definition batch_tensor (xb : batch) : option nat :=
  match xb with
  | Tensor x => Some x
  | TensorList [x] => Some x
  | TensorList _ => None
  end.



(** ** The ordering builder *)

(** [blk] occupies consecutive positions of [l], in its own order. *)
Definition infix (blk l : list nat) : Prop :=
  exists pre post, l = pre ++ blk ++ post.

(** The blocks of indices of a mapping: for each factorized column, the
    positions of its sub-variable columns in [cols_to_train]. *)
Definition blocks_of (cols : list Column) (mapping : list (Column * list Column))
    (blocks : list (list nat)) : Prop :=
  Forall2 (fun m blk => map_result (index cols) (snd m) = Ok blk /\ blk <> [])
          mapping blocks.

(** The factor table names, for every factorized column, a nonempty list
    of sub-variable columns of the training table, and no sub-variable
    column is listed twice. *)
Definition well_formed_factor (cols : list Column)
    (mapping : list (Column * list Column)) : Prop :=
  Forall (fun m => snd m <> [] /\ incl (snd m) cols) mapping /\
  NoDup (concat (map snd mapping)).

(** The sub-variable columns [subs], at indices [blk], sit at consecutive
    positions [p], [p + 1], ... of [order], in the order of [subs]; the
    inverted ordering gives the same ranks. *)
Definition consecutive_ascending (cols : list Column) (subs : list Column)
    (order : list nat) : Prop :=
  exists p,
    forall j sub,
      nth_error subs j = Some sub ->
      exists c,
        index cols sub = Ok c /\
        argwhere_first order c = Ok (p + j) /\
        nth_error (InvertOrder order) c = Some (p + j).

Section BuilderVocabulary.

Variable rng_state : Type.
Variable RandomState : nat -> rng_state.
Variable permutation : rng_state -> list nat -> list nat * rng_state.

(** What holds of every ordering the builder produces, before the
    inversion: a permutation of the column indices, drawn from the
    generator seeded with its ensemble index plus 1, and with each
    factorized column's sub-variables in consecutive ascending
    positions. *)
Definition built_order (cols : list Column) (factor_table : option FactorTable)
    (content_only at_front : bool) (i : nat) (order : list nat) : Prop :=
  Permutation (seq 0 (length cols)) order /\
  Permutation (seq 0 (length cols)) (InvertOrder order) /\
  (exists raw,
     (if content_only
      then content_only_order permutation cols at_front (RandomState (i + 1))
      else Ok (fst (permutation (RandomState (i + 1)) (arange 0 (length cols))))) = Ok raw /\
     match factor_table with
     | Some t => correct_order cols (fact_col_mapping t) raw = Ok order
     | None => order = raw
     end) /\
  (forall t orig subs,
     factor_table = Some t -> In (orig, subs) (fact_col_mapping t) ->
     consecutive_ascending cols subs order).

End BuilderVocabulary.

(** ** Further vocabulary: the evaluation loop and the assertion hook *)

(** The line the handler of [evaluate] appends to the trace log. *)
Definition trace_line (self : NeuroCard) (i : nat) (e : exn) : string * log_line :=
  ((workload_name self ++ "_err_query_trace.log")%string, ErrTrace i e).

(** The estimators [evaluate] works on. *)
Definition evaluated (self : NeuroCard) (given : option (list Estimator))
  : list Estimator :=
  match given with
  | Some ests => ests
  | None => progressive_samplers self
  end.

(** The entry [NotSupportQuery] writes for an estimator. *)
Definition sentinel_entry (est : Estimator) (code : Q) : log_entry :=
  {| le_err := code;
     le_est_card := match est_Query_not_support est with Ok c => c | Raise _ => 0%Q end;
     le_true_card := code |}.

(** The value [_maybe_check_asserts] compares with the bound of [key]:
    the entry of [results], else the entry of [returns]. *)
Definition measured (results : list (string * Q)) (returns : option (list (string * Q)))
    (key : string) : result Q :=
  match dict_get results key with
  | Some v => Ok v
  | None =>
      match returns with
      | None => Raise TypeError
      | Some r =>
          match dict_get r key with
          | Some v => Ok v
          | None => Raise KeyError
          end
      end
  end.

(** The bound of an entry is reached. *)
Definition breached (results : list (string * Q)) (returns : option (list (string * Q)))
    (kv : string * Q) : bool :=
  match measured results returns (fst kv) with
  | Ok v => Qle_bool (snd kv) v
  | Raise _ => false
  end.

(** ** Further vocabulary: the training loop *)

Definition is_set_lr (e : event) : bool :=
  match e with SetLr _ => true | _ => false end.

Definition is_forward (e : event) : bool :=
  match e with Forward _ => true | _ => false end.

(** The number of steps an epoch over [n] batches completes, and the
    number it starts: [upto] counts only when it is a positive number, and
    the step at which the loop breaks has already chosen its rate. *)
Definition completed_steps (a : epoch_args) (n : nat) : nat :=
  match upto a with
  | Some (S u) => Nat.min (S u) n
  | _ => n
  end.

Definition started_steps (a : epoch_args) (n : nat) : nat :=
  match upto a with
  | Some (S u) => Nat.min (S (S u)) n
  | _ => n
  end.

(** The accumulation window and the step budget read from the controller
    instance; without an instance the window is 1 and the budget is never
    consulted. *)
Definition window (a : epoch_args) : nat :=
  match neurocard_instance a with
  | Some (accum_iter, _) => accum_iter
  | None => 1
  end.

Definition budget (a : epoch_args) : nat :=
  match neurocard_instance a with
  | Some (_, max_step) => max_step
  | None => 0
  end.

(** ** Further vocabulary: orderings and scheduler names *)

(** The indices the correction relocates: those of the sub-variable
    columns other than the first one of each factorized column. *)
Definition relocated (cols : list Column) (mapping : list (Column * list Column))
    (v : nat) : bool :=
  existsb (fun m =>
             existsb (fun sub =>
                        match index cols sub with
                        | Ok c => c =? v
                        | Raise _ => false
                        end)
                     (tl (snd m)))
          mapping.

(** The string holds no occurrence of the separator. *)
Fixpoint lacks (sep : ascii) (s : string) : bool :=
  match s with
  | EmptyString => true
  | String c r => negb (Ascii.eqb c sep) && lacks sep r
  end.

(** ** Further vocabulary: gradients, estimators, logging *)

(** The lines of the parameters that have a gradient. *)
Definition grad_lines (named_parameters : list (string * option Grad))
  : list (string * nat) :=
  flat_map (fun p => match snd p with
                     | Some g => [(fst p, grad_data g)]
                     | None => []
                     end) named_parameters.

Definition nan_free (p : string * option Grad) : Prop :=
  forall g, snd p = Some g -> has_nan g = false.

(** The estimator [ready_for_evaluate] builds for [n] samples. *)
Definition built_sampler (self : NeuroCard) (n : nat) : ProgressiveSampler :=
  {| ps_class := if factorize (builder self)
                 then FactorizedProgressiveSampling
                 else ProgressiveSampling;
     ps_model := model_state self;
     ps_data := if factorize (builder self) then TrainData else Table;
     ps_num_samples := n;
     ps_shortcircuit := dropout self || per_row_dropout self;
     ps_do_fanout_scaling :=
       dataset_available (builder self) && (1 <? length (join_tables self));
     ps_verbose_data :=
       if verbose_mode self
       then option_map (@length query) (loaded_queries self)
       else None;
     ps_bytes_domain := None |}.

(** Two controllers that differ at most in what a checkpoint holds: the
    model state, the epoch, the optimizer state and the last loss. *)
Definition same_configuration (a b : NeuroCard) : Prop :=
  mode a = mode b /\
  checkpoint_to_load a = checkpoint_to_load b /\
  asserts a = asserts b /\
  loaded_queries a = loaded_queries b /\
  oracle_cards a = oracle_cards b /\
  oracle a = oracle b /\
  not_support_query_idx a = not_support_query_idx b /\
  num_eval_queries_at_checkpoint_load a = num_eval_queries_at_checkpoint_load b /\
  eval_join_sampling a = eval_join_sampling b /\
  workload_name a = workload_name b /\
  table_cardinality a = table_cardinality b /\
  builder a = builder b /\
  join_tables a = join_tables b /\
  eval_psamples a = eval_psamples b /\
  dropout a = dropout b /\
  per_row_dropout a = per_row_dropout b /\
  verbose_mode a = verbose_mode b /\
  sample_alg a = sample_alg b /\
  use_raw_table a = use_raw_table b /\
  self_estimators a = self_estimators b /\
  estimators_lib a = estimators_lib b.

(** The dictionary [step] returns, as the logger sees it. *)
Definition step_dict (r : step_result) : list (string * pyvalue) :=
  [("epoch"%string, PyInt (sr_epoch r));
   ("done"%string, PyBool (sr_done r));
   ("results"%string, PyDict (sr_results r))].

(** * Concrete inputs *)

(** ** A workload and a checkpoint *)

(** A workload of two queries with their oracle cardinalities, one
    progressive sampler, and a checkpoint saved at epoch 5. *)
Definition query_a : query :=
  {| q_cols := ["title.kind_id"%string]; q_ops := ["="%string]; q_vals := [1%Q] |}.

Definition query_b : query :=
  {| q_cols := ["title.production_year"%string]; q_ops := ["<"%string]; q_vals := [] |}.

Definition steady_sampler : Estimator :=
  {| est_name := "psample_2000";
     est_Query := fun _ => Ok 950%Q;
     est_Query_not_support := Ok 0%Q;
     est_log := [] |}.

(** A sampler that raises on the first query of the workload and answers
    the second. *)
Definition flaky_sampler : Estimator :=
  {| est_name := "psample_2000";
     est_Query := fun q =>
       match q_vals q with
       | [] => Ok 950%Q
       | _ => Raise (ExternalError 1)
       end;
     est_Query_not_support := Ok 0%Q;
     est_log := [] |}.

(** The configuration of the trial: one table of an available dataset,
    not factorized, with the natural ordering. *)
Definition title_builder : builder_attrs :=
  {| dataset_available := true;
     factorize := false;
     num_sigmoids := 0%Z;
     word_size_bits := 11;
     post_add_noise := false;
     subvar_dropout := false;
     adjust_fact_col := false;
     special_orders := 0;
     order := None;
     order_seed := None;
     order_content_only := true;
     order_indicators_at_front := true;
     activation := "relu" |}.

(** The estimators module of the trials below: the estimator made for
    the sample count [2000 + i] is the [i]-th of [samplers]. *)
Definition sampler_object (samplers : list Estimator) (made : ProgressiveSampler)
  : Estimator :=
  nth (ps_num_samples made - 2000) samplers
      {| est_name := "psample";
         est_Query := fun _ => Raise (ExternalError 0);
         est_Query_not_support := Raise (ExternalError 0);
         est_log := [] |}.

Definition trial (samplers : list Estimator) : NeuroCard :=
  {| epoch := 0; mode := "TRAIN";
     checkpoint_to_load := Some "models/*.tar"%string;
     model_state := 0; opt_state := 0; lloss := None;
     asserts := [("psample_2000_max"%string, 3%Q)];
     loaded_queries := Some [query_a; query_b];
     oracle_cards := Some [1000%Q; 1900%Q];
     oracle := None;
     not_support_query_idx := [];
     num_eval_queries_at_checkpoint_load := 2;
     eval_join_sampling := None;
     workload_name := "job-light";
     table_cardinality := 2000%Q;
     builder := title_builder;
     join_tables := ["title"%string];
     eval_psamples := map (Nat.add 2000) (seq 0 (length samplers));
     dropout := false;
     per_row_dropout := false;
     verbose_mode := false;
     sample_alg := "ps";
     use_raw_table := None;
     self_estimators := None;
     estimators_lib := sampler_object samplers |}.

Definition one_checkpoint : Disk :=
  {| glob := fun _ => ["models/epoch5.tar"%string];
     torch_load := fun _ =>
       Ok {| ck_model_state_dict := 11; ck_optimizer_state_dict := 12;
             ck_epoch := 5; ck_loss := 3%Q |} |}.

(** A disk on which the pattern matches nothing, and one on which it
    matches two files. *)
Definition no_checkpoint : Disk :=
  {| glob := fun _ => []; torch_load := torch_load one_checkpoint |}.

Definition two_checkpoints : Disk :=
  {| glob := fun _ => ["models/epoch4.tar"%string; "models/epoch5.tar"%string];
     torch_load := torch_load one_checkpoint |}.

(** ** Epochs *)

(** Five batches, a window of two steps and a budget of five steps. *)
Definition made_model : Model :=
  {| orderings := None; has_update_masks := true; embed_size := 32 |}.

Definition accumulating_epoch : epoch_args :=
  {| split_name := "train";
     model := made_model;
     loader := [Tensor 0; Tensor 1; Tensor 2; Tensor 3; Tensor 4];
     is_iterable_dataset := false;
     upto := None;
     epoch_num := 0;
     epochs := 1;
     warmups := 1000%Q;
     constant_lr := Some (1 # 1000)%Q;
     lr_scheduler := Some (CosineAnnealingLR 5);
     custom_lr_lambda := None;
     neurocard_instance := Some (2, 5) |}.


(** An evaluation epoch over a model with two orderings. *)
Definition ensemble_eval : epoch_args :=
  {| split_name := "test";
     model := {| orderings := Some 2; has_update_masks := true; embed_size := 32 |};
     loader := [Tensor 0; Tensor 1];
     is_iterable_dataset := false;
     upto := None;
     epoch_num := 0;
     epochs := 1;
     warmups := 1000%Q;
     constant_lr := None;
     lr_scheduler := None;
     custom_lr_lambda := None;
     neurocard_instance := None |}.

(** A training epoch for which no learning-rate policy was selected. *)
Definition unset_policy_epoch : epoch_args :=
  {| split_name := "train";
     model := made_model;
     loader := [Tensor 0; Tensor 1];
     is_iterable_dataset := false;
     upto := None;
     epoch_num := 0;
     epochs := 1;
     warmups := 1000%Q;
     constant_lr := None;
     lr_scheduler := None;
     custom_lr_lambda := None;
     neurocard_instance := None |}.


(** ** A generator and tables to run the builder with *)

(** A small deterministic generator that satisfies [permutation_law]: the
    state is a counter, and [permutation] rotates its argument by the
    counter.  It stands in for numpy's generator when the builder is run
    on concrete columns. *)
Definition rotate (k : nat) (l : list nat) : list nat :=
  skipn (k mod length l) l ++ firstn (k mod length l) l.

Definition rotating_RandomState (seed : nat) : nat := seed.

Definition rotating_permutation (rng : nat) (l : list nat) : list nat * nat :=
  (rotate rng l, S rng).

(** A factorized table: column [a] split into two sub-variables, a content
    column, an indicator and a fanout column. *)
Definition col (s : string) : Column := {| name := s; distribution_size := 256 |}.

Definition factorized_cols : list Column :=
  [col "a_fact_0"; col "b"; col "a_fact_1"; col "__in_t"; col "__fanout_t"].

Definition factorized_table : FactorTable :=
  {| fact_col_mapping := [(col "a", [col "a_fact_0"; col "a_fact_1"])] |}.

Definition three_cols : list Column := [col "a"; col "b"; col "c"].

(** ** Further workloads, epochs and controllers *)

(** The workload of [trial] with the queries, the flagged indices and the
    number of queries to evaluate left open. *)
Definition trial_with (queries : option (list query)) (flagged : list nat)
    (num_queries : nat) (samplers : list Estimator) : NeuroCard :=
  {| epoch := 0; mode := "TRAIN";
     checkpoint_to_load := Some "models/*.tar"%string;
     model_state := 0; opt_state := 0; lloss := None;
     asserts := [("psample_2000_max"%string, 3%Q)];
     loaded_queries := queries;
     oracle_cards := Some [1000%Q; 1900%Q];
     oracle := None;
     not_support_query_idx := flagged;
     num_eval_queries_at_checkpoint_load := num_queries;
     eval_join_sampling := None;
     workload_name := "job-light";
     table_cardinality := 2000%Q;
     builder := title_builder;
     join_tables := ["title"%string];
     eval_psamples := map (Nat.add 2000) (seq 0 (length samplers));
     dropout := false;
     per_row_dropout := false;
     verbose_mode := false;
     sample_alg := "ps";
     use_raw_table := None;
     self_estimators := None;
     estimators_lib := sampler_object samplers |}.

(** A training epoch of five batches with a constant rate, cut off after
    two steps. *)
Definition capped_epoch : epoch_args :=
  {| split_name := "train";
     model := made_model;
     loader := [Tensor 0; Tensor 1; Tensor 2; Tensor 3; Tensor 4];
     is_iterable_dataset := true;
     upto := Some 2;
     epoch_num := 1;
     epochs := 2;
     warmups := 1000%Q;
     constant_lr := Some (1 # 1000)%Q;
     lr_scheduler := None;
     custom_lr_lambda := None;
     neurocard_instance := Some (2, 5) |}.

(** The accumulating epoch with a window of 0. *)
Definition zero_window_epoch : epoch_args :=
  {| split_name := "train";
     model := made_model;
     loader := [Tensor 0; Tensor 1];
     is_iterable_dataset := false;
     upto := None;
     epoch_num := 0;
     epochs := 1;
     warmups := 1000%Q;
     constant_lr := Some (1 # 1000)%Q;
     lr_scheduler := None;
     custom_lr_lambda := None;
     neurocard_instance := Some (0, 5) |}.

(** A configuration with a passed-in order and a numeric seed, and the
    same with ['reverse']. *)
Definition seeded_order (seed : order_seed_value) : builder_attrs :=
  {| dataset_available := true;
     factorize := false;
     num_sigmoids := 0%Z;
     word_size_bits := 11;
     post_add_noise := false;
     subvar_dropout := false;
     adjust_fact_col := false;
     special_orders := 0;
     order := Some [2; 0; 1];
     order_seed := Some seed;
     order_content_only := true;
     order_indicators_at_front := true;
     activation := "relu" |}.

Definition title_table : LoadedTable :=
  {| table_name := "title"; table_columns := three_cols; cardinality := 2000%Q |}.

(** A file system for the table stage that holds the table [title] and a
    primary-key file with one key. *)
Definition title_env : table_env :=
  {| sorted_table_names := ["cast_info"%string; "title"%string];
     pickle_load := fun _ => Ok ["title.id"%string];
     LoadDataset := fun t =>
       if String.eqb t "title" then Ok title_table else Raise (ExternalError 2);
     join_branch := fun _ => Raise AttributeError;
     get_single_join_spec := Ok tt |}.

(** The trial in verbose mode, before any queries file is read. *)
Definition verbose_trial : NeuroCard :=
  {| epoch := 0; mode := "TRAIN";
     checkpoint_to_load := Some "models/*.tar"%string;
     model_state := 0; opt_state := 0; lloss := None;
     asserts := [];
     loaded_queries := None;
     oracle_cards := None;
     oracle := None;
     not_support_query_idx := [];
     num_eval_queries_at_checkpoint_load := 2;
     eval_join_sampling := None;
     workload_name := "job-light";
     table_cardinality := 2000%Q;
     builder := title_builder;
     join_tables := ["title"%string];
     eval_psamples := [2000];
     dropout := false;
     per_row_dropout := false;
     verbose_mode := true;
     sample_alg := "ps";
     use_raw_table := None;
     self_estimators := None;
     estimators_lib := sampler_object [steady_sampler] |}.

(** A controller that answers single queries with one sample count, and
    one with two. *)
Definition single_sampler (psamples : list nat) : NeuroCard :=
  {| epoch := 0; mode := "INFERENCE";
     checkpoint_to_load := Some "models/*.tar"%string;
     model_state := 11; opt_state := 0; lloss := None;
     asserts := [];
     loaded_queries := None;
     oracle_cards := None;
     oracle := None;
     not_support_query_idx := [];
     num_eval_queries_at_checkpoint_load := 0;
     eval_join_sampling := None;
     workload_name := "job-light";
     table_cardinality := 2000%Q;
     builder := seeded_order Reverse;
     join_tables := ["title"%string];
     eval_psamples := psamples;
     dropout := true;
     per_row_dropout := false;
     verbose_mode := false;
     sample_alg := "ps";
     use_raw_table := None;
     self_estimators := None;
     estimators_lib := sampler_object [steady_sampler] |}.

(** Python's [float] on the two numbers of the scheduler name used below. *)
Definition float_of_text (s : string) : result Q :=
  if String.eqb s "0.001" then Ok (1 # 1000)%Q
  else if String.eqb s "0.05" then Ok (1 # 20)%Q
  else Raise ValueError.

(** Four parameters: one without a gradient, and one whose gradient holds
    a NaN. *)
Definition named_parameters_with_nan : list (string * option Grad) :=
  [("embedding.weight"%string, Some {| grad_data := 1; has_nan := false |});
   ("frozen.weight"%string, None);
   ("net.0.weight"%string, Some {| grad_data := 2; has_nan := true |});
   ("net.0.bias"%string, Some {| grad_data := 3; has_nan := false |})].


(** * Properties *)

Set Implicit Arguments.

(** ** The error metric *)

Section MetricFacts.

Import Metric.
Local Open Scope Q_scope.

Lemma is_zero_true (x : Q) : is_zero x = true <-> x == 0.
Proof. unfold is_zero. apply Qeq_bool_iff. Qed.

Lemma is_zero_false (x : Q) : is_zero x = false <-> ~ x == 0.
Proof.
  rewrite <- is_zero_true. destruct (is_zero x); split; congruence.
Qed.

Lemma py_max_spec (a b : Q) : py_max a b == Qmax a b.
Proof.
  unfold py_max. destruct (Qle_bool b a) eqn:E.
  - apply Qle_bool_iff in E. symmetry. now apply Q.max_l.
  - assert (a <= b).
    { destruct (Qlt_le_dec a b) as [H | H]; [now apply Qlt_le_weak|].
      apply Qle_bool_iff in H. congruence. }
    symmetry. now apply Q.max_r.
Qed.

Lemma py_max_comm (a b : Q) : py_max a b == py_max b a.
Proof. rewrite !py_max_spec. apply Q.max_comm. Qed.

Lemma ErrorMetric_both_zero (e t : Q) :
  e == 0 -> t == 0 -> ErrorMetric e t = 1.
Proof.
  intros He Ht. apply is_zero_true in He, Ht.
  unfold ErrorMetric. now rewrite He, Ht.
Qed.

Lemma ErrorMetric_true_zero (e t : Q) :
  ~ e == 0 -> t == 0 -> ErrorMetric e t = e.
Proof.
  intros He Ht. apply is_zero_false in He. apply is_zero_true in Ht.
  unfold ErrorMetric. now rewrite He, Ht.
Qed.

Lemma ErrorMetric_est_zero (e t : Q) :
  e == 0 -> ~ t == 0 -> ErrorMetric e t = t.
Proof.
  intros He Ht. apply is_zero_true in He. apply is_zero_false in Ht.
  unfold ErrorMetric. now rewrite He, Ht.
Qed.

Lemma ErrorMetric_nonzero (e t : Q) :
  ~ e == 0 -> ~ t == 0 -> ErrorMetric e t = py_max (e / t) (t / e).
Proof.
  intros He Ht. apply is_zero_false in He, Ht.
  unfold ErrorMetric. now rewrite He, Ht.
Qed.

Lemma ErrorMetric_sym (e t : Q) : ErrorMetric e t == ErrorMetric t e.
Proof.
  destruct (Qeq_dec e 0) as [He | He], (Qeq_dec t 0) as [Ht | Ht].
  - now rewrite !ErrorMetric_both_zero.
  - rewrite (ErrorMetric_est_zero He Ht), (ErrorMetric_true_zero Ht He).
    reflexivity.
  - rewrite (ErrorMetric_true_zero He Ht), (ErrorMetric_est_zero Ht He).
    reflexivity.
  - rewrite !ErrorMetric_nonzero by assumption. apply py_max_comm.
Qed.

Lemma ErrorMetric_exact (t : Q) : 0 < t -> ErrorMetric t t == 1.
Proof.
  intros Ht.
  assert (Hnz : ~ t == 0).
  { intros H. rewrite H in Ht. now apply Qlt_irrefl in Ht. }
  rewrite ErrorMetric_nonzero by assumption.
  rewrite py_max_spec.
  assert (Hd : t / t == 1) by now field.
  rewrite Hd. now apply Q.max_l.
Qed.

(** C4.  On nonnegative inputs [ErrorMetric] is 1 when both arguments are
    zero, the nonzero argument when exactly one is zero, and the larger of
    the two quotients otherwise; it is symmetric in its arguments, and it
    is 1 on equal positive arguments. *)
Theorem ErrorMetric_cases (est t : Q) :
  0 <= est -> 0 <= t ->
  (est == 0 -> t == 0 -> ErrorMetric est t = 1) /\
  (~ est == 0 -> t == 0 -> ErrorMetric est t = est) /\
  (est == 0 -> ~ t == 0 -> ErrorMetric est t = t) /\
  (~ est == 0 -> ~ t == 0 -> ErrorMetric est t == Qmax (est / t) (t / est)) /\
  ErrorMetric est t == ErrorMetric t est /\
  (0 < t -> ErrorMetric t t == 1).
Proof.
  intros _ _. repeat split.
  - apply ErrorMetric_both_zero.
  - apply ErrorMetric_true_zero.
  - apply ErrorMetric_est_zero.
  - intros He Ht. rewrite (ErrorMetric_nonzero He Ht). apply py_max_spec.
  - apply ErrorMetric_sym.
  - apply ErrorMetric_exact.
Qed.

(** The aggregates of the report on the error series 1.0, 1.05, 2.0. *)
Example report_aggregates :
  Numpy.max [1; 21 # 20; 2] = Ok 2 /\
  Numpy.median [1; 21 # 20; 2] = 21 # 20 /\
  Numpy.quantile [1; 21 # 20; 2] (1 # 2) == 21 # 20.
Proof. repeat split. Qed.

(** An estimate of 950 against a true cardinality of 1000. *)
Lemma ErrorMetric_cases_witness :
  ErrorMetric 950 1000 == Qmax (950 / 1000) (1000 / 950) /\
  ErrorMetric 950 1000 == ErrorMetric 1000 950.
Proof.
  assert (H0 : 0 <= 950) by discriminate.
  assert (H1 : 0 <= 1000) by discriminate.
  destruct (ErrorMetric_cases H0 H1) as (_ & _ & _ & Hq & Hs & _).
  split; [apply Hq; discriminate | exact Hs].
Defined.

End MetricFacts.

(** ** Checkpoint loading *)

Lemma length_one {A : Type} (l : list A) :
  (length l =? 1) = true -> exists x, l = [x].
Proof.
  destruct l as [|x [|y l]]; simpl; try discriminate. intros _. now exists x.
Qed.

(** C9.  The checkpoint stage of [setup] raises an assertion when no
    checkpoint is configured and when the configured pattern does not match
    exactly one file; it succeeds only on exactly one match, and does
    succeed when that file loads. *)
Theorem setup_checkpoint_mandatory (self : NeuroCard) (d : Disk) :
  (checkpoint_to_load self = None ->
   setup_checkpoint self d = Raise AssertionError) /\
  (forall pattern,
     checkpoint_to_load self = Some pattern ->
     length (glob d pattern) <> 1 ->
     setup_checkpoint self d = Raise AssertionError) /\
  (forall loaded,
     setup_checkpoint self d = Ok loaded ->
     exists pattern file,
       checkpoint_to_load self = Some pattern /\ glob d pattern = [file] /\
       is_ok (torch_load d file) = true) /\
  (forall pattern file ckpt,
     checkpoint_to_load self = Some pattern ->
     glob d pattern = [file] ->
     torch_load d file = Ok ckpt ->
     exists loaded,
       setup_checkpoint self d = Ok loaded /\
       model_state loaded = ck_model_state_dict ckpt).
Proof.
  unfold setup_checkpoint, LoadCheckpoint. repeat split.
  - intros ->. reflexivity.
  - intros pattern -> Hlen.
    destruct (length (glob d pattern) =? 1) eqn:E.
    + apply Nat.eqb_eq in E. contradiction.
    + reflexivity.
  - intros loaded. destruct (checkpoint_to_load self) as [pattern|]; [|discriminate].
    destruct (length (glob d pattern) =? 1) eqn:E; simpl; [|discriminate].
    destruct (length_one _ E) as [file Hfile]. rewrite Hfile. simpl.
    destruct (torch_load d file) eqn:L; simpl; [|discriminate].
    intros _. exists pattern, file. rewrite L. auto.
  - intros pattern file ckpt -> Hglob Hload. rewrite Hglob. simpl. rewrite Hload. simpl.
    destruct (String.eqb (mode self) "INFERENCE"); eexists; split; reflexivity.
Qed.

(** One match loads; no match and two matches fail the assertion. *)
Lemma setup_checkpoint_mandatory_witness :
  (exists loaded,
     setup_checkpoint (trial [steady_sampler]) one_checkpoint = Ok loaded /\
     model_state loaded = 11) /\
  setup_checkpoint (trial [steady_sampler]) no_checkpoint = Raise AssertionError /\
  setup_checkpoint (trial [steady_sampler]) two_checkpoints = Raise AssertionError.
Proof.
  split; [|split].
  - destruct (setup_checkpoint_mandatory (trial [steady_sampler]) one_checkpoint)
      as (_ & _ & _ & H).
    apply (H "models/*.tar"%string "models/epoch5.tar"%string
             {| ck_model_state_dict := 11; ck_optimizer_state_dict := 12;
                ck_epoch := 5; ck_loss := 3%Q |}); reflexivity.
  - destruct (setup_checkpoint_mandatory (trial [steady_sampler]) no_checkpoint)
      as (_ & H & _).
    apply (H "models/*.tar"%string); [reflexivity|discriminate].
  - destruct (setup_checkpoint_mandatory (trial [steady_sampler]) two_checkpoints)
      as (_ & H & _).
    apply (H "models/*.tar"%string); [reflexivity|discriminate].
Defined.

(** ** The step of the controller *)

Lemma evaluate_query_same (a b : NeuroCard) i q st :
  same_workload a b -> evaluate_query a i q st = evaluate_query b i q st.
Proof.
  intros (_ & _ & Hc & Ho & Hn & _ & _ & Hw & Ht & _).
  unfold evaluate_query, try_Query, oracle_card_at, Query.
  now rewrite Hc, Ho, Hn, Hw, Ht.
Qed.

Lemma evaluate_loop_same (a b : NeuroCard) queries :
  same_workload a b ->
  forall i st, evaluate_loop a i queries st = evaluate_loop b i queries st.
Proof.
  intros H. induction queries as [|q rest IH]; intros i st; simpl.
  - reflexivity.
  - rewrite (evaluate_query_same i q st H).
    destruct (evaluate_query b i q st) as [st' [[]|e]]; auto.
Qed.

Lemma MakeProgressiveSamplers_same (a b : NeuroCard) model train_data fanout :
  same_workload a b ->
  MakeProgressiveSamplers a model train_data fanout =
  MakeProgressiveSamplers b model train_data fanout.
Proof.
  intros (_ & Hq & _ & _ & _ & _ & _ & _ & _ & _ & Hb & _ & Hp & Hd & Hr & Hv & _).
  unfold MakeProgressiveSamplers. now rewrite Hq, Hb, Hp, Hd, Hr, Hv.
Qed.

Lemma evaluate_same (a b : NeuroCard) n given disk :
  same_workload a b -> evaluate a n given disk = evaluate b n given disk.
Proof.
  intros H. pose proof (fun qs => evaluate_loop_same qs H) as HL.
  pose proof (fun m t f => MakeProgressiveSamplers_same m t f H) as HM.
  destruct H as (_ & Hq & _ & _ & _ & _ & Hj & Hw & _ & Hm & Hb & Ht & _ & _ & _ & _ & Hlib).
  unfold evaluate. rewrite Hq, Hj, Hw, Hm, Hb, Ht, Hlib, HM.
  destruct (n =? 0); [reflexivity|].
  destruct (match given with
            | Some ests => Ok ests
            | None => _
            end) as [ests|e]; [|reflexivity].
  destruct (loaded_queries b); [|reflexivity]. now rewrite HL.
Qed.

Lemma step_same (a b : NeuroCard) disk :
  same_workload a b -> step a disk = step b disk.
Proof.
  intros H. unfold step, _maybe_check_asserts.
  rewrite (evaluate_same _ None disk H).
  destruct H as (Ha & _ & _ & _ & _ & Hn & _). now rewrite Ha, Hn.
Qed.

Lemma LoadCheckpoint_same (self loaded : NeuroCard) (d : Disk) :
  LoadCheckpoint self d = Ok loaded ->
  same_workload loaded (load_state_dict self (model_state loaded)).
Proof.
  unfold LoadCheckpoint.
  destruct (checkpoint_to_load self); [|discriminate].
  destruct (assert _); simpl; [|discriminate].
  destruct (torch_load d _); simpl; [|discriminate].
  destruct (String.eqb (mode self) "INFERENCE"); intros [= <-];
    repeat split; reflexivity.
Qed.

(** C10.  Whenever [step] returns, its result has epoch 0 and done True;
    it does return such a result when [evaluate] returns and the assertion
    hook passes; and of what [LoadCheckpoint] restored into the controller
    it reads the model only, not the epoch, the optimizer state or the
    loss: on a controller that comes out of [LoadCheckpoint] it behaves as
    on the controller before loading once the checkpoint's model is put
    in. *)
Theorem step_epoch_zero_done (self : NeuroCard) (disk : list (string * log_line)) :
  (forall r, snd (step self disk) = Ok r -> sr_epoch r = 0 /\ sr_done r = true) /\
  (forall st results,
     evaluate self (num_eval_queries_at_checkpoint_load self) None disk
       = (st, Ok results) ->
     _maybe_check_asserts self results None = Ok tt ->
     step self disk =
       (st, Ok {| sr_epoch := 0; sr_done := true; sr_results := results |})) /\
  (forall before d,
     LoadCheckpoint before d = Ok self ->
     step self disk = step (load_state_dict before (model_state self)) disk).
Proof.
  split; [|split].
  - intros r. unfold step.
    destruct (evaluate self _ None disk) as [st [results|e]]; simpl; [|discriminate].
    destruct (_maybe_check_asserts self results None); simpl; [|discriminate].
    intros [= <-]. auto.
  - intros st results He Ha. unfold step. rewrite He, Ha. reflexivity.
  - intros before d HL. apply step_same. eapply LoadCheckpoint_same; eauto.
Qed.

(** The checkpoint restores epoch 5 and the step still reports epoch 0. *)
Lemma step_epoch_zero_done_witness :
  exists loaded r,
    LoadCheckpoint (trial [steady_sampler]) one_checkpoint = Ok loaded /\
    epoch loaded = 5 /\
    snd (step loaded []) = Ok r /\ sr_epoch r = 0 /\ sr_done r = true /\
    step loaded [] = step (load_state_dict (trial [steady_sampler]) 11) [].
Proof.
  eexists. eexists.
  split; [reflexivity|]. split; [reflexivity|].
  split; [vm_compute; reflexivity|].
  match goal with
  | |- sr_epoch _ = 0 /\ sr_done _ = true /\ step ?l _ = _ =>
      destruct (step_epoch_zero_done l []) as (H1 & _ & H3)
  end.
  split; [|split].
  - eapply H1. vm_compute. reflexivity.
  - eapply H1. vm_compute. reflexivity.
  - apply (H3 (trial [steady_sampler]) one_checkpoint). reflexivity.
Defined.

(** ** The evaluation loop *)

Section EvaluateFacts.

Import Metric.

Lemma extend_extend est a b : extend (extend est a) b = extend est (a ++ b).
Proof. unfold extend. simpl. now rewrite app_assoc. Qed.

Lemma Query_estimators_all q c ests :
  Forall (fun est => is_ok (est_Query est q) = true) ests ->
  Query_estimators q c ests =
    (map (fun est =>
            extend est [{| le_err := ErrorMetric (answer est q) c;
                           le_est_card := answer est q;
                           le_true_card := c |}]) ests,
     Ok tt).
Proof.
  induction 1 as [|est rest Hest _ IH]; simpl; [reflexivity|].
  unfold answer at 1 2. destruct (est_Query est q) as [c'|e] eqn:E; [|discriminate].
  rewrite IH. reflexivity.
Qed.



Lemma try_Query_supported self ests i q (g : Estimator -> list log_entry) :
  supported self ests i q ->
  try_Query self i q (map (fun est => extend est (g est)) ests) =
    (map (fun est => extend est (g est ++ [real_entry self i q est])) ests, Ok tt).
Proof.
  intros (_ & Hc & Hz & Ha).
  unfold real_entry, card. unfold true_card in *. unfold try_Query, Query.
  destruct (oracle_card_at self i) as [[c|]|e]; try discriminate.
  - rewrite Hz, Query_estimators_all.
    + rewrite map_map. f_equal. apply map_ext. intros est. apply extend_extend.
    + apply Forall_map. exact Ha.
  - destruct (oracle self) as [o|]; [|discriminate].
    destruct (o q) as [c|e]; [|discriminate].
    rewrite Hz, Query_estimators_all.
    + rewrite map_map. f_equal. apply map_ext. intros est. apply extend_extend.
    + apply Forall_map. exact Ha.
Qed.




Lemma evaluate_loop_supported self ests queries :
  forall i (g : Estimator -> list log_entry) st,
    estimators st = map (fun est => extend est (g est)) ests ->
    (forall k q, nth_error queries k = Some q -> supported self ests (i + k) q) ->
    evaluate_loop self i queries st =
      ({| estimators :=
            map (fun est => extend est (g est ++ real_entries self est i queries)) ests;
          err_queries := err_queries st;
          files := files st |}, Ok tt).
Proof.
  induction queries as [|q rest IH]; intros i g st Hst Hsup; simpl.
  - destruct st as [es eq fs]. simpl in *. subst es. f_equal. f_equal.
    apply map_ext. intros est. now rewrite app_nil_r.
  - pose proof (Hsup 0 q eq_refl) as H0. rewrite Nat.add_0_r in H0.
    unfold evaluate_query. rewrite (proj1 H0), Hst, (try_Query_supported g H0).
    rewrite (IH (S i) (fun est => g est ++ [real_entry self i q est])); simpl.
    + f_equal. f_equal. apply map_ext. intros est. now rewrite <- app_assoc.
    + reflexivity.
    + intros k qk Hk. specialize (Hsup (S k) qk Hk).
      now replace (i + S k) with (S i + k) in Hsup by lia.
Qed.

Lemma evaluate_loop_app self l1 l2 :
  forall i st,
    evaluate_loop self i (l1 ++ l2) st =
      match evaluate_loop self i l1 st with
      | (st', Ok _) => evaluate_loop self (i + length l1) l2 st'
      | (st', Raise e) => (st', Raise e)
      end.
Proof.
  induction l1 as [|q rest IH]; intros i st; simpl.
  - now rewrite Nat.add_0_r.
  - destruct (evaluate_query self i q st) as [st' [[]|e]]; [|reflexivity].
    rewrite IH. now replace (S i + length rest) with (i + S (length rest)) by lia.
Qed.



End EvaluateFacts.

Lemma extend_nil ests : map (fun est => extend est []) ests = ests.
Proof.
  induction ests as [|[n f s l] rest IH]; simpl; [reflexivity|].
  rewrite IH. unfold extend. simpl. now rewrite app_nil_r.
Qed.

Lemma MakeProgressiveSamplers_loaded self queries model train_data fanout :
  loaded_queries self = Some queries ->
  is_ok (MakeProgressiveSamplers self model train_data fanout) = true.
Proof.
  intros Hq. unfold MakeProgressiveSamplers. rewrite Hq.
  destruct (verbose_mode self); [|reflexivity].
  destruct (eval_psamples self); reflexivity.
Qed.

Lemma evaluate_unfold self queries num_queries disk :
  loaded_queries self = Some queries ->
  0 < num_queries ->
  truthy_nat (eval_join_sampling self) = false ->
  evaluate self num_queries None disk =
    match evaluate_loop self 0 (firstn (Nat.min (length queries) num_queries) queries)
            {| estimators := progressive_samplers self; err_queries := []; files := disk |}
    with
    | (st, Raise e) => (st, Raise e)
    | (st, Ok _) =>
        let st :=
          if 0 <? length (err_queries st) then
            {| estimators := estimators st;
               err_queries := err_queries st;
               files := files st ++
                 [((workload_name self ++ "_err_queries.txt")%string,
                   ErrQueries (err_queries st))] |}
          else st in
        (st, report_estimators [] (estimators st))
    end.
Proof.
  intros Hq Hn Hj. unfold evaluate, progressive_samplers.
  destruct (num_queries =? 0) eqn:E; [apply Nat.eqb_eq in E; lia|].
  pose proof (MakeProgressiveSamplers_loaded self (model_state self)
                (if factorize (builder self) then TrainData else Table)
                (dataset_available (builder self) && (1 <? length (join_tables self)))
                Hq) as Hok.
  destruct (MakeProgressiveSamplers self _ _ _) as [made|e]; [|discriminate].
  cbn [bind]. rewrite Hq.
  destruct (eval_join_sampling self) as [[|k]|]; try discriminate; reflexivity.
Qed.




(** ** The training loop *)

Lemma train_update_events a sched w max_step step :
  neurocard_instance a = Some (w, max_step) ->
  0 < w ->
  sched = active_scheduler a ->
  train_update a sched step = (update_events a w max_step step, Ok tt).
Proof.
  intros Hi Hw ->. unfold train_update, update_events, fires. rewrite Hi.
  destruct (w =? 0) eqn:E; [apply Nat.eqb_eq in E; lia|].
  unfold tbind, emit, lift, tret.
  destruct (step =? 0), ((step + 1) mod w =? 0), (step + 1 =? max_step),
    (active_scheduler a); reflexivity.
Qed.

Lemma forward_pass_single a xb :
  String.eqb (split_name a) "test" && (1 <? match orderings (model a) with
                                             | Some n => n
                                             | None => 1
                                             end) = false ->
  forward_pass a xb = (single_forward a xb ++ [Nll 1 xb], Ok tt).
Proof.
  intros H. unfold forward_pass, single_forward. rewrite H.
  unfold tbind, emit. simpl. now rewrite !app_nil_r.
Qed.

Lemma forward_pass_train a xb :
  split_name a = "train"%string ->
  forward_pass a xb = (single_forward a xb ++ [Nll 1 xb], Ok tt).
Proof. intros H. apply forward_pass_single. now rewrite H. Qed.

Lemma forward_pass_ensemble a xb n :
  split_name a = "test"%string ->
  orderings (model a) = Some n ->
  1 < n ->
  forward_pass a xb =
    (concat (repeat (single_forward a xb) n), Raise AssertionError).
Proof.
  intros Hs Ho Hn. unfold forward_pass, single_forward. rewrite Hs, Ho.
  apply Nat.ltb_lt in Hn as Hn'. rewrite Hn'. simpl.
  destruct (n =? 1) eqn:E; [apply Nat.eqb_eq in E; lia|].
  unfold tbind, emit, lift. now rewrite app_nil_r.
Qed.

Lemma learning_rate_scheduler a sched gs lr :
  sched = lr_scheduler a \/ sched = active_scheduler a ->
  learning_rate a sched gs = Ok lr ->
  snd lr = active_scheduler a.
Proof.
  unfold learning_rate, active_scheduler.
  destruct (truthy (constant_lr a)).
  - intros [-> | ->] [= <-]; reflexivity.
  - destruct (custom_lr_lambda a).
    + intros _ [= <-]. reflexivity.
    + destruct sched as [s|].
      * intros [-> | ->] [= <-]; reflexivity.
      * intros [<- | <-]; destruct (warmup_steps a); simpl; try discriminate;
          destruct (embed_size (model a) =? 0); try discriminate;
          destruct (Metric.is_zero a0); try discriminate;
          destruct (Qle_bool 0 a0); try discriminate; intros [= <-]; reflexivity.
Qed.

Lemma tbind_raise {A B : Type} evs e (k : A -> traced B) :
  tbind (evs, Raise e) k = (evs, Raise e).
Proof. reflexivity. Qed.

Lemma tbind_ok {A B : Type} evs (x : A) (k : A -> traced B) :
  tbind (evs, Ok x) k = (evs ++ fst (k x), snd (k x)).
Proof. unfold tbind. now destruct (k x). Qed.

Lemma filter_single_forward a xb :
  filter is_update_event (single_forward a xb ++ [Nll 1 xb]) = [].
Proof. unfold single_forward. now destruct (has_update_masks (model a)). Qed.

Lemma filter_update_events a w m step :
  filter is_update_event (update_events a w m step) = update_events a w m step.
Proof.
  unfold update_events.
  destruct (step =? 0), (fires w m step), (active_scheduler a); reflexivity.
Qed.

Ltac tsteps := repeat (rewrite tbind_ok; cbv beta; cbn [fst snd]); cbn [fst snd].



Lemma run_epoch_trace a :
  fst (run_epoch a) =
  fst (run_loop a 0 (loader a) {| ls_lr_scheduler := lr_scheduler a; ls_losses := [] |}).
Proof.
  unfold run_epoch.
  destruct (run_loop a 0 (loader a) _) as [evs [st|e]]; [|reflexivity].
  rewrite tbind_ok. cbv beta. cbn [fst].
  destruct (neurocard_instance a), (ls_losses st); simpl; now rewrite app_nil_r.
Qed.

Lemma run_epoch_losses a losses :
  snd (run_epoch a) = Ok losses ->
  exists st,
    snd (run_loop a 0 (loader a) {| ls_lr_scheduler := lr_scheduler a; ls_losses := [] |})
      = Ok st /\ ls_losses st = losses.
Proof.
  unfold run_epoch.
  destruct (run_loop a 0 (loader a) _) as [evs [st|e]]; [|discriminate].
  rewrite tbind_ok. cbv beta. cbn [snd].
  destruct (neurocard_instance a), (ls_losses st) eqn:E; simpl;
    try discriminate; intros [= <-]; eauto.
Qed.

(** *** Counting optimizer steps *)

Lemma div_succ w k :
  0 < w -> S k / w = k / w + (if S k mod w =? 0 then 1 else 0).
Proof.
  intros Hw.
  pose proof (Nat.div_mod_eq (S k) w) as E1.
  pose proof (Nat.div_mod_eq k w) as E2.
  pose proof (Nat.mod_upper_bound (S k) w ltac:(lia)) as B1.
  pose proof (Nat.mod_upper_bound k w ltac:(lia)) as B2.
  destruct (S k mod w =? 0) eqn:E.
  - apply Nat.eqb_eq in E. nia.
  - apply Nat.eqb_neq in E. nia.
Qed.

Lemma count_fires w max_step k :
  0 < w ->
  length (filter (fires w max_step) (seq 0 k)) =
  k / w + (if (0 <? max_step) && (max_step <=? k) && negb (max_step mod w =? 0)
           then 1 else 0).
Proof.
  intros Hw. induction k as [|k IH].
  - simpl. rewrite Nat.Div0.div_0_l.
    destruct max_step; reflexivity.
  - rewrite seq_S, filter_app, length_app, IH, (@div_succ w k Hw). cbn [filter Nat.add].
    unfold fires. replace (k + 1) with (S k) by lia.
    destruct (S k =? max_step) eqn:Em.
    + apply Nat.eqb_eq in Em. subst max_step.
      replace (S k <=? k) with false by (symmetry; apply Nat.leb_gt; lia).
      rewrite Nat.leb_refl. simpl.
      destruct (S k mod w =? 0); simpl; lia.
    + apply Nat.eqb_neq in Em.
      replace (max_step <=? S k) with (max_step <=? k).
      * destruct (S k mod w =? 0); simpl;
          destruct ((0 <? max_step) && (max_step <=? k) && negb (max_step mod w =? 0));
          simpl; lia.
      * destruct (max_step <=? k) eqn:E1, (max_step <=? S k) eqn:E2; auto.
        -- apply Nat.leb_le in E1. apply Nat.leb_gt in E2. lia.
        -- apply Nat.leb_gt in E1. apply Nat.leb_le in E2. lia.
Qed.

Lemma count_opt_steps a w max_step steps :
  length (filter is_opt_step (flat_map (update_events a w max_step) steps)) =
  length (filter (fires w max_step) steps).
Proof.
  induction steps as [|s rest IH]; [reflexivity|].
  cbn [flat_map filter]. rewrite filter_app, length_app, IH.
  unfold update_events.
  destruct (s =? 0), (fires w max_step s), (active_scheduler a); reflexivity.
Qed.

(** *** Where the gradients are zeroed *)











(** *** The forward pass *)

Lemma train_update_no_model_event a sched step :
  filter is_model_event (fst (train_update a sched step)) = [].
Proof.
  unfold train_update, tbind, emit, lift, tret.
  destruct (neurocard_instance a) as [[w m]|]; simpl;
    destruct (step =? 0); simpl;
    repeat match goal with
           | |- context [if ?b then _ else _] => destruct b; simpl
           | |- context [match ?s with Some _ => _ | None => _ end] => destruct s; simpl
           end; reflexivity.
Qed.

Lemma filter_model_single_forward a x :
  filter is_model_event (single_forward a x) = single_forward a x.
Proof. unfold single_forward. now destruct (has_update_masks (model a)). Qed.

Ltac model_events Hu :=
  cbn [fst]; rewrite ?filter_app, filter_model_single_forward, Hu;
  cbn [filter is_model_event app]; rewrite ?app_nil_r; reflexivity.

(** The model calls of one iteration of a training epoch: none when the
    iteration ends the loop before the forward pass, else one forward pass
    through a single ordering and the loss of its output. *)
Lemma iteration_train_forward a step xb st :
  split_name a = "train"%string ->
  (filter is_model_event (fst (iteration a step xb st)) = [] /\
   forall st', snd (iteration a step xb st) <> Ok (Continue, st')) \/
  (exists x,
     batch_tensor xb = Some x /\
     filter is_model_event (fst (iteration a step xb st)) =
       single_forward a x ++ [Nll 1 x]).
Proof.
  intros Hs. unfold iteration. rewrite Hs.
  change (String.eqb "train" "train") with true. cbv iota.
  unfold lift, emit, tret.
  destruct (global_steps a step) as [gs|e]; [|left; split; [reflexivity|discriminate]].
  rewrite tbind_ok. cbv beta. cbn [fst snd app].
  destruct (learning_rate a (ls_lr_scheduler st) gs) as [[v s]|e];
    [|left; split; [reflexivity|discriminate]].
  tsteps.
  destruct (truthy_nat (upto a) && _).
  { left. split; [reflexivity|discriminate]. }
  destruct xb as [x|[|x [|y l]]]; try (left; split; [reflexivity|discriminate]).
  - right. exists x. split; [reflexivity|]. tsteps.
    rewrite (@forward_pass_train a x Hs). tsteps.
    pose proof (train_update_no_model_event a s step) as Hu.
    destruct (train_update a s step) as [evs [[]|e]]; cbn [fst] in Hu.
    + tsteps. model_events Hu.
    + rewrite tbind_raise. model_events Hu.
  - right. exists x. split; [reflexivity|]. tsteps.
    rewrite (@forward_pass_train a x Hs). tsteps.
    pose proof (train_update_no_model_event a s step) as Hu.
    destruct (train_update a s step) as [evs [[]|e]]; cbn [fst] in Hu.
    + tsteps. model_events Hu.
    + rewrite tbind_raise. model_events Hu.
Qed.

Lemma run_loop_forward a :
  split_name a = "train"%string ->
  forall batches step st,
    exists xs,
      length xs <= length batches /\
      map batch_tensor (firstn (length xs) batches) = map Some xs /\
      filter is_model_event (fst (run_loop a step batches st)) =
        flat_map (fun x => single_forward a x ++ [Nll 1 x]) xs.
Proof.
  intros Hs. induction batches as [|xb rest IH]; intros step st.
  - exists []. simpl. auto.
  - cbn [run_loop].
    destruct (@iteration_train_forward a step xb st Hs) as [[Hf Hn] | (x & Hx & Hf)].
    + exists []. split; [simpl; lia|]. split; [reflexivity|].
      destruct (iteration a step xb st) as [evs [[[|] st']|e]]; cbn [fst snd] in *.
      * exfalso. now apply (Hn st').
      * rewrite tbind_ok. cbv beta iota. unfold tret. cbn [fst].
        now rewrite app_nil_r.
      * exact Hf.
    + destruct (iteration a step xb st) as [evs [[[|] st']|e]]; cbn [fst snd] in *.
      * destruct (IH (S step) st') as (xs & Hlen & Hmap & Hxs).
        exists (x :: xs). split; [simpl; lia|]. split.
        -- simpl. now rewrite Hx, Hmap.
        -- rewrite tbind_ok. cbv beta iota. cbn [fst flat_map].
           now rewrite filter_app, Hf, Hxs.
      * exists [x]. split; [simpl; lia|]. split; [simpl; now rewrite Hx|].
        rewrite tbind_ok. cbv beta iota. unfold tret. cbn [fst flat_map].
        now rewrite !app_nil_r.
      * exists [x]. split; [simpl; lia|]. split; [simpl; now rewrite Hx|].
        rewrite tbind_raise. cbn [fst flat_map]. now rewrite app_nil_r.
Qed.

(** C2, as the code has it.  In the training split every forward pass goes
    through a single ordering, after a mask update when the model has one,
    and the loss is taken on that one output; the model calls of a whole
    training epoch are such passes over a prefix of the loader.  In the
    test split with an ensemble of [n > 1] orderings the batch is forwarded
    once per ordering, each after a mask update, and then the assertion
    that guards the ensemble loss fails: no loss is computed and
    [run_epoch] leaves with [AssertionError] on its first batch. *)
Theorem forward_pass_orderings (a : epoch_args) :
  (split_name a = "train"%string ->
   (forall xb, forward_pass a xb = (single_forward a xb ++ [Nll 1 xb], Ok tt)) /\
   exists xs,
     length xs <= length (loader a) /\
     map batch_tensor (firstn (length xs) (loader a)) = map Some xs /\
     filter is_model_event (fst (run_epoch a)) =
       flat_map (fun x => single_forward a x ++ [Nll 1 x]) xs) /\
  (forall n,
     split_name a = "test"%string -> orderings (model a) = Some n -> 1 < n ->
     (forall xb,
        forward_pass a xb =
          (concat (repeat (single_forward a xb) n), Raise AssertionError)) /\
     (forall xb x rest,
        loader a = xb :: rest -> batch_tensor xb = Some x ->
        run_epoch a = (concat (repeat (single_forward a x) n), Raise AssertionError))).
Proof.
  split.
  - intros Hs. split.
    + intros xb. now apply forward_pass_train.
    + rewrite run_epoch_trace. now apply run_loop_forward.
  - intros n Hs Ho Hn. split.
    + intros xb. now apply forward_pass_ensemble.
    + intros xb x rest Hl Hx. unfold run_epoch. rewrite Hl. cbn [run_loop].
      assert (Hit : forall st, iteration a 0 xb st =
                (concat (repeat (single_forward a x) n), Raise AssertionError)).
      { intros st. unfold iteration. rewrite Hs.
        change (String.eqb "test" "train") with false. cbv iota.
        unfold lift, emit, tret. tsteps.
        replace (truthy_nat (upto a) &&
                 match upto a with Some u => u <=? 0 | None => false end) with false
          by (destruct (upto a) as [[|u]|]; reflexivity).
        assert (Hb : match xb with
                     | Tensor x => Ok x
                     | TensorList [x] => Ok x
                     | TensorList _ => Raise AssertionError
                     end = Ok x).
        { destruct xb as [y|[|y [|z l]]]; simpl in Hx; congruence. }
        rewrite Hb. tsteps. rewrite (@forward_pass_ensemble a x n Hs Ho Hn).
        rewrite tbind_raise. reflexivity. }
      rewrite Hit. reflexivity.
Qed.

(** C2 fails on the code: the batch is forwarded through both orderings,
    but no loss is computed from the outputs and nothing is returned. *)
Lemma ensemble_eval_raises :
  run_epoch ensemble_eval =
    ([UpdateMasks; Forward 0; UpdateMasks; Forward 0], Raise AssertionError).
Proof. reflexivity. Qed.

(** A training step forwards once; the evaluation epoch over two orderings
    forwards twice and fails. *)
Lemma forward_pass_orderings_witness :
  forward_pass accumulating_epoch 0 = ([UpdateMasks; Forward 0; Nll 1 0], Ok tt) /\
  run_epoch ensemble_eval =
    (concat (repeat (single_forward ensemble_eval 0) 2), Raise AssertionError).
Proof.
  split.
  - apply (proj1 (proj1 (forward_pass_orderings accumulating_epoch) eq_refl) 0).
  - apply (proj2 (proj2 (forward_pass_orderings ensemble_eval) 2 eq_refl eq_refl (le_n 2))
             (Tensor 0) 0 [Tensor 1]); reflexivity.
Defined.

(** ** The learning-rate policy *)









(** ** The ordering builder *)

Unset Implicit Arguments.

(** *** Array operations *)

Lemma delete_value_app l1 l2 v :
  delete_value (l1 ++ l2) v = delete_value l1 v ++ delete_value l2 v.
Proof. apply filter_app. Qed.

Lemma delete_value_notin l v : ~ In v l -> delete_value l v = l.
Proof.
  induction l as [|x l IH]; simpl; [reflexivity|]. intros H.
  destruct (x =? v) eqn:E.
  - apply Nat.eqb_eq in E. subst. exfalso. apply H. now left.
  - simpl. rewrite IH; [reflexivity|]. intros Hin. apply H. now right.
Qed.

Lemma delete_value_In l v x : In x (delete_value l v) <-> In x l /\ x <> v.
Proof.
  unfold delete_value. rewrite filter_In, negb_true_iff, Nat.eqb_neq. reflexivity.
Qed.

Lemma delete_value_perm l v :
  NoDup l -> In v l -> Permutation l (v :: delete_value l v).
Proof.
  induction l as [|x l IH]; simpl; [contradiction|].
  intros Hnd Hin. inversion Hnd as [|? ? Hx Hl]; subst.
  destruct (x =? v) eqn:E.
  - apply Nat.eqb_eq in E. subst x. simpl. now rewrite delete_value_notin.
  - apply Nat.eqb_neq in E. simpl. destruct Hin as [-> | Hin]; [contradiction|].
    rewrite perm_swap. constructor. now apply IH.
Qed.

Lemma argwhere_first_app l1 l2 v :
  ~ In v l1 ->
  argwhere_first (l1 ++ v :: l2) v = Ok (length l1).
Proof.
  induction l1 as [|x l1 IH]; simpl; intros H.
  - now rewrite Nat.eqb_refl.
  - destruct (x =? v) eqn:E.
    + apply Nat.eqb_eq in E. subst. exfalso. apply H. now left.
    + rewrite IH; [reflexivity|]. intros Hin. apply H. now right.
Qed.

Lemma argwhere_first_nth l v : forall p,
  argwhere_first l v = Ok p -> nth_error l p = Some v.
Proof.
  induction l as [|x l IH]; simpl; intros p; [discriminate|].
  destruct (x =? v) eqn:E.
  - apply Nat.eqb_eq in E. intros [= <-]. simpl. now subst.
  - destruct (argwhere_first l v) as [q|e]; simpl; [|discriminate].
    intros [= <-]. simpl. now apply IH.
Qed.

Lemma in_split_first (l : list nat) v :
  In v l -> exists a b, l = a ++ v :: b /\ ~ In v a.
Proof.
  induction l as [|x l IH]; simpl; [contradiction|]. intros Hin.
  destruct (Nat.eq_dec x v) as [-> | Hne].
  - exists [], l. auto.
  - destruct Hin as [-> | Hin]; [contradiction|].
    destruct (IH Hin) as (a & b & -> & Ha).
    exists (x :: a), b. split; [reflexivity|]. simpl. tauto.
Qed.

Lemma argwhere_first_In l v :
  In v l -> exists p, argwhere_first l v = Ok p /\ p < length l.
Proof.
  intros Hin. destruct (in_split_first _ _ Hin) as (a & b & -> & Ha).
  exists (length a). split; [now apply argwhere_first_app|].
  rewrite length_app. simpl. lia.
Qed.

Lemma argwhere_first_NoDup l v p :
  NoDup l -> nth_error l p = Some v -> argwhere_first l v = Ok p.
Proof.
  intros Hnd Hp. destruct (nth_error_split _ _ Hp) as (a & b & -> & <-).
  apply argwhere_first_app. apply NoDup_remove_2 in Hnd.
  intros Hin. apply Hnd, in_or_app. now left.
Qed.

Lemma insert_app l1 l2 v :
  insert (l1 ++ l2) (length l1) v = Ok (l1 ++ v :: l2).
Proof.
  unfold insert. rewrite length_app.
  replace (length l1 <=? length l1 + length l2) with true
    by (symmetry; apply Nat.leb_le; lia).
  rewrite firstn_app, skipn_app, firstn_all, skipn_all, Nat.sub_diag. simpl.
  now rewrite app_nil_r.
Qed.

Lemma infix_delete blk l v :
  infix blk l -> ~ In v blk -> infix blk (delete_value l v).
Proof.
  intros (pre & post & ->) Hv.
  exists (delete_value pre v), (delete_value post v).
  now rewrite !delete_value_app, (delete_value_notin blk v Hv).
Qed.


(** Inserting right after an element that is outside [blk] leaves [blk]
    in one piece. *)
Lemma infix_insert_after blk l1 u l2 v :
  ~ In u blk ->
  infix blk ((l1 ++ [u]) ++ l2) ->
  infix blk ((l1 ++ [u]) ++ v :: l2).
Proof.
  intros Hu (pre & post & E).
  apply app_eq_app in E. destruct E as (m & [[E1 E2] | [E1 E2]]).
  - apply app_eq_app in E2. destruct E2 as (m2 & [[E3 E4] | [E3 E4]]).
    + destruct m as [|x m _] using rev_ind.
      * simpl in *. subst. exists ((l1 ++ [u]) ++ [v]), post.
        rewrite E1, <- !app_assoc. reflexivity.
      * exfalso. rewrite app_assoc in E1. apply app_inj_tail in E1.
        destruct E1 as [_ ->]. apply Hu. rewrite E3.
        apply in_or_app. left. apply in_or_app. right. now left.
    + subst. exists pre, (m2 ++ v :: l2). rewrite E1, <- !app_assoc. reflexivity.
  - subst. exists ((l1 ++ [u]) ++ v :: m), post. rewrite <- !app_assoc. reflexivity.
Qed.

Lemma NoDup_concat_block (done : list (list nat)) blk rest :
  NoDup (concat (done ++ blk :: rest)) ->
  NoDup blk /\ (forall b x, In b done -> In x b -> ~ In x blk).
Proof.
  rewrite concat_app. cbn [concat]. intros H. split.
  - apply NoDup_app_remove_l in H. now apply NoDup_app_remove_r in H.
  - intros b x Hb Hx Hblk.
    assert (Hc : In x (concat done)) by (apply in_concat; eauto).
    apply in_split in Hc. destruct Hc as (l1 & l2 & E). rewrite E in H.
    rewrite <- app_assoc in H. cbn [app] in H. apply NoDup_remove_2 in H.
    apply H. apply in_or_app. right. apply in_or_app. right.
    apply in_or_app. now left.
Qed.

(** *** One relocation of a sub-variable index *)

Lemma relocate_step order a first cur' b v :
  order = a ++ (first :: cur') ++ b ->
  ~ In first a ->
  ~ In v (first :: cur') ->
  exists a' b',
    delete_value order v = a' ++ (first :: cur') ++ b' /\
    ~ In first a' /\
    argwhere_first (delete_value order v) first = Ok (length a') /\
    insert (delete_value order v) (length a' + length (first :: cur')) v =
      Ok (a' ++ ((first :: cur') ++ [v]) ++ b').
Proof.
  intros -> Ha Hv.
  exists (delete_value a v), (delete_value b v).
  assert (E : delete_value (a ++ (first :: cur') ++ b) v =
              delete_value a v ++ (first :: cur') ++ delete_value b v).
  { now rewrite !delete_value_app, (delete_value_notin (first :: cur') v Hv). }
  assert (Ha' : ~ In first (delete_value a v)).
  { rewrite delete_value_In. tauto. }
  rewrite E. repeat split.
  - exact Ha'.
  - cbn [app]. now apply argwhere_first_app.
  - rewrite <- length_app, app_assoc, insert_app, <- !app_assoc. reflexivity.
Qed.

Lemma relocate_subvars_spec cols n first : forall sub_cols idxs j order a cur' b done,
  map_result (index cols) sub_cols = Ok idxs ->
  j = length (first :: cur') ->
  order = a ++ (first :: cur') ++ b ->
  ~ In first a ->
  Permutation (seq 0 n) order ->
  NoDup ((first :: cur') ++ idxs) ->
  (forall i, In i idxs -> i < n) ->
  Forall (fun blk => infix blk order) done ->
  (forall blk x, In blk done -> In x blk -> ~ In x ((first :: cur') ++ idxs)) ->
  exists order',
    relocate_subvars cols first j sub_cols order = Ok order' /\
    Permutation (seq 0 n) order' /\
    infix ((first :: cur') ++ idxs) order' /\
    Forall (fun blk => infix blk order') done.
Proof.
  induction sub_cols as [|sc rest IH];
    intros idxs j order a cur' b done Hidx Hj Ho Ha Hp Hnd Hlt Hdone Hdis.
  - simpl in Hidx. injection Hidx as <-. exists order. simpl.
    rewrite app_nil_r. repeat split; auto. now exists a, b.
  - cbn [map_result] in Hidx.
    destruct (index cols sc) as [v|e] eqn:Ev; [|discriminate]. cbn [bind] in Hidx.
    destruct (map_result (index cols) rest) as [idxs'|e] eqn:Er; [|discriminate].
    cbn [bind] in Hidx. injection Hidx as <-.
    assert (Hv : ~ In v (first :: cur')).
    { apply NoDup_remove_2 in Hnd. intros Hin. apply Hnd, in_or_app. now left. }
    destruct (relocate_step order a first cur' b v Ho Ha Hv) as (a' & b' & Hd & Ha' & Harg & Hins).
    cbn [relocate_subvars]. rewrite Ev. cbn [bind].
    rewrite Harg. cbn [bind]. rewrite Hj, Hins. cbn [bind].
    assert (Hin : In v order).
    { apply (Permutation_in _ Hp), in_seq. specialize (Hlt v (or_introl eq_refl)). lia. }
    assert (Hnd_o : NoDup order) by (eapply Permutation_NoDup; [exact Hp|apply seq_NoDup]).
    destruct (IH idxs' (S (length (first :: cur')))
                (a' ++ ((first :: cur') ++ [v]) ++ b') a' (cur' ++ [v]) b' done)
      as (order' & Hr & Hp' & Hinf & Hdone'); auto.
    + cbn [length]. rewrite length_app. simpl. lia.
    + rewrite Hp, (delete_value_perm order v Hnd_o Hin), Hd.
      rewrite !app_assoc. rewrite <- (app_assoc _ [v] b'). cbn [app].
      apply Permutation_middle.
    + cbn [app] in *. now rewrite <- app_assoc.
    + intros i Hi. apply Hlt. now right.
    + apply Forall_forall. intros blk Hblk.
      rewrite Forall_forall in Hdone. specialize (Hdone blk Hblk).
      apply (infix_delete blk order v) in Hdone.
      * rewrite Hd in Hdone.
        destruct (@exists_last nat (first :: cur')) as (c0 & u & Ec); [discriminate|].
        rewrite Ec in *. rewrite <- !app_assoc. rewrite !app_assoc.
        rewrite <- (app_assoc _ [v] b'). cbn [app].
        rewrite !app_assoc in Hdone.
        apply infix_insert_after; [|exact Hdone].
        intros Hu. apply (Hdis blk u Hblk Hu).
        apply in_or_app. left. apply in_or_app. right. now left.
      * intros Hvb. apply (Hdis blk v Hblk Hvb). apply in_or_app. right. now left.
    + intros blk x Hblk Hx. specialize (Hdis blk x Hblk Hx).
      cbn [app] in *. now rewrite <- app_assoc.
    + exists order'. repeat split; auto.
      cbn [app] in *. now rewrite <- app_assoc in Hinf.
Qed.

(** *** The correction for one factorized column, and for all of them *)

Lemma correct_column_spec cols n sub_cols first idxs order done :
  map_result (index cols) sub_cols = Ok (first :: idxs) ->
  Permutation (seq 0 n) order ->
  NoDup (first :: idxs) ->
  (forall i, In i (first :: idxs) -> i < n) ->
  Forall (fun blk => infix blk order) done ->
  (forall blk x, In blk done -> In x blk -> ~ In x (first :: idxs)) ->
  exists order',
    correct_column cols sub_cols order = Ok order' /\
    Permutation (seq 0 n) order' /\
    infix (first :: idxs) order' /\
    Forall (fun blk => infix blk order') done.
Proof.
  intros Hidx Hp Hnd Hlt Hdone Hdis.
  destruct sub_cols as [|s0 rest]; [discriminate|].
  cbn [map_result] in Hidx.
  destruct (index cols s0) as [f|e] eqn:E0; [|discriminate]. cbn [bind] in Hidx.
  destruct (map_result (index cols) rest) as [idxs'|e] eqn:Er; [|discriminate].
  cbn [bind] in Hidx. injection Hidx as -> ->.
  assert (Hin : In first order).
  { apply (Permutation_in _ Hp), in_seq. specialize (Hlt first (or_introl eq_refl)). lia. }
  destruct (in_split_first order first Hin) as (a & b & Ho & Ha).
  unfold correct_column. rewrite E0. cbn [bind].
  apply (relocate_subvars_spec cols n first rest idxs 1 order a [] b done); auto.
  intros i Hi. apply Hlt. now right.
Qed.

Lemma correct_order_spec cols n : forall mapping blocks done order,
  blocks_of cols mapping blocks ->
  Permutation (seq 0 n) order ->
  NoDup (concat (done ++ blocks)) ->
  (forall blk i, In blk blocks -> In i blk -> i < n) ->
  Forall (fun blk => infix blk order) done ->
  exists order',
    correct_order cols mapping order = Ok order' /\
    Permutation (seq 0 n) order' /\
    Forall (fun blk => infix blk order') (done ++ blocks).
Proof.
  induction mapping as [|[orig sub_cols] rest IH];
    intros blocks done order Hb Hp Hnd Hlt Hdone.
  - inversion Hb; subst. exists order. rewrite app_nil_r. auto.
  - inversion Hb as [|? blk ? blocks' [Hidx Hne] Hrest]; subst. cbn [snd] in Hidx.
    destruct blk as [|first idxs]; [congruence|].
    destruct (NoDup_concat_block done (first :: idxs) blocks' Hnd) as [Hndb Hdis].
    assert (Hlt1 : forall i, In i (first :: idxs) -> i < n).
    { intros i Hi. apply (Hlt (first :: idxs)); [now left|exact Hi]. }
    destruct (correct_column_spec cols n sub_cols first idxs order done
                Hidx Hp Hndb Hlt1 Hdone Hdis)
      as (order1 & Hc & Hp1 & Hinf & Hdone1).
    assert (Hnd' : NoDup (concat ((done ++ [first :: idxs]) ++ blocks')))
      by now rewrite <- app_assoc.
    assert (Hlt' : forall blk i, In blk blocks' -> In i blk -> i < n).
    { intros blk i Hblk. apply Hlt. now right. }
    assert (Hdone' : Forall (fun blk => infix blk order1) (done ++ [first :: idxs])).
    { apply Forall_app. split; [exact Hdone1|]. constructor; [exact Hinf|constructor]. }
    destruct (IH blocks' (done ++ [first :: idxs]) order1 Hrest Hp1 Hnd' Hlt' Hdone')
      as (order' & Hr & Hp' & Hall).
    exists order'. cbn [correct_order]. rewrite Hc. cbn [bind].
    rewrite <- app_assoc in Hall. auto.
Qed.

(** *** Positions of columns *)

Lemma Column_eqb_eq c d : Column_eqb c d = true <-> c = d.
Proof.
  destruct c as [n1 s1], d as [n2 s2]. unfold Column_eqb. cbn [name distribution_size].
  rewrite andb_true_iff, String.eqb_eq, Nat.eqb_eq. split.
  - intros [-> ->]. reflexivity.
  - intros [= -> ->]. auto.
Qed.

Lemma index_nth cols col : forall i,
  index cols col = Ok i -> nth_error cols i = Some col.
Proof.
  induction cols as [|c rest IH]; cbn [index]; intros i; [discriminate|].
  destruct (Column_eqb c col) eqn:E.
  - apply Column_eqb_eq in E. intros [= <-]. now subst.
  - destruct (index rest col) as [k|e]; cbn [bind]; [|discriminate].
    intros [= <-]. cbn [nth_error]. now apply IH.
Qed.

Lemma index_In cols col :
  In col cols -> exists i, index cols col = Ok i.
Proof.
  induction cols as [|c rest IH]; cbn [index In]; [contradiction|]. intros Hin.
  destruct (Column_eqb c col) eqn:E; [now exists 0|].
  destruct Hin as [-> | Hin].
  - assert (H : Column_eqb col col = true) by now apply Column_eqb_eq. congruence.
  - destruct (IH Hin) as [i ->]. now exists (S i).
Qed.

Lemma index_lt cols col i : index cols col = Ok i -> i < length cols.
Proof.
  intros H. apply index_nth in H. apply nth_error_Some. congruence.
Qed.

(** The indices of a list of columns that all belong to [cols]. *)
Lemma map_index cols subs :
  incl subs cols ->
  exists idxs,
    map_result (index cols) subs = Ok idxs /\
    Forall2 (fun sub i => index cols sub = Ok i) subs idxs.
Proof.
  induction subs as [|s rest IH]; intros Hincl.
  - exists []. split; [reflexivity|constructor].
  - destruct (index_In cols s) as [i Hi]; [apply Hincl; now left|].
    destruct IH as (idxs & Hm & Hf); [intros x Hx; apply Hincl; now right|].
    exists (i :: idxs). cbn [map_result]. rewrite Hi, Hm. split; [reflexivity|].
    now constructor.
Qed.

Lemma Forall2_concat {A B : Type} (R : A -> B -> Prop) LL LL' :
  Forall2 (Forall2 R) LL LL' -> Forall2 R (concat LL) (concat LL').
Proof.
  induction 1; cbn [concat]; [constructor|]. now apply Forall2_app.
Qed.

Lemma Forall2_In_r {A B : Type} (R : A -> B -> Prop) l l' y :
  Forall2 R l l' -> In y l' -> exists x, In x l /\ R x y.
Proof.
  induction 1 as [|x y' l l' Hxy _ IH]; cbn [In]; [contradiction|].
  intros [<- | Hin]; [eauto|]. destruct (IH Hin) as (x' & Hx' & HR). eauto.
Qed.

Lemma Forall2_NoDup {A B : Type} (R : A -> B -> Prop) l l' :
  (forall x x' y, R x y -> R x' y -> x = x') ->
  Forall2 R l l' -> NoDup l -> NoDup l'.
Proof.
  intros Hinj. induction 1 as [|x y l l' Hxy Hl IH]; intros Hnd; [constructor|].
  inversion Hnd as [|? ? Hx Hnd']; subst. constructor; [|now apply IH].
  intros Hy. destruct (Forall2_In_r R l l' y Hl Hy) as (x' & Hx' & HR).
  rewrite (Hinj x x' y Hxy HR) in Hx. contradiction.
Qed.

Lemma blocks_exist cols mapping :
  well_formed_factor cols mapping ->
  exists blocks,
    blocks_of cols mapping blocks /\
    NoDup (concat blocks) /\
    (forall blk i, In blk blocks -> In i blk -> i < length cols) /\
    Forall2 (fun m blk => Forall2 (fun sub i => index cols sub = Ok i) (snd m) blk)
            mapping blocks.
Proof.
  intros [Hwf Hnd].
  assert (H : exists blocks,
             blocks_of cols mapping blocks /\
             Forall2 (fun m blk => Forall2 (fun sub i => index cols sub = Ok i) (snd m) blk)
                     mapping blocks).
  { clear Hnd. induction Hwf as [|m rest [Hne Hincl] _ (blocks & Hb & Hf)].
    - exists []. split; constructor.
    - destruct (map_index cols (snd m) Hincl) as (idxs & Hm & Hf1).
      exists (idxs :: blocks). split; constructor; auto. split; [exact Hm|].
      intros ->. inversion Hf1; subst. congruence. }
  destruct H as (blocks & Hb & Hf). exists blocks. repeat split; auto.
  - apply (Forall2_NoDup (fun sub i => index cols sub = Ok i)
             (concat (map snd mapping)) (concat blocks)); [| |exact Hnd].
    + intros x x' y Hx Hx'. apply index_nth in Hx, Hx'. congruence.
    + apply Forall2_concat. clear -Hf. induction Hf; cbn [map]; constructor; auto.
  - intros blk i Hblk Hi.
    destruct (Forall2_In_r _ mapping blocks blk Hf Hblk) as (m & _ & Hm).
    destruct (Forall2_In_r _ (snd m) blk i Hm Hi) as (sub & _ & Hs).
    now apply index_lt in Hs.
Qed.

(** *** The inverse of an ordering *)

Lemma InvertOrder_nth order n c :
  Permutation (seq 0 n) order -> c < n ->
  exists rank,
    argwhere_first order c = Ok rank /\ rank < n /\
    nth_error (InvertOrder order) c = Some rank.
Proof.
  intros Hp Hc.
  assert (Hlen : length order = n).
  { apply Permutation_length in Hp. now rewrite length_seq in Hp. }
  assert (Hin : In c order) by (apply (Permutation_in _ Hp), in_seq; lia).
  destruct (argwhere_first_In order c Hin) as (rank & Hr & Hlt).
  exists rank. split; [exact Hr|]. split; [lia|].
  unfold InvertOrder. rewrite Hlen, nth_error_map, nth_error_seq.
  replace (c <? n) with true by (symmetry; now apply Nat.ltb_lt).
  cbn [option_map Nat.add]. now rewrite Hr.
Qed.

Lemma InvertOrder_perm order n :
  Permutation (seq 0 n) order -> Permutation (seq 0 n) (InvertOrder order).
Proof.
  intros Hp.
  assert (Hlen : length order = n).
  { apply Permutation_length in Hp. now rewrite length_seq in Hp. }
  symmetry. apply NoDup_Permutation_bis.
  - unfold InvertOrder. rewrite Hlen.
    apply (Forall2_NoDup (fun c rank => c < n /\ argwhere_first order c = Ok rank)
             (seq 0 n)); [| |apply seq_NoDup].
    + intros x x' y [_ Hx] [_ Hx']. apply argwhere_first_nth in Hx, Hx'. congruence.
    + assert (H : forall l, (forall c, In c l -> c < n) ->
                  Forall2 (fun c rank => c < n /\ argwhere_first order c = Ok rank) l
                    (map (fun col => match argwhere_first order col with
                                     | Ok rank => rank
                                     | Raise _ => 0
                                     end) l)).
      { induction l as [|c l IH]; intros Hl; cbn [map]; constructor.
        - destruct (InvertOrder_nth order n c Hp (Hl c (or_introl eq_refl)))
            as (rank & Hr & _). rewrite Hr. split; [|reflexivity].
          apply Hl. now left.
        - apply IH. intros c' Hc'. apply Hl. now right. }
      apply H. intros c Hc. apply in_seq in Hc. lia.
  - unfold InvertOrder. rewrite length_map, !length_seq. lia.
  - intros r Hr. unfold InvertOrder in Hr. apply in_map_iff in Hr.
    destruct Hr as (c & <- & Hc). apply in_seq in Hc. rewrite Hlen in Hc.
    destruct (InvertOrder_nth order n c Hp) as (rank & Hk & Hlt & _); [lia|].
    rewrite Hk. apply in_seq. lia.
Qed.

(** *** Brackets of columns *)

Lemma prefix_indicator_virtual s : prefix "__in_" s = true -> prefix "__" s = true.
Proof.
  destruct s as [|b1 [|b2 s]]; cbn [prefix]; try discriminate.
  - auto.
  - destruct (ascii_dec "_" b1); [|discriminate].
    destruct (ascii_dec "_" b2); [|discriminate].
    intros _. now destruct s.
Qed.

Lemma bracket_sizes (cols : list Column) :
  length (filter (fun c => negb (prefix "__" (name c))) cols) +
  length (filter (fun c => prefix "__in_" (name c)) cols) <= length cols.
Proof.
  induction cols as [|c cols IH]; cbn [filter length]; [lia|].
  destruct (prefix "__in_" (name c)) eqn:E.
  - rewrite (prefix_indicator_virtual _ E). cbn [negb length]. lia.
  - destruct (negb (prefix "__" (name c))); cbn [length]; lia.
Qed.

Lemma map_result_Forall2 {A B : Type} (f : A -> result B) (P : A -> B -> Prop) l :
  (forall x, In x l -> exists y, f x = Ok y /\ P x y) ->
  exists ys, map_result f l = Ok ys /\ Forall2 P l ys.
Proof.
  induction l as [|x l IH]; intros H.
  - exists []. split; [reflexivity|constructor].
  - destruct (H x (or_introl eq_refl)) as (y & Hy & HP).
    destruct IH as (ys & Hys & HF); [intros x' Hx'; apply H; now right|].
    exists (y :: ys). cbn [map_result]. rewrite Hy, Hys. split; [reflexivity|].
    now constructor.
Qed.

Lemma Forall2_nth_r {A B : Type} (P : A -> B -> Prop) l l' :
  Forall2 P l l' ->
  forall i y, nth_error l' i = Some y -> exists x, nth_error l i = Some x /\ P x y.
Proof.
  induction 1 as [|x y' l l' Hxy _ IH]; intros [|i] y; cbn [nth_error]; try discriminate.
  - intros [= <-]. eauto.
  - apply IH.
Qed.

Lemma Forall2_nth_l {A B : Type} (P : A -> B -> Prop) l l' :
  Forall2 P l l' ->
  forall i x, nth_error l i = Some x -> exists y, nth_error l' i = Some y /\ P x y.
Proof.
  induction 1 as [|x' y l l' Hxy _ IH]; intros [|i] x; cbn [nth_error]; try discriminate.
  - intros [= <-]. eauto.
  - apply IH.
Qed.

Lemma Forall2_In_l {A B : Type} (P : A -> B -> Prop) l l' x :
  Forall2 P l l' -> In x l -> exists y, In y l' /\ P x y.
Proof.
  induction 1 as [|x' y l l' Hxy _ IH]; cbn [In]; [contradiction|].
  intros [<- | Hin]; [eauto|]. destruct (IH Hin) as (y' & Hy' & HP). eauto.
Qed.

Lemma infix_consecutive cols subs blk order :
  Permutation (seq 0 (length cols)) order ->
  Forall2 (fun sub i => index cols sub = Ok i) subs blk ->
  infix blk order ->
  consecutive_ascending cols subs order.
Proof.
  intros Hp Hf (pre & post & Ho). exists (length pre). intros j sub Hj.
  destruct (Forall2_nth_l _ subs blk Hf j sub Hj) as (c & Hc & Hi).
  exists c. split; [exact Hi|].
  assert (Hnd : NoDup order) by (eapply Permutation_NoDup; [exact Hp|apply seq_NoDup]).
  assert (Hn : nth_error order (length pre + j) = Some c).
  { rewrite Ho, nth_error_app2 by lia.
    replace (length pre + j - length pre) with j by lia.
    rewrite nth_error_app1; [exact Hc|]. apply nth_error_Some. congruence. }
  assert (Ha : argwhere_first order c = Ok (length pre + j))
    by now apply argwhere_first_NoDup.
  split; [exact Ha|].
  destruct (InvertOrder_nth order (length cols) c Hp (index_lt cols sub c Hi))
    as (rank & Hr & _ & Hinv).
  congruence.
Qed.

(** *** The builder *)

Section BuilderFacts.

Variable rng_state : Type.
Variable RandomState : nat -> rng_state.
Variable permutation : rng_state -> list nat -> list nat * rng_state.

(** What the builder relies on: [permutation] returns a rearrangement of
    its argument. *)
Hypothesis permutation_law :
  forall rng l, Permutation l (fst (permutation rng l)).

Lemma content_only_order_spec cols at_front rng :
  exists order,
    content_only_order permutation cols at_front rng = Ok order /\
    Permutation (seq 0 (length cols)) order.
Proof.
  unfold content_only_order.
  set (nc := length (filter (fun c => negb (prefix "__" (name c))) cols)).
  set (ni := length (filter (fun c => prefix "__in_" (name c)) cols)).
  pose proof (bracket_sizes cols) as Hsz. fold nc ni in Hsz.
  pose proof (permutation_law rng (arange 0 nc)) as H1.
  destruct (permutation rng (arange 0 nc)) as [content rng1]. cbn [fst] in H1.
  pose proof (permutation_law rng1 (arange nc (nc + ni))) as H2.
  destruct (permutation rng1 (arange nc (nc + ni))) as [inds rng2]. cbn [fst] in H2.
  pose proof (permutation_law rng2 (arange (nc + ni) (length cols))) as H3.
  destruct (permutation rng2 (arange (nc + ni) (length cols))) as [fanouts rng3].
  cbn [fst] in H3.
  unfold arange in *. rewrite Nat.sub_0_r in H1.
  replace (nc + ni - nc) with ni in H2 by lia.
  assert (Hseq : seq 0 (length cols) =
                 seq 0 nc ++ seq nc ni ++ seq (nc + ni) (length cols - (nc + ni))).
  { rewrite <- seq_app. replace (seq nc (ni + (length cols - (nc + ni))))
      with (seq (0 + nc) (ni + (length cols - (nc + ni)))) by reflexivity.
    rewrite <- seq_app. f_equal. lia. }
  assert (Hp : Permutation (seq 0 (length cols))
                 (if at_front then inds ++ content ++ fanouts
                  else content ++ inds ++ fanouts)).
  { rewrite Hseq, H1, H2, H3. destruct at_front; [|reflexivity].
    apply Permutation_app_swap_app. }
  eexists. split; [|exact Hp].
  assert (Hu : unique_count (if at_front then inds ++ content ++ fanouts
                             else content ++ inds ++ fanouts) = length cols).
  { unfold unique_count. rewrite nodup_fixed_point.
    - apply Permutation_length in Hp. now rewrite length_seq in Hp.
    - eapply Permutation_NoDup; [exact Hp|apply seq_NoDup]. }
  rewrite Hu, Nat.eqb_refl. reflexivity.
Qed.

Lemma special_order_spec cols content_only at_front i :
  exists order,
    special_order RandomState permutation cols content_only at_front i = Ok order /\
    Permutation (seq 0 (length cols)) order.
Proof.
  unfold special_order. destruct content_only.
  - apply content_only_order_spec.
  - eexists. split; [reflexivity|]. unfold arange. rewrite Nat.sub_0_r.
    apply permutation_law.
Qed.

Lemma corrected_order_spec cols factor_table content_only at_front i raw :
  (forall t, factor_table = Some t -> well_formed_factor cols (fact_col_mapping t)) ->
  special_order RandomState permutation cols content_only at_front i = Ok raw ->
  Permutation (seq 0 (length cols)) raw ->
  exists order,
    match factor_table with
    | Some t => correct_order cols (fact_col_mapping t) raw
    | None => Ok raw
    end = Ok order /\
    built_order rng_state RandomState permutation cols factor_table
                content_only at_front i order.
Proof.
  intros Hwf Hraw Hp. unfold built_order.
  destruct factor_table as [t|].
  - destruct (blocks_exist cols (fact_col_mapping t) (Hwf t eq_refl))
      as (blocks & Hb & Hnd & Hlt & Hf).
    destruct (correct_order_spec cols (length cols) (fact_col_mapping t) blocks [] raw
                Hb Hp Hnd Hlt (Forall_nil _)) as (order & Hc & Hpo & Hinf).
    exists order. split; [exact Hc|]. split; [exact Hpo|].
    split; [now apply InvertOrder_perm|]. split.
    + exists raw. split; [|exact Hc]. unfold special_order in Hraw.
      destruct content_only; exact Hraw.
    + intros t' orig subs [= <-] Hin.
      destruct (Forall2_In_l _ _ _ (orig, subs) Hf Hin) as (blk & Hblk & Hidx).
      cbn [snd] in Hidx. cbn [app] in Hinf. rewrite Forall_forall in Hinf.
      now apply (infix_consecutive cols subs blk order Hpo Hidx), Hinf.
  - exists raw. split; [reflexivity|]. split; [exact Hp|].
    split; [now apply InvertOrder_perm|]. split.
    + exists raw. split; [|reflexivity]. unfold special_order in Hraw.
      destruct content_only; exact Hraw.
    + discriminate.
Qed.

Lemma corrected_orders_spec cols factor_table content_only at_front idxs raws :
  (forall t, factor_table = Some t -> well_formed_factor cols (fact_col_mapping t)) ->
  Forall2 (fun i raw =>
             special_order RandomState permutation cols content_only at_front i = Ok raw /\
             Permutation (seq 0 (length cols)) raw) idxs raws ->
  exists corrected,
    match factor_table with
    | Some t => map_result (correct_order cols (fact_col_mapping t)) raws
    | None => Ok raws
    end = Ok corrected /\
    Forall2 (built_order rng_state RandomState permutation cols factor_table
                         content_only at_front) idxs corrected.
Proof.
  intros Hwf. induction 1 as [|i raw idxs raws [Hraw Hp] _ (corrected & Hc & Hf)].
  - exists []. split; [destruct factor_table; reflexivity|constructor].
  - destruct (corrected_order_spec cols factor_table content_only at_front i raw
                Hwf Hraw Hp) as (order & Ho & Hb).
    exists (order :: corrected). split; [|now constructor].
    destruct factor_table as [t|].
    + cbn [map_result]. rewrite Ho, Hc. reflexivity.
    + injection Ho as <-. injection Hc as <-. reflexivity.
Qed.

(** C5.  With an ensemble of [k > 0] orderings over the training columns
    (and a well-formed factor table when there is one), [MakeMade]
    succeeds and installs [k] orderings.  Before the inversion each is a
    permutation of [0 .. n-1]; so is its inverse; ordering [i] is drawn
    from the generator seeded with [i + 1]; and after the correction the
    sub-variable columns of every factorized column occupy consecutive
    positions in ascending sub-variable order. *)
Theorem MakeMade_orderings (cols : list Column) (factor_table : option FactorTable)
    (fixed_ordering : option (list nat)) (k : nat)
    (content_only at_front inv_order : bool) :
  0 < k ->
  (forall t, factor_table = Some t -> well_formed_factor cols (fact_col_mapping t)) ->
  exists corrected,
    MakeMade RandomState permutation cols factor_table fixed_ordering k
             content_only at_front inv_order =
      Ok {| num_masks := Nat.max 1 k;
            natural_ordering := true;
            made_fixed_ordering := fixed_ordering;
            model_orderings :=
              Some (if inv_order then map InvertOrder corrected else corrected) |} /\
    length corrected = k /\
    forall i order,
      nth_error corrected i = Some order ->
      built_order rng_state RandomState permutation cols factor_table
                  content_only at_front i order.
Proof.
  intros Hk Hwf.
  destruct (map_result_Forall2
              (special_order RandomState permutation cols content_only at_front)
              (fun i raw =>
                 special_order RandomState permutation cols content_only at_front i = Ok raw /\
                 Permutation (seq 0 (length cols)) raw)
              (seq 0 k)) as (raws & Hraws & Hf1).
  { intros i _. destruct (special_order_spec cols content_only at_front i) as (o & Ho & Hp).
    exists o. auto. }
  destruct (corrected_orders_spec cols factor_table content_only at_front
              (seq 0 k) raws Hwf Hf1) as (corrected & Hc & Hf2).
  exists corrected. split; [|split].
  - unfold MakeMade. apply Nat.ltb_lt in Hk. rewrite Hk, Hraws. cbn [bind].
    rewrite Hc. reflexivity.
  - apply Forall2_length in Hf2. now rewrite length_seq in Hf2.
  - intros i order Hn.
    destruct (Forall2_nth_r _ _ _ Hf2 i order Hn) as (x & Hx & Hb).
    rewrite nth_error_seq in Hx. destruct (i <? k); [|discriminate].
    injection Hx as <-. exact Hb.
Qed.

(** C6, as the code has it.  With an ensemble size of 0 the builder
    installs no ordering and hands the fixed ordering on unchanged.  With
    an ensemble size of 1 it draws one ordering from the generator seeded
    with 1, a permutation of the column indices, and installs it as the
    single ordering of the model, after the correction for sub-variables
    when there is a factor table and inverted on request; the fixed
    ordering is handed on unchanged; an exception of the correction leaves
    the builder.  With no factor table or a well-formed one the builder
    returns, and the ordering it installs is (before the inversion) a
    permutation with the sub-variables of every factorized column in
    consecutive ascending positions. *)
Theorem MakeMade_small_ensembles (cols : list Column) (factor_table : option FactorTable)
    (fixed_ordering : option (list nat)) (content_only at_front inv_order : bool) :
  MakeMade RandomState permutation cols factor_table fixed_ordering 0
           content_only at_front inv_order =
    Ok {| num_masks := 1; natural_ordering := true;
          made_fixed_ordering := fixed_ordering; model_orderings := None |} /\
  exists raw,
    (if content_only
     then content_only_order permutation cols at_front (RandomState 1)
     else Ok (fst (permutation (RandomState 1) (arange 0 (length cols))))) = Ok raw /\
    Permutation (seq 0 (length cols)) raw /\
    MakeMade RandomState permutation cols factor_table fixed_ordering 1
             content_only at_front inv_order =
      (order <- match factor_table with
                | Some t => correct_order cols (fact_col_mapping t) raw
                | None => Ok raw
                end ;;
       Ok {| num_masks := 1; natural_ordering := true;
             made_fixed_ordering := fixed_ordering;
             model_orderings :=
               Some [if inv_order then InvertOrder order else order] |})%result /\
    ((forall t, factor_table = Some t -> well_formed_factor cols (fact_col_mapping t)) ->
     exists order,
       match factor_table with
       | Some t => correct_order cols (fact_col_mapping t) raw
       | None => Ok raw
       end = Ok order /\
       built_order rng_state RandomState permutation cols factor_table
                   content_only at_front 0 order).
Proof.
  split; [reflexivity|].
  destruct (special_order_spec cols content_only at_front 0) as (raw & Hraw & Hp).
  exists raw. split; [|split; [exact Hp|split]].
  - unfold special_order in Hraw. destruct content_only; exact Hraw.
  - unfold MakeMade. cbn [Nat.ltb Nat.leb seq map_result]. rewrite Hraw. cbn [bind].
    destruct factor_table as [t|]; cbn [map_result bind].
    + destruct (correct_order cols (fact_col_mapping t) raw) as [order|e];
        cbn [bind]; [|reflexivity].
      destruct inv_order; reflexivity.
    + destruct inv_order; reflexivity.
  - intros Hwf.
    exact (corrected_order_spec cols factor_table content_only at_front 0 raw
             Hwf Hraw Hp).
Qed.

End BuilderFacts.

(** *** A generator to run the builder with *)

Lemma rotating_law rng l : Permutation l (fst (rotating_permutation rng l)).
Proof.
  cbn [rotating_permutation fst]. unfold rotate.
  rewrite <- (firstn_skipn (rng mod length l) l) at 1.
  apply Permutation_app_comm.
Qed.

Lemma factorized_table_well_formed :
  forall t, Some factorized_table = Some t ->
            well_formed_factor factorized_cols (fact_col_mapping t).
Proof.
  intros t [= <-]. split.
  - constructor; [|constructor]. split; [discriminate|].
    intros c [<- | [<- | []]]; cbn; auto.
  - cbn. constructor; [|constructor; [|constructor]]; cbn; intuition discriminate.
Qed.

(** Two orderings over the factorized table. *)
Lemma MakeMade_orderings_witness :
  (exists corrected,
     MakeMade rotating_RandomState rotating_permutation factorized_cols
              (Some factorized_table) None 2 true true true =
       Ok {| num_masks := 2; natural_ordering := true; made_fixed_ordering := None;
             model_orderings := Some (map InvertOrder corrected) |} /\
     length corrected = 2 /\
     forall i order,
       nth_error corrected i = Some order ->
       built_order nat rotating_RandomState rotating_permutation factorized_cols
                   (Some factorized_table) true true i order) /\
  MakeMade rotating_RandomState rotating_permutation factorized_cols
           (Some factorized_table) None 2 true false false =
    Ok {| num_masks := 2; natural_ordering := true; made_fixed_ordering := None;
          model_orderings := Some [[1; 0; 2; 3; 4]; [0; 2; 1; 3; 4]] |}.
Proof.
  split; [|reflexivity].
  exact (MakeMade_orderings nat rotating_RandomState rotating_permutation rotating_law
           factorized_cols (Some factorized_table) None 2 true true true
           (Nat.lt_0_succ 1) factorized_table_well_formed).
Defined.

(** C6 fails on the code: with an ensemble size of 1 the ordering the
    builder installs is what the generator seeded with 1 returns for the
    column indices, whatever the generator and next to the fixed ordering
    handed in; with a generator that rotates its argument it is not the
    natural ordering. *)
Lemma single_order_is_drawn :
  (forall (rng_state : Type) (RandomState : nat -> rng_state)
          (permutation : rng_state -> list nat -> list nat * rng_state),
     MakeMade RandomState permutation three_cols None (Some [0; 1; 2]) 1
              false true false =
       Ok {| num_masks := 1; natural_ordering := true;
             made_fixed_ordering := Some [0; 1; 2];
             model_orderings := Some [fst (permutation (RandomState 1) [0; 1; 2])] |}) /\
  MakeMade rotating_RandomState rotating_permutation three_cols None (Some [0; 1; 2]) 1
           false true false =
    Ok {| num_masks := 1; natural_ordering := true;
          made_fixed_ordering := Some [0; 1; 2];
          model_orderings := Some [[1; 2; 0]] |} /\
  [1; 2; 0] <> [0; 1; 2].
Proof. split; [reflexivity|]. split; [reflexivity|discriminate]. Qed.

(** A single ordering over the factorized table: the draw for seed 1 is
    corrected before it is installed. *)
Lemma MakeMade_small_ensembles_witness :
  MakeMade rotating_RandomState rotating_permutation factorized_cols
           (Some factorized_table) None 0 false true false =
    Ok {| num_masks := 1; natural_ordering := true;
          made_fixed_ordering := None; model_orderings := None |} /\
  fst (rotating_permutation (rotating_RandomState 1) (arange 0 5)) = [1; 2; 3; 4; 0] /\
  exists order,
    MakeMade rotating_RandomState rotating_permutation factorized_cols
             (Some factorized_table) None 1 false true false =
      Ok {| num_masks := 1; natural_ordering := true;
            made_fixed_ordering := None; model_orderings := Some [order] |} /\
    built_order nat rotating_RandomState rotating_permutation factorized_cols
                (Some factorized_table) false true 0 order /\
    order = [1; 3; 4; 0; 2].
Proof.
  destruct (MakeMade_small_ensembles nat rotating_RandomState rotating_permutation
              rotating_law factorized_cols (Some factorized_table) None
              false true false) as (H0 & raw & Hraw & _ & H1 & Hwf).
  split; [exact H0|]. split; [reflexivity|].
  destruct (Hwf factorized_table_well_formed) as (order & Ho & Hb).
  exists order. split; [|split; [exact Hb|]].
  - rewrite H1, Ho. reflexivity.
  - injection Hraw as <-. vm_compute in Ho. now injection Ho as <-.
Defined.

(** * Further properties *)

(** ** The error metric, continued *)

Section MetricBounds.

Import Metric.
Local Open Scope Q_scope.

Lemma ratio_ge_one (a b : Q) : 0 < a -> a <= b -> 1 <= b / a.
Proof.
  intros Ha Hab. apply Qle_shift_div_l; [exact Ha|]. now rewrite Qmult_1_l.
Qed.

Lemma ratio_le_one (a b : Q) : 0 < b -> a <= b -> a / b <= 1.
Proof.
  intros Hb Hab. apply Qle_shift_div_r; [exact Hb|]. now rewrite Qmult_1_l.
Qed.

Lemma ErrorMetric_ordered (lo hi : Q) :
  0 < lo -> lo <= hi -> ErrorMetric lo hi == hi / lo /\ ErrorMetric hi lo == hi / lo.
Proof.
  intros Hlo Hle.
  assert (Hhi : 0 < hi) by (eapply Qlt_le_trans; eauto).
  assert (Hn1 : ~ lo == 0) by (intros E; rewrite E in Hlo; now apply Qlt_irrefl in Hlo).
  assert (Hn2 : ~ hi == 0) by (intros E; rewrite E in Hhi; now apply Qlt_irrefl in Hhi).
  assert (H : Qmax (lo / hi) (hi / lo) == hi / lo).
  { apply Q.max_r. eapply Qle_trans; [apply ratio_le_one|apply ratio_ge_one]; auto. }
  split.
  - rewrite (ErrorMetric_nonzero Hn1 Hn2), py_max_spec. exact H.
  - rewrite (ErrorMetric_nonzero Hn2 Hn1), py_max_spec, Q.max_comm. exact H.
Qed.

(** X7.  On positive cardinalities the metric is the q-error: the larger of the
    two values over the smaller one.  It is never below 1, and it is 1 only
    when the estimate is exact. *)
Theorem ErrorMetric_q_error (est_card card : Q) :
  0 < est_card -> 0 < card ->
  ErrorMetric est_card card == Qmax est_card card / Qmin est_card card /\
  1 <= ErrorMetric est_card card /\
  (ErrorMetric est_card card == 1 -> est_card == card).
Proof.
  intros He Ht.
  destruct (Qlt_le_dec card est_card) as [Hlt | Hle].
  - apply Qlt_le_weak in Hlt.
    destruct (ErrorMetric_ordered _ _ Ht Hlt) as [_ H]. rewrite H.
    rewrite (Q.max_l _ _ Hlt), (Q.min_r _ _ Hlt).
    split; [reflexivity|]. split; [now apply ratio_ge_one|].
    intros E. apply Qle_antisym; [|exact Hlt].
    assert (Hm : est_card == 1 * card).
    { rewrite <- E. field. intros Z. rewrite Z in Ht. now apply Qlt_irrefl in Ht. }
    rewrite Hm, Qmult_1_l. apply Qle_refl.
  - destruct (ErrorMetric_ordered _ _ He Hle) as [H _]. rewrite H.
    rewrite (Q.max_r _ _ Hle), (Q.min_l _ _ Hle).
    split; [reflexivity|]. split; [now apply ratio_ge_one|].
    intros E. apply Qle_antisym; [exact Hle|].
    assert (Hm : card == 1 * est_card).
    { rewrite <- E. field. intros Z. rewrite Z in He. now apply Qlt_irrefl in He. }
    rewrite Hm, Qmult_1_l. apply Qle_refl.
Qed.

Lemma ErrorMetric_q_error_witness :
  ErrorMetric 950 1000 == Qmax 950 1000 / Qmin 950 1000 /\ 1 <= ErrorMetric 950 1000.
Proof.
  assert (H0 : 0 < 950) by reflexivity.
  assert (H1 : 0 < 1000) by reflexivity.
  destruct (ErrorMetric_q_error _ _ H0 H1) as (Ha & Hb & _). split; assumption.
Defined.

End MetricBounds.

(** ** The evaluation loop, continued *)

Lemma evaluate_query_files self i q st :
  (files (fst (evaluate_query self i q st)) = files st /\
   err_queries (fst (evaluate_query self i q st)) = err_queries st) \/
  (snd (evaluate_query self i q st) = Raise AssertionError /\
   exists e,
     files (fst (evaluate_query self i q st)) = files st ++ [trace_line self i e] /\
     err_queries (fst (evaluate_query self i q st)) = err_queries st ++ [i]).
Proof.
  unfold evaluate_query.
  destruct (existsb (Nat.eqb i) (not_support_query_idx self)); [now left|].
  destruct (try_Query self i q (estimators st)) as [ests [[]|e]]; [now left|].
  destruct (NotSupportQuery ests 0) as [ests' [[]|e']]; [|now left].
  right. split; [reflexivity|]. now exists e.
Qed.

Lemma evaluate_loop_files self queries : forall i st,
  (files (fst (evaluate_loop self i queries st)) = files st /\
   err_queries (fst (evaluate_loop self i queries st)) = err_queries st) \/
  (snd (evaluate_loop self i queries st) = Raise AssertionError /\
   exists j e,
     files (fst (evaluate_loop self i queries st)) = files st ++ [trace_line self j e] /\
     err_queries (fst (evaluate_loop self i queries st)) = err_queries st ++ [j]).
Proof.
  induction queries as [|q rest IH]; intros i st; cbn [evaluate_loop]; [now left|].
  pose proof (evaluate_query_files self i q st) as H.
  destruct (evaluate_query self i q st) as [st' [[]|e]]; cbn [fst snd] in H.
  - destruct H as [[Hf He] | [H _]]; [|discriminate].
    rewrite <- Hf, <- He. apply IH.
  - destruct H as [H | (-> & e0 & Hf & He)]; [now left|].
    right. split; [reflexivity|]. now exists i, e0.
Qed.

(** X1.  The per-workload file of failed queries is never written: when
    [evaluate] returns, the log files are as it found them and no query was
    recorded as failed; the only line it ever appends is the trace of the
    one query after which it fails its assertion. *)
Theorem evaluate_error_files (self : NeuroCard) (num_queries : nat)
    (given : option (list Estimator)) (disk : list (string * log_line)) :
  let out := evaluate self num_queries given disk in
  ((files (fst out) = disk /\ err_queries (fst out) = []) \/
   (snd out = Raise AssertionError /\
    exists i e,
      files (fst out) = disk ++ [trace_line self i e] /\
      err_queries (fst out) = [i])) /\
  (forall results,
     snd out = Ok results -> files (fst out) = disk /\ err_queries (fst out) = []) /\
  (forall name failed,
     In (name, ErrQueries failed) (files (fst out)) -> In (name, ErrQueries failed) disk).
Proof.
  cbv zeta.
  assert (H : (files (fst (evaluate self num_queries given disk)) = disk /\
               err_queries (fst (evaluate self num_queries given disk)) = []) \/
              (snd (evaluate self num_queries given disk) = Raise AssertionError /\
               exists i e,
                 files (fst (evaluate self num_queries given disk)) =
                   disk ++ [trace_line self i e] /\
                 err_queries (fst (evaluate self num_queries given disk)) = [i])).
  { unfold evaluate.
    destruct (num_queries =? 0); [now left|].
    destruct (match given with
              | Some ests => Ok ests
              | None => _
              end) as [ests|e]; [|now left].
    destruct (loaded_queries self) as [queries|]; [|now left].
    pose proof (evaluate_loop_files self
                  (firstn (Nat.min (length queries) num_queries) queries) 0
                  {| estimators := ests; err_queries := []; files := disk |}) as H.
    destruct (evaluate_loop self 0 _ _) as [st [[]|e]]; cbn [fst snd files err_queries] in H.
    - destruct H as [[Hf He] | [H _]]; [|discriminate].
      rewrite He. cbn [length Nat.ltb Nat.leb fst]. now left.
    - cbn [fst snd]. destruct H as [H | ([= ->] & H)]; [now left|].
      right. split; [reflexivity|exact H]. }
  split; [exact H|]. split.
  - intros results Hr. destruct H as [H | [H _]]; [exact H|congruence].
  - intros name failed Hin.
    destruct H as [[Hf _] | (_ & i & e & Hf & _)]; rewrite Hf in Hin; [exact Hin|].
    apply in_app_or in Hin. destruct Hin as [Hin | [Hin | []]]; [exact Hin|].
    discriminate.
Qed.

(** A workload that is answered leaves the files alone; one whose first
    query raises gets the trace line and nothing else. *)
Lemma evaluate_error_files_witness :
  files (fst (evaluate (trial [steady_sampler]) 2 None [])) = [] /\
  (forall name failed,
     ~ In (name, ErrQueries failed)
          (files (fst (evaluate (trial [flaky_sampler]) 2 None [])))).
Proof.
  split.
  - destruct (snd (evaluate (trial [steady_sampler]) 2 None [])) as [results|e] eqn:E;
      [|discriminate E].
    exact (proj1 (proj1 (proj2 (evaluate_error_files (trial [steady_sampler]) 2 None []))
                    results E)).
  - intros name failed H.
    exact (proj2 (proj2 (evaluate_error_files (trial [flaky_sampler]) 2 None []))
             name failed H).
Defined.

(** X2.  A query listed as not supported stops the evaluation before any
    estimator is asked about it: the estimators hold the entries of the
    earlier queries only, no sentinel entry is written, and no file is
    touched. *)
Theorem flagged_query_aborts (self : NeuroCard) (queries : list query)
    (num_queries : nat) (disk : list (string * log_line)) (i : nat) :
  loaded_queries self = Some queries ->
  truthy_nat (eval_join_sampling self) = false ->
  i < Nat.min (length queries) num_queries ->
  existsb (Nat.eqb i) (not_support_query_idx self) = true ->
  (forall k q, k < i -> nth_error queries k = Some q ->
               supported self (progressive_samplers self) k q) ->
  evaluate self num_queries None disk =
    ({| estimators :=
          map (fun est => extend est (real_entries self est 0 (firstn i queries)))
              (progressive_samplers self);
        err_queries := [];
        files := disk |},
     Raise AssertionError).
Proof.
  intros Hq Hj Hi Hflag Hsup.
  assert (Hn : 0 < num_queries) by lia.
  rewrite (@evaluate_unfold self queries num_queries disk Hq Hn Hj).
  set (N := Nat.min (length queries) num_queries) in *.
  set (ests := progressive_samplers self) in *.
  set (st0 := {| estimators := ests; err_queries := []; files := disk |}).
  assert (Hst0 : estimators st0 = map (fun est => extend est []) ests)
    by (symmetry; apply extend_nil).
  assert (Hsplit : firstn N queries = firstn i queries ++ skipn i (firstn N queries)).
  { rewrite <- (firstn_skipn i (firstn N queries)) at 1. f_equal.
    rewrite firstn_firstn. f_equal. lia. }
  assert (Hlen : length (firstn i queries) = i).
  { rewrite length_firstn. unfold N in Hi. lia. }
  destruct (skipn i (firstn N queries)) as [|q rest] eqn:Hs.
  { exfalso. apply (f_equal (@length query)) in Hs.
    rewrite length_skipn, length_firstn in Hs. simpl in Hs. unfold N in *. lia. }
  rewrite Hsplit, evaluate_loop_app.
  rewrite (@evaluate_loop_supported self ests (firstn i queries) 0 (fun _ => []) st0 Hst0).
  - rewrite Hlen. cbn [evaluate_loop Nat.add]. unfold evaluate_query.
    rewrite Hflag. reflexivity.
  - intros k qk Hk. cbn [Nat.add]. rewrite nth_error_firstn in Hk.
    destruct (k <? i) eqn:E; [|discriminate]. apply Nat.ltb_lt in E. now apply Hsup.
Qed.

(** The second query is flagged: the first is answered and logged, then
    the evaluation stops. *)
Lemma flagged_query_aborts_witness :
  evaluate (trial_with (Some [query_a; query_b]) [1] 2 [steady_sampler]) 2 None [] =
    ({| estimators :=
          map (fun est =>
                 extend est
                   (real_entries (trial_with (Some [query_a; query_b]) [1] 2 [steady_sampler])
                                 est 0 [query_a]))
              [steady_sampler];
        err_queries := [];
        files := [] |},
     Raise AssertionError).
Proof.
  apply (flagged_query_aborts
           (trial_with (Some [query_a; query_b]) [1] 2 [steady_sampler])
           [query_a; query_b] 2 [] 1); try reflexivity.
  - cbn. lia.
  - intros [|k] q Hk Hq; [|lia]. cbn in Hq. injection Hq as <-.
    repeat split; repeat constructor.
Defined.

(** X4.  With an empty workload the loop body never runs, and the report is
    taken over the estimators as they are: none gives an empty report, and
    a fresh estimator makes [np.max] fail on its empty error series. *)
Theorem evaluate_empty_workload (self : NeuroCard) (num_queries : nat)
    (given : option (list Estimator)) (disk : list (string * log_line)) :
  loaded_queries self = Some [] ->
  0 < num_queries ->
  (given = None -> truthy_nat (eval_join_sampling self) = false) ->
  fst (evaluate self num_queries given disk) =
    {| estimators := evaluated self given; err_queries := []; files := disk |} /\
  (evaluated self given = [] -> snd (evaluate self num_queries given disk) = Ok []) /\
  (forall est rest,
     evaluated self given = est :: rest -> est_log est = [] ->
     snd (evaluate self num_queries given disk) = Raise ValueError).
Proof.
  intros Hq Hn Hj.
  assert (He : evaluate self num_queries given disk =
               ({| estimators := evaluated self given; err_queries := []; files := disk |},
                report_estimators [] (evaluated self given))).
  { destruct given as [ests|].
    - unfold evaluate. rewrite Hq.
      destruct (num_queries =? 0) eqn:E; [apply Nat.eqb_eq in E; lia|]. reflexivity.
    - rewrite (@evaluate_unfold self [] num_queries disk Hq Hn (Hj eq_refl)).
      reflexivity. }
  rewrite He. cbn [fst snd]. split; [reflexivity|]. split.
  - intros ->. reflexivity.
  - intros est rest -> Hlog. cbn [report_estimators]. unfold report_estimator, errs.
    rewrite Hlog. reflexivity.
Qed.

(** No queries in the workload: the fresh sampler has no error to report. *)
Lemma evaluate_empty_workload_witness :
  snd (evaluate (trial_with (Some []) [] 2 [steady_sampler]) 2 None []) =
    Raise ValueError /\
  snd (evaluate (trial_with (Some []) [] 2 [steady_sampler]) 2 (Some []) []) = Ok [].
Proof.
  split.
  - apply (proj2 (proj2 (evaluate_empty_workload
                           (trial_with (Some []) [] 2 [steady_sampler]) 2 None []
                           eq_refl (Nat.lt_0_succ 1) (fun _ => eq_refl)))
             steady_sampler []); reflexivity.
  - apply (proj1 (proj2 (evaluate_empty_workload
                           (trial_with (Some []) [] 2 [steady_sampler]) 2 (Some []) []
                           eq_refl (Nat.lt_0_succ 1) (fun _ => eq_refl)))).
    reflexivity.
Defined.


(** ** The assertion hook and the step, continued *)

Lemma check_asserts_cons key max_val rest results returns error :
  check_asserts ((key, max_val) :: rest) results returns error =
    match measured results returns key with
    | Ok v => check_asserts rest results returns (error || Qle_bool max_val v)
    | Raise e => Raise e
    end.
Proof.
  cbn [check_asserts]. unfold measured.
  destruct (dict_get results key); [reflexivity|].
  destruct returns as [r|]; [|reflexivity]. now destruct (dict_get r key).
Qed.

Lemma check_asserts_ok items results returns : forall error b,
  check_asserts items results returns error = Ok b ->
  Forall (fun kv => is_ok (measured results returns (fst kv)) = true) items /\
  b = error || existsb (breached results returns) items.
Proof.
  induction items as [|[key max_val] rest IH]; intros error b.
  - intros [= <-]. split; [constructor|]. cbn [existsb]. now rewrite orb_false_r.
  - rewrite check_asserts_cons.
    destruct (measured results returns key) as [v|e] eqn:Em; [|discriminate].
    intros H. destruct (IH _ _ H) as [Hf ->]. split.
    + constructor; [|exact Hf]. cbn [fst]. now rewrite Em.
    + cbn [existsb]. unfold breached at 2. cbn [fst snd]. rewrite Em.
      now rewrite orb_assoc.
Qed.

Lemma check_asserts_raise items results returns : forall error e,
  check_asserts items results returns error = Raise e ->
  exists pre kv post,
    items = pre ++ kv :: post /\
    Forall (fun kv => is_ok (measured results returns (fst kv)) = true) pre /\
    measured results returns (fst kv) = Raise e.
Proof.
  induction items as [|[key max_val] rest IH]; intros error e; [discriminate|].
  rewrite check_asserts_cons.
  destruct (measured results returns key) as [v|e'] eqn:Em.
  - intros H. destruct (IH _ _ H) as (pre & kv & post & -> & Hf & Hm).
    exists ((key, max_val) :: pre), kv, post. split; [reflexivity|]. split; [|exact Hm].
    constructor; [|exact Hf]. cbn [fst]. now rewrite Em.
  - intros [= ->]. exists [], (key, max_val), rest. split; [reflexivity|].
    split; [constructor|exact Em].
Qed.

Lemma check_asserts_all items results returns : forall error,
  Forall (fun kv => is_ok (measured results returns (fst kv)) = true) items ->
  check_asserts items results returns error =
    Ok (error || existsb (breached results returns) items).
Proof.
  induction items as [|[key max_val] rest IH]; intros error H.
  - cbn. now rewrite orb_false_r.
  - inversion H as [|? ? Hk Hrest]; subst. cbn [fst] in Hk.
    rewrite check_asserts_cons.
    destruct (measured results returns key) as [v|e] eqn:Em; [|discriminate].
    rewrite (IH _ Hrest). cbn [existsb]. unfold breached at 2. cbn [fst snd].
    rewrite Em. now rewrite orb_assoc.
Qed.

Lemma check_asserts_first_missing pre kv post results returns e : forall error,
  Forall (fun kv => is_ok (measured results returns (fst kv)) = true) pre ->
  measured results returns (fst kv) = Raise e ->
  check_asserts (pre ++ kv :: post) results returns error = Raise e.
Proof.
  induction pre as [|[key max_val] pre IH]; intros error Hpre Hm.
  - destruct kv as [key max_val]. cbn [app]. rewrite check_asserts_cons.
    cbn [fst] in Hm. now rewrite Hm.
  - inversion Hpre as [|? ? Hk Hrest]; subst. cbn [fst] in Hk.
    cbn [app]. rewrite check_asserts_cons.
    destruct (measured results returns key); [|discriminate]. now apply IH.
Qed.

Lemma maybe_check_asserts_unfold self results returns :
  _maybe_check_asserts self results returns =
    match check_asserts (asserts self) results returns false with
    | Ok error => assert (negb error)
    | Raise e => Raise e
    end.
Proof.
  unfold _maybe_check_asserts. destruct (asserts self); reflexivity.
Qed.

Lemma measured_not_assertion results returns key :
  measured results returns key <> Raise AssertionError.
Proof.
  unfold measured. destruct (dict_get results key); [discriminate|].
  destruct returns as [r|]; [|discriminate]. destruct (dict_get r key); discriminate.
Qed.

(** X5.  What the assertion hook does, by cases: it returns exactly when every
    key is found and stays strictly below its bound; it fails its
    assertion exactly when every key is found and some value reaches its
    bound, at whatever position; and a key found in neither dictionary
    raises the lookup error of the first such key, even when an earlier
    bound was already reached. *)
Theorem maybe_check_asserts_outcomes (self : NeuroCard) (results : list (string * Q))
    (returns : option (list (string * Q))) :
  (_maybe_check_asserts self results returns = Ok tt <->
   Forall (fun kv => exists v, measured results returns (fst kv) = Ok v /\ (v < snd kv)%Q)
          (asserts self)) /\
  (_maybe_check_asserts self results returns = Raise AssertionError <->
   Forall (fun kv => is_ok (measured results returns (fst kv)) = true) (asserts self) /\
   Exists (fun kv => exists v, measured results returns (fst kv) = Ok v /\ (snd kv <= v)%Q)
          (asserts self)) /\
  (forall pre kv post e,
     asserts self = pre ++ kv :: post ->
     Forall (fun kv => is_ok (measured results returns (fst kv)) = true) pre ->
     measured results returns (fst kv) = Raise e ->
     _maybe_check_asserts self results returns = Raise e).
Proof.
  rewrite maybe_check_asserts_unfold.
  assert (Hb : forall items,
             existsb (breached results returns) items = true <->
             Exists (fun kv => exists v, measured results returns (fst kv) = Ok v /\
                                         (snd kv <= v)%Q) items).
  { intros items. rewrite existsb_exists, Exists_exists.
    split; intros (kv & Hin & H); exists kv; (split; [exact Hin|]).
    - unfold breached in H. destruct (measured results returns (fst kv)) as [v|];
        [|discriminate]. exists v. split; [reflexivity|]. now apply Qle_bool_iff.
    - destruct H as (v & Hm & Hle). unfold breached. rewrite Hm.
      now apply Qle_bool_iff. }
  split; [|split].
  - split.
    + intros H.
      destruct (check_asserts (asserts self) results returns false) as [b|e] eqn:E;
        [|discriminate].
      destruct (check_asserts_ok _ _ _ _ _ E) as [Hf ->]. cbn [orb] in H.
      destruct (existsb (breached results returns) (asserts self)) eqn:Ex;
        [discriminate|].
      rewrite Forall_forall in *. intros kv Hin. specialize (Hf kv Hin).
      destruct (measured results returns (fst kv)) as [v|] eqn:Em; [|discriminate].
      exists v. split; [reflexivity|].
      apply Qnot_le_lt. intros Hle.
      assert (Hex : existsb (breached results returns) (asserts self) = true).
      { apply Hb, Exists_exists. exists kv. split; [exact Hin|]. now exists v. }
      congruence.
    + intros H.
      rewrite check_asserts_all.
      * cbn [orb].
        destruct (existsb (breached results returns) (asserts self)) eqn:Ex;
          [|reflexivity].
        exfalso. apply Hb, Exists_exists in Ex. destruct Ex as (kv & Hin & v & Hm & Hle).
        rewrite Forall_forall in H. destruct (H kv Hin) as (v' & Hm' & Hlt).
        rewrite Hm in Hm'. injection Hm' as <-. now apply Qlt_not_le in Hlt.
      * eapply Forall_impl; [|exact H]. intros kv (v & -> & _). reflexivity.
  - split.
    + intros H.
      destruct (check_asserts (asserts self) results returns false) as [b|e] eqn:E.
      * destruct (check_asserts_ok _ _ _ _ _ E) as [Hf ->]. cbn [orb] in H.
        split; [exact Hf|]. apply Hb.
        destruct (existsb (breached results returns) (asserts self)); [reflexivity|].
        discriminate.
      * exfalso. destruct (check_asserts_raise _ _ _ _ _ E) as (pre & kv & post & _ & _ & Hm).
        injection H as ->. now apply measured_not_assertion in Hm.
    + intros [Hf Hex]. rewrite check_asserts_all by exact Hf. cbn [orb].
      apply Hb in Hex. now rewrite Hex.
  - intros pre kv post e Ha Hpre Hm. rewrite Ha.
    now rewrite (check_asserts_first_missing pre kv post results returns e).
Qed.

(** A maximum error of 2 is below the bound 3; a maximum error of 3
    reaches it; a missing key raises. *)
Lemma maybe_check_asserts_outcomes_witness :
  _maybe_check_asserts (trial []) [("psample_2000_max"%string, 2%Q)] None = Ok tt /\
  _maybe_check_asserts (trial []) [("psample_2000_max"%string, 3%Q)] None =
    Raise AssertionError /\
  _maybe_check_asserts (trial []) [] None = Raise TypeError.
Proof.
  split; [|split].
  - apply (proj1 (maybe_check_asserts_outcomes (trial [])
                    [("psample_2000_max"%string, 2%Q)] None)).
    constructor; [|constructor]. exists 2%Q. split; reflexivity.
  - apply (proj1 (proj2 (maybe_check_asserts_outcomes (trial [])
                           [("psample_2000_max"%string, 3%Q)] None))).
    split; [repeat constructor|].
    constructor. exists 3%Q. split; [reflexivity|discriminate].
  - apply (proj2 (proj2 (maybe_check_asserts_outcomes (trial []) [] None))
             [] ("psample_2000_max"%string, 3%Q) [] TypeError);
      [reflexivity|constructor|reflexivity].
Defined.

(** X6.  With no evaluation queries configured, [step] evaluates nothing and
    hands an empty report to the assertion hook: it returns the empty
    report when no bound is configured, and raises [TypeError] as soon as
    one is, since the hook then looks the key up in [returns], which is
    [None]. *)
Theorem step_without_queries (self : NeuroCard) (disk : list (string * log_line)) :
  num_eval_queries_at_checkpoint_load self = 0 ->
  step self disk =
    ({| estimators := []; err_queries := []; files := disk |},
     match asserts self with
     | [] => Ok {| sr_epoch := 0; sr_done := true; sr_results := [] |}
     | _ :: _ => Raise TypeError
     end).
Proof.
  intros H. unfold step, evaluate. rewrite H. cbn [Nat.eqb].
  unfold _maybe_check_asserts.
  destruct (asserts self) as [|[key max_val] rest]; reflexivity.
Qed.

(** No evaluation queries but a bound on the maximum error. *)
Lemma step_without_queries_witness :
  snd (step (trial_with (Some [query_a; query_b]) [] 0 [steady_sampler]) []) =
    Raise TypeError.
Proof.
  rewrite (step_without_queries
             (trial_with (Some [query_a; query_b]) [] 0 [steady_sampler]) [] eq_refl).
  reflexivity.
Defined.

(** *** A query that fails half-way *)

Lemma try_Query_true_card self i q ests :
  try_Query self i q ests =
    match true_card self i q with
    | Raise e => (ests, Raise e)
    | Ok c =>
        if Metric.is_zero (table_cardinality self) then (ests, Raise ZeroDivisionError)
        else Query_estimators q c ests
    end.
Proof.
  unfold try_Query, true_card, Query.
  destruct (oracle_card_at self i) as [[c|]|e]; reflexivity.
Qed.

Lemma Query_estimators_partial q c pre est post e :
  Forall (fun p => is_ok (est_Query p q) = true) pre ->
  est_Query est q = Raise e ->
  Query_estimators q c (pre ++ est :: post) =
    (map (fun p => extend p [{| le_err := Metric.ErrorMetric (answer p q) c;
                                le_est_card := answer p q;
                                le_true_card := c |}]) pre ++ est :: post,
     Raise e).
Proof.
  intros Hpre He. induction Hpre as [|p pre Hp _ IH]; cbn [app map Query_estimators].
  - now rewrite He.
  - unfold answer at 1 2. destruct (est_Query p q) as [c'|]; [|discriminate].
    rewrite IH. reflexivity.
Qed.

Lemma NotSupportQuery_exact code ests :
  Forall (fun p => is_ok (est_Query_not_support p) = true) ests ->
  NotSupportQuery ests code =
    (map (fun p => extend p [sentinel_entry p code]) ests, Ok tt).
Proof.
  induction 1 as [|p ests Hp _ IH]; cbn [map NotSupportQuery]; [reflexivity|].
  unfold sentinel_entry at 1. destruct (est_Query_not_support p) as [c|]; [|discriminate].
  rewrite IH. reflexivity.
Qed.

(** X3.  [Query] is not atomic, and the handler of [evaluate] does not undo it:
    when an estimator raises, the estimators asked before it have already
    logged the query, and the handler then logs the sentinel entry on all
    of them.  The estimators asked first hold two entries for the failed
    query, the others one. *)
Theorem failed_query_logs_diverge (self : NeuroCard) (i : nat) (q : query)
    (st : eval_state) (pre : list Estimator) (est : Estimator) (post : list Estimator)
    (c : Q) (e : exn) :
  estimators st = pre ++ est :: post ->
  existsb (Nat.eqb i) (not_support_query_idx self) = false ->
  true_card self i q = Ok c ->
  Metric.is_zero (table_cardinality self) = false ->
  Forall (fun p => is_ok (est_Query p q) = true) pre ->
  est_Query est q = Raise e ->
  Forall (fun p => is_ok (est_Query_not_support p) = true) (pre ++ est :: post) ->
  Query self (pre ++ est :: post) (Some c) q (oracle self) =
    (map (fun p => extend p [real_entry self i q p]) pre ++ est :: post, Raise e) /\
  evaluate_query self i q st =
    ({| estimators :=
          map (fun p => extend p [real_entry self i q p; sentinel_entry p 0]) pre ++
          map (fun p => extend p [sentinel_entry p 0]) (est :: post);
        err_queries := err_queries st ++ [i];
        files := files st ++ [trace_line self i e] |},
     Raise AssertionError).
Proof.
  intros Hst Hflag Hcard Hz Hpre He Hns.
  assert (Hq : Query_estimators q c (pre ++ est :: post) =
               (map (fun p => extend p [real_entry self i q p]) pre ++ est :: post,
                Raise e)).
  { rewrite (Query_estimators_partial q c pre est post e Hpre He).
    unfold real_entry, card. now rewrite Hcard. }
  split.
  - unfold Query. now rewrite Hz.
  - unfold evaluate_query. rewrite Hflag, Hst, try_Query_true_card, Hcard, Hz, Hq.
    rewrite NotSupportQuery_exact.
    + rewrite map_app, map_map. cbn [map]. unfold trace_line.
      f_equal. f_equal. f_equal.
      apply map_ext. intros p. unfold extend, sentinel_entry. cbn.
      now rewrite <- app_assoc.
    + apply Forall_app in Hns. destruct Hns as [H1 H2].
      apply Forall_app. split; [|exact H2].
      apply Forall_map. exact H1.
Qed.

(** Two samplers, of which the second raises on the first query: the first
    sampler ends with two entries for that query, the second with one. *)
Lemma failed_query_logs_diverge_witness :
  map (fun est => length (est_log est))
      (estimators
         (fst (evaluate_query (trial [steady_sampler; flaky_sampler]) 0 query_a
                 {| estimators := [steady_sampler; flaky_sampler];
                    err_queries := []; files := [] |}))) = [2; 1].
Proof.
  rewrite (proj2 (failed_query_logs_diverge
                    (trial [steady_sampler; flaky_sampler]) 0 query_a
                    {| estimators := [steady_sampler; flaky_sampler];
                       err_queries := []; files := [] |}
                    [steady_sampler] flaky_sampler [] 1000%Q (ExternalError 1)
                    eq_refl eq_refl eq_refl eq_refl
                    ltac:(repeat constructor) eq_refl ltac:(repeat constructor))).
  reflexivity.
Defined.

(** ** The training loop, continued *)

Lemma forward_pass_model_events a x :
  Forall (fun e => is_model_event e = true) (fst (forward_pass a x)).
Proof.
  unfold forward_pass.
  match goal with |- context [repeat ?o ?k] => set (one := o); set (n := k) end.
  assert (H1 : Forall (fun e => is_model_event e = true) one).
  { unfold one. destruct (has_update_masks (model a)); repeat constructor. }
  assert (Hc : Forall (fun e => is_model_event e = true) (concat (repeat one n))).
  { apply Forall_concat. apply Forall_forall. intros l Hl.
    apply repeat_spec in Hl. now subst. }
  unfold emit, lift. rewrite tbind_ok. cbv beta. cbn [fst].
  apply Forall_app. split; [exact Hc|].
  destruct (n =? 1); cbn [fst]; repeat constructor.
Qed.

Lemma iteration_eval a step xb st :
  String.eqb (split_name a) "train" = false ->
  Forall (fun e => is_model_event e = true) (fst (iteration a step xb st)).
Proof.
  intros Hs. unfold iteration. rewrite Hs. cbv iota. unfold tret, lift.
  rewrite tbind_ok. cbv beta. cbn [fst snd app].
  destruct (truthy_nat (upto a) && _); [constructor|].
  destruct (match xb with
            | Tensor x => Ok x
            | TensorList [x] => Ok x
            | TensorList _ => Raise AssertionError
            end) as [x|e]; [|constructor].
  rewrite tbind_ok. cbv beta. cbn [fst snd app].
  pose proof (forward_pass_model_events a x) as Hf.
  destruct (forward_pass a x) as [evs [[]|e]]; cbn [fst] in Hf.
  - tsteps. cbn [app]. now rewrite !app_nil_r.
  - rewrite tbind_raise. exact Hf.
Qed.

Lemma run_loop_eval a :
  String.eqb (split_name a) "train" = false ->
  forall batches step st,
    Forall (fun e => is_model_event e = true) (fst (run_loop a step batches st)).
Proof.
  intros Hs. induction batches as [|xb rest IH]; intros step st; cbn [run_loop].
  - constructor.
  - pose proof (iteration_eval a step xb st Hs) as Hi.
    destruct (iteration a step xb st) as [evs [[c st']|e]]; cbn [fst] in Hi.
    + rewrite tbind_ok. cbv beta iota. cbn [fst].
      apply Forall_app. split; [exact Hi|].
      destruct c; [apply IH|constructor].
    + rewrite tbind_raise. exact Hi.
Qed.

(** X10.  Outside the training split an epoch only calls the model: it never
    chooses a learning rate and never touches the optimizer or the
    scheduler, whatever split name is given. *)
Theorem evaluation_split_trains_nothing (a : epoch_args) :
  split_name a <> "train"%string ->
  Forall (fun e => is_model_event e = true) (fst (run_epoch a)) /\
  filter is_update_event (fst (run_epoch a)) = [] /\
  filter is_set_lr (fst (run_epoch a)) = [].
Proof.
  intros Hs. apply String.eqb_neq in Hs.
  assert (H : Forall (fun e => is_model_event e = true) (fst (run_epoch a))).
  { rewrite run_epoch_trace. now apply run_loop_eval. }
  split; [exact H|].
  induction H as [|e l He _ [IH1 IH2]]; [split; reflexivity|].
  cbn [filter]. destruct e; try discriminate; cbn; auto.
Qed.

(** The evaluation epoch over two orderings calls the model only. *)
Lemma evaluation_split_trains_nothing_witness :
  filter is_update_event (fst (run_epoch ensemble_eval)) = [] /\
  filter is_set_lr (fst (run_epoch ensemble_eval)) = [].
Proof.
  apply (evaluation_split_trains_nothing ensemble_eval). discriminate.
Defined.
Lemma break_condition a step :
  truthy_nat (upto a) && match upto a with Some u => u <=? step | None => false end = true <->
  exists u, upto a = Some (S u) /\ S u <= step.
Proof.
  destruct (upto a) as [[|u]|]; cbn [truthy_nat andb].
  - split; [discriminate|]. intros (u & [=] & _).
  - rewrite Nat.leb_le. split.
    + intros H. now exists u.
    + intros (u' & [= <-] & H). exact H.
  - split; [discriminate|]. intros (u & [=] & _).
Qed.

Lemma iteration_outcome a step xb st c st' :
  snd (iteration a step xb st) = Ok (c, st') ->
  (c = Break /\ ls_losses st' = ls_losses st /\
   exists u, upto a = Some (S u) /\ S u <= step) \/
  (c = Continue /\ ls_losses st' = ls_losses st ++ [step] /\
   forall u, upto a = Some (S u) -> step < S u).
Proof.
  unfold iteration.
  set (lr := if String.eqb (split_name a) "train" then _ else _).
  destruct lr as [pre [sched|e]]; [|discriminate].
  rewrite tbind_ok. cbv beta. cbn [fst snd].
  destruct (truthy_nat (upto a) && _) eqn:B.
  - apply break_condition in B. unfold tret. cbn [snd].
    intros [= <- <-]. left. auto.
  - assert (Hlt : forall u, upto a = Some (S u) -> step < S u).
    { intros u Hu. destruct (Nat.lt_ge_cases step (S u)) as [H|H]; [exact H|].
      assert (Hb : exists u, upto a = Some (S u) /\ S u <= step) by eauto.
      apply break_condition in Hb. congruence. }
    unfold lift.
    destruct (match xb with
              | Tensor x => Ok x
              | TensorList [x] => Ok x
              | TensorList _ => Raise AssertionError
              end) as [x|e]; [|discriminate].
    rewrite tbind_ok. cbv beta. cbn [fst snd].
    destruct (forward_pass a x) as [fe [[]|e]]; [|discriminate].
    rewrite tbind_ok. cbv beta. cbn [fst snd].
    destruct (if String.eqb (split_name a) "train" then train_update a sched step else tret tt)
      as [ue [[]|e]]; [|discriminate].
    rewrite tbind_ok. cbv beta. unfold tret. cbn [fst snd].
    intros [= <- <-]. right. auto.
Qed.

Lemma run_loop_outcome a : forall batches step st st',
  snd (run_loop a step batches st) = Ok st' ->
  exists k,
    k <= length batches /\
    ls_losses st' = ls_losses st ++ seq step k /\
    (forall u, upto a = Some (S u) -> step <= S u -> step + k <= S u).
Proof.
  induction batches as [|xb rest IH]; intros step st st'; cbn [run_loop].
  - unfold tret. cbn [snd]. intros [= <-]. exists 0.
    cbn [seq length]. rewrite app_nil_r. repeat split; auto. intros; lia.
  - pose proof (iteration_outcome a step xb st) as Hi.
    destruct (iteration a step xb st) as [evs [[c st1]|e]]; [|discriminate].
    rewrite tbind_ok. cbv beta iota. cbn [snd].
    destruct (Hi c st1 eq_refl) as [(-> & Hl & u & Hu & Hle) | (-> & Hl & Hlt)].
    + unfold tret. cbn [snd]. intros [= <-]. exists 0.
      cbn [seq length]. rewrite app_nil_r. repeat split; auto; [lia|]. intros; lia.
    + intros H. destruct (IH _ _ _ H) as (k & Hk & Hlk & Hup).
      exists (S k). split; [cbn [length]; lia|]. split.
      * rewrite Hlk, Hl, <- app_assoc. reflexivity.
      * intros u Hu Hle. specialize (Hlt u Hu). specialize (Hup u Hu). lia.
Qed.

(** X9.  What [run_epoch] returns: the losses of steps 0, 1, ..., k-1 in order,
    for some k within the loader's length and within [upto] when that is a
    positive number.  With a controller instance at least one step must
    have completed; in particular an empty loader makes [run_epoch] raise
    [UnboundLocalError] when an instance is given, and return an empty
    list after no call at all when none is. *)
Theorem run_epoch_returns (a : epoch_args) :
  (forall losses,
     snd (run_epoch a) = Ok losses ->
     exists k,
       losses = seq 0 k /\
       k <= length (loader a) /\
       (forall u, upto a = Some (S u) -> k <= S u) /\
       (neurocard_instance a <> None -> 0 < k)) /\
  (loader a = [] ->
   run_epoch a =
     ([], match neurocard_instance a with
          | Some _ => Raise UnboundLocalError
          | None => Ok []
          end)).
Proof.
  split.
  - intros losses H.
    assert (Hne : neurocard_instance a <> None -> losses <> []).
    { revert H. unfold run_epoch.
      destruct (run_loop a 0 (loader a) _) as [evs [st|e]]; [|discriminate].
      rewrite tbind_ok. cbv beta. cbn [snd].
      destruct (neurocard_instance a), (ls_losses st); cbn; try discriminate;
        intros [= <-]; congruence. }
    destruct (run_epoch_losses a H) as (st & Hst & <-).
    destruct (run_loop_outcome a _ _ _ _ Hst) as (k & Hk & Hl & Hup).
    cbn [ls_losses app] in Hl. exists k. split; [exact Hl|]. split; [exact Hk|]. split.
    + intros u Hu. specialize (Hup u Hu). lia.
    + intros Hi. specialize (Hne Hi). rewrite Hl in Hne.
      destruct k; [now contradiction Hne|lia].
  - intros Hl. unfold run_epoch. rewrite Hl. cbn [run_loop].
    unfold tret. rewrite tbind_ok. cbv beta. cbn [fst snd ls_losses app].
    destruct (neurocard_instance a); reflexivity.
Qed.

(** The accumulating epoch returns the losses of its five steps. *)
Lemma run_epoch_returns_witness :
  exists k,
    [0; 1; 2; 3; 4] = seq 0 k /\ k <= 5 /\ 0 < k.
Proof.
  destruct (proj1 (run_epoch_returns accumulating_epoch) [0; 1; 2; 3; 4] eq_refl)
    as (k & Hk & Hl & _ & Hp).
  exists k. split; [exact Hk|]. split; [exact Hl|]. apply Hp. discriminate.
Defined.

(** *** Steps started and steps completed *)

Lemma global_steps_ok a step :
  (is_iterable_dataset a = true -> upto a <> None) ->
  exists gs, global_steps a step = Ok gs.
Proof.
  intros H. unfold global_steps. destruct (is_iterable_dataset a); [|eauto].
  destruct (upto a); [eauto|]. now contradiction H.
Qed.

Lemma learning_rate_constant a sched gs :
  truthy (constant_lr a) = true ->
  exists c, learning_rate a sched gs = Ok (LrConstant c, sched).
Proof. intros H. unfold learning_rate. rewrite H. eauto. Qed.

Lemma train_update_ok a sched step :
  0 < window a ->
  exists ue,
    train_update a sched step = (ue, Ok tt) /\
    filter is_set_lr ue = [] /\ filter is_forward ue = [].
Proof.
  unfold window, train_update. intros Hw.
  destruct (neurocard_instance a) as [[w m]|].
  - destruct (w =? 0) eqn:E; [apply Nat.eqb_eq in E; lia|].
    unfold emit, lift, tret. tsteps.
    destruct (step =? 0), ((step + 1) mod w =? 0), (step + 1 =? m), sched;
      cbn; eexists; repeat split; reflexivity.
  - cbn [Nat.eqb]. rewrite Nat.mod_1_r. cbn [Nat.eqb].
    unfold emit, lift, tret. tsteps.
    destruct (step =? 0), sched; cbn; eexists; repeat split; reflexivity.
Qed.

Lemma filter_forward_single a x :
  filter is_forward (single_forward a x ++ [Nll 1 x]) = [Forward x].
Proof. unfold single_forward. now destruct (has_update_masks (model a)). Qed.

Lemma filter_set_lr_single a x :
  filter is_set_lr (single_forward a x ++ [Nll 1 x]) = [].
Proof. unfold single_forward. now destruct (has_update_masks (model a)). Qed.

Section StartedAndCompleted.

Variable a : epoch_args.
Hypothesis Hsplit : split_name a = "train"%string.
Hypothesis Hconstant : truthy (constant_lr a) = true.
Hypothesis Hwindow : 0 < window a.
Hypothesis Hiterable : is_iterable_dataset a = true -> upto a <> None.

Lemma iteration_constant step xb x st :
  batch_tensor xb = Some x ->
  exists evs c,
    iteration a step xb st =
      (evs, Ok (c, {| ls_lr_scheduler := ls_lr_scheduler st;
                      ls_losses := match c with
                                   | Break => ls_losses st
                                   | Continue => ls_losses st ++ [step]
                                   end |})) /\
    length (filter is_set_lr evs) = 1 /\
    length (filter is_forward evs) = match c with Break => 0 | Continue => 1 end /\
    (c = Break <-> exists u, upto a = Some (S u) /\ S u <= step).
Proof.
  intros Hx. unfold iteration. rewrite Hsplit.
  change (String.eqb "train" "train") with true. cbv iota.
  destruct (global_steps_ok a step Hiterable) as [gs Hg].
  destruct (learning_rate_constant a (ls_lr_scheduler st) gs Hconstant) as [c Hl].
  unfold lift, emit, tret. rewrite Hg. tsteps. rewrite Hl. tsteps.
  destruct (truthy_nat (upto a) && _) eqn:B.
  - exists [SetLr (LrConstant c)], Break. cbn [app].
    repeat split; auto. intros _. now apply break_condition.
  - assert (Hb : match xb with
                 | Tensor x => Ok x
                 | TensorList [x] => Ok x
                 | TensorList _ => Raise AssertionError
                 end = Ok x).
    { destruct xb as [y|[|y [|z l]]]; cbn in Hx; congruence. }
    rewrite Hb. tsteps. rewrite (forward_pass_train a x Hsplit). tsteps.
    destruct (train_update_ok a (ls_lr_scheduler st) step Hwindow) as (ue & Hu & H1 & H2).
    rewrite Hu. tsteps.
    eexists. exists Continue. split; [reflexivity|].
    cbn [app filter is_set_lr is_forward].
    rewrite app_nil_r.
    rewrite (filter_app is_set_lr (single_forward a x ++ [Nll 1 x]) ue).
    rewrite (filter_app is_forward (single_forward a x ++ [Nll 1 x]) ue).
    rewrite H1, H2, filter_forward_single, filter_set_lr_single.
    cbn [app length filter]. repeat split; auto; try discriminate.
    intros Hex. apply break_condition in Hex. congruence.
Qed.

Lemma run_loop_constant : forall batches step st,
  Forall (fun xb => batch_tensor xb <> None) batches ->
  (forall u, upto a = Some (S u) -> step <= S u) ->
  exists evs st',
    run_loop a step batches st = (evs, Ok st') /\
    ls_losses st' =
      ls_losses st ++
      seq step (match upto a with
                | Some (S u) => Nat.min (S u - step) (length batches)
                | _ => length batches
                end) /\
    length (filter is_forward evs) =
      match upto a with
      | Some (S u) => Nat.min (S u - step) (length batches)
      | _ => length batches
      end /\
    length (filter is_set_lr evs) =
      match upto a with
      | Some (S u) => Nat.min (S (S u - step)) (length batches)
      | _ => length batches
      end.
Proof.
  induction batches as [|xb rest IH]; intros step st Hb Hup; cbn [run_loop].
  - exists [], st. unfold tret. cbn [length filter].
    destruct (upto a) as [[|u]|]; rewrite ?Nat.min_0_r; cbn [seq];
      rewrite app_nil_r; auto.
  - inversion Hb as [|? ? Hx Hrest]; subst.
    destruct (batch_tensor xb) as [x|] eqn:Ex; [|congruence].
    destruct (iteration_constant step xb x st Ex) as (evs & c & Hi & H1 & H2 & Hc).
    rewrite Hi. rewrite tbind_ok. cbv beta iota. cbn [fst snd].
    destruct c.
    + assert (Hlt : forall u, upto a = Some (S u) -> step < S u).
      { intros u Hu. destruct (Nat.lt_ge_cases step (S u)) as [H|H]; [exact H|].
        assert (Hex : exists u, upto a = Some (S u) /\ S u <= step) by eauto.
        apply Hc in Hex. discriminate. }
      destruct (IH (S step) {| ls_lr_scheduler := ls_lr_scheduler st;
                               ls_losses := ls_losses st ++ [step] |} Hrest)
        as (evs' & st' & Hr & Hl & Hf & Hs).
      { intros u Hu. specialize (Hlt u Hu). lia. }
      rewrite Hr. cbn [fst snd]. exists (evs ++ evs'), st'. split; [reflexivity|].
      rewrite !filter_app, !length_app, H1, H2, Hf, Hs, Hl. cbn [ls_losses length].
      destruct (upto a) as [[|u]|] eqn:Eu.
      * rewrite <- app_assoc. auto.
      * specialize (Hlt u eq_refl).
        replace (Nat.min (S u - step) (S (length rest)))
          with (S (Nat.min (S u - S step) (length rest))) by lia.
        replace (Nat.min (S (S u - step)) (S (length rest)))
          with (S (Nat.min (S (S u - S step)) (length rest))) by lia.
        rewrite <- app_assoc. auto.
      * rewrite <- app_assoc. auto.
    + destruct (proj1 Hc eq_refl) as (u & Hu & Hle).
      specialize (Hup u Hu). assert (step = S u) by lia. subst step.
      unfold tret. cbn [fst snd]. eexists. eexists. split; [reflexivity|].
      rewrite app_nil_r, H1, H2, Hu, Nat.sub_diag. cbn [ls_losses length Nat.min seq].
      rewrite app_nil_r. auto.
Qed.

End StartedAndCompleted.

(** X8.  How [upto] bounds a training epoch in which nothing raises: it counts
    only when it is a positive number; the epoch then completes
    [min(upto, n)] of the loader's [n] batches, each forwarded once, but it
    chooses the learning rate once more when the loader holds more than
    [upto] batches, since the loop breaks only after the rate of the next
    step has been written to the optimizer. *)
Theorem upto_bounds_the_epoch (a : epoch_args) :
  split_name a = "train"%string ->
  truthy (constant_lr a) = true ->
  0 < window a ->
  (is_iterable_dataset a = true -> upto a <> None) ->
  Forall (fun xb => batch_tensor xb <> None) (loader a) ->
  loader a <> [] ->
  snd (run_epoch a) = Ok (seq 0 (completed_steps a (length (loader a)))) /\
  length (filter is_forward (fst (run_epoch a))) = completed_steps a (length (loader a)) /\
  length (filter is_set_lr (fst (run_epoch a))) = started_steps a (length (loader a)).
Proof.
  intros Hs Hc Hw Hit Hb Hne.
  destruct (run_loop_constant a Hs Hc Hw Hit (loader a) 0
              {| ls_lr_scheduler := lr_scheduler a; ls_losses := [] |} Hb)
    as (evs & st' & Hr & Hl & Hf & Hsl); [intros; lia|].
  rewrite run_epoch_trace, Hr. cbn [fst]. cbn [ls_losses app] in Hl.
  unfold completed_steps, started_steps.
  cbn [Nat.sub] in Hl, Hf, Hsl.
  split; [|split; [exact Hf|exact Hsl]].
  unfold run_epoch. rewrite Hr. rewrite tbind_ok. cbv beta. cbn [fst snd].
  rewrite Hl.
  assert (Hpos : 0 < match upto a with
                     | Some (S u) => Nat.min (S u) (length (loader a))
                     | _ => length (loader a)
                     end).
  { destruct (loader a); [congruence|]. cbn [length].
    destruct (upto a) as [[|u]|]; lia. }
  destruct (match upto a with
            | Some (S u) => Nat.min (S u) (length (loader a))
            | _ => length (loader a)
            end) as [|k]; [lia|].
  cbn [seq]. destruct (neurocard_instance a); reflexivity.
Qed.

(** Five batches cut off after two steps: two losses, two forward passes,
    three learning rates. *)
Lemma upto_bounds_the_epoch_witness :
  snd (run_epoch capped_epoch) = Ok [0; 1] /\
  length (filter is_forward (fst (run_epoch capped_epoch))) = 2 /\
  length (filter is_set_lr (fst (run_epoch capped_epoch))) = 3.
Proof.
  apply (upto_bounds_the_epoch capped_epoch); try reflexivity.
  - cbn. lia.
  - discriminate.
  - repeat constructor; discriminate.
  - discriminate.
Defined.

(** *** The window and the budget, with or without a controller instance *)

Lemma train_update_window a sched step :
  0 < window a ->
  sched = active_scheduler a ->
  train_update a sched step = (update_events a (window a) (budget a) step, Ok tt).
Proof.
  intros Hw ->. unfold window, budget in *.
  destruct (neurocard_instance a) as [[w m]|] eqn:Hi.
  - now apply train_update_events.
  - unfold train_update, update_events, fires. rewrite Hi.
    cbn [Nat.eqb]. rewrite Nat.mod_1_r. cbn [Nat.eqb orb].
    unfold tbind, emit, lift, tret.
    destruct (step =? 0), (active_scheduler a); reflexivity.
Qed.

Lemma iteration_window a step xb st :
  split_name a = "train"%string ->
  0 < window a ->
  ls_lr_scheduler st = lr_scheduler a \/ ls_lr_scheduler st = active_scheduler a ->
  (exists evs e,
     iteration a step xb st = (evs, Raise e) /\ filter is_update_event evs = []) \/
  (exists evs st',
     iteration a step xb st = (evs, Ok (Break, st')) /\
     filter is_update_event evs = [] /\ ls_losses st' = ls_losses st) \/
  (exists evs,
     iteration a step xb st =
       (evs, Ok (Continue, {| ls_lr_scheduler := active_scheduler a;
                              ls_losses := ls_losses st ++ [step] |})) /\
     filter is_update_event evs = update_events a (window a) (budget a) step).
Proof.
  intros Hs Hw Hsched. unfold iteration. rewrite Hs.
  change (String.eqb "train" "train") with true. cbv iota.
  unfold lift, emit, tret.
  destruct (global_steps a step) as [gs|e]; [|left; exists [], e; auto].
  rewrite tbind_ok. cbn [fst snd app].
  destruct (learning_rate a (ls_lr_scheduler st) gs) as [[v s]|e] eqn:L;
    [|left; exists [], e; auto].
  apply (learning_rate_scheduler _ _ Hsched) in L. cbn [snd] in L. subst s.
  rewrite !tbind_ok. cbn [fst snd app].
  destruct (truthy_nat (upto a) && _).
  { right; left. eexists. eexists. split; [reflexivity|]. auto. }
  destruct (batch_tensor xb) as [x|] eqn:Hx.
  - assert (Hb : match xb with
                 | Tensor x => Ok x
                 | TensorList [x] => Ok x
                 | TensorList _ => Raise AssertionError
                 end = Ok x).
    { destruct xb as [y|[|y [|z l]]]; cbn in Hx; congruence. }
    rewrite Hb. right; right. tsteps.
    rewrite (forward_pass_train a x Hs). tsteps.
    rewrite (train_update_window a _ step Hw eq_refl). tsteps.
    eexists. split; [reflexivity|].
    cbn [app filter is_update_event].
    rewrite filter_app, filter_single_forward, filter_app, filter_update_events.
    cbn [filter app]. now rewrite app_nil_r.
  - assert (Hb : match xb with
                 | Tensor x => Ok x
                 | TensorList [x] => Ok x
                 | TensorList _ => Raise AssertionError
                 end = Raise AssertionError).
    { destruct xb as [y|[|y [|z l]]]; cbn in Hx; congruence. }
    rewrite Hb. left. eexists. eexists. split; [reflexivity|]. reflexivity.
Qed.

Lemma run_loop_window a :
  split_name a = "train"%string ->
  0 < window a ->
  forall batches step st,
    ls_lr_scheduler st = lr_scheduler a \/ ls_lr_scheduler st = active_scheduler a ->
    exists k,
      k <= length batches /\
      filter is_update_event (fst (run_loop a step batches st)) =
        flat_map (update_events a (window a) (budget a)) (seq step k) /\
      (forall st', snd (run_loop a step batches st) = Ok st' ->
                   ls_losses st' = ls_losses st ++ seq step k).
Proof.
  intros Hs Hw. induction batches as [|xb rest IH]; intros step st Hsched.
  - exists 0. cbn. repeat split; auto. intros st' [= <-]. now rewrite app_nil_r.
  - cbn [run_loop].
    destruct (iteration_window a step xb st Hs Hw Hsched)
      as [(evs & e & -> & Hf) | [(evs & st1 & -> & Hf & Hl) | (evs & -> & Hf)]].
    + exists 0. rewrite tbind_raise. cbn. repeat split; auto; [lia|discriminate].
    + exists 0. rewrite tbind_ok. cbv beta iota. unfold tret. cbn [fst snd].
      rewrite app_nil_r. repeat split; auto; [cbn; lia|].
      intros st' [= <-]. cbn. now rewrite app_nil_r.
    + rewrite tbind_ok. cbv beta iota. cbn [fst snd].
      destruct (IH (S step) {| ls_lr_scheduler := active_scheduler a;
                               ls_losses := ls_losses st ++ [step] |})
        as (k & Hk & Hfk & Hlk); [now right|].
      exists (S k). split; [cbn; lia|]. split.
      * rewrite filter_app, Hf, Hfk. reflexivity.
      * intros st' Hst'. rewrite (Hlk st' Hst'). cbn. now rewrite <- app_assoc.
Qed.

(** X11.  Without a controller instance the accumulation window is 1 and the
    step budget is never read: every training step that completes steps
    the optimizer right after its backward pass, so an epoch of k completed
    steps steps the optimizer k times. *)
Theorem default_window_steps_always (a : epoch_args) :
  split_name a = "train"%string ->
  neurocard_instance a = None ->
  (forall sched step,
     train_update a sched step =
       ((if step =? 0 then [ZeroGrad] else []) ++
        [Backward 1; OptStep; ZeroGrad] ++
        match sched with Some _ => [SchedulerStep] | None => [] end,
        Ok tt)) /\
  exists k,
    k <= length (loader a) /\
    filter is_update_event (fst (run_epoch a)) =
      flat_map (update_events a 1 0) (seq 0 k) /\
    length (filter is_opt_step (fst (run_epoch a))) = k /\
    (forall losses, snd (run_epoch a) = Ok losses -> losses = seq 0 k).
Proof.
  intros Hs Hi. split.
  - intros sched step. unfold train_update. rewrite Hi.
    cbn [Nat.eqb]. rewrite Nat.mod_1_r. cbn [Nat.eqb].
    unfold tbind, emit, lift, tret.
    destruct (step =? 0), sched; reflexivity.
  - assert (Hw : 0 < window a) by (unfold window; rewrite Hi; lia).
    destruct (run_loop_window a Hs Hw (loader a) 0
                {| ls_lr_scheduler := lr_scheduler a; ls_losses := [] |})
      as (k & Hk & Hf & Hl); [now left|].
    unfold window, budget in Hf. rewrite Hi in Hf.
    exists k. split; [exact Hk|]. rewrite run_epoch_trace. split; [exact Hf|]. split.
    + assert (Ho : forall l, filter is_opt_step (filter is_update_event l) =
                             filter is_opt_step l).
      { induction l as [|e l IH]; [reflexivity|].
        destruct e; cbn [filter is_update_event is_opt_step]; rewrite ?IH; reflexivity. }
      rewrite <- Ho, Hf, count_opt_steps, count_fires by lia.
      rewrite Nat.div_1_r. cbn. lia.
    + intros losses Hlosses.
      destruct (run_epoch_losses a Hlosses) as (st & Hst' & <-).
      apply (Hl st Hst').
Qed.

(** Two batches without a controller instance: two optimizer steps. *)
Lemma default_window_steps_always_witness :
  exists k,
    k <= 2 /\
    filter is_update_event (fst (run_epoch unset_policy_epoch)) =
      flat_map (update_events unset_policy_epoch 1 0) (seq 0 k) /\
    length (filter is_opt_step (fst (run_epoch unset_policy_epoch))) = k /\
    (forall losses, snd (run_epoch unset_policy_epoch) = Ok losses -> losses = seq 0 k).
Proof.
  exact (proj2 (default_window_steps_always unset_policy_epoch eq_refl eq_refl)).
Defined.

(** X12.  An accumulation window of 0 makes every training epoch fail: the
    first step raises [ZeroDivisionError] at the test of the window, after
    its backward pass and before any optimizer step. *)
Theorem zero_window_fails (a : epoch_args) (max_step : nat) :
  split_name a = "train"%string ->
  neurocard_instance a = Some (0, max_step) ->
  (forall sched step,
     train_update a sched step =
       ((if step =? 0 then [ZeroGrad] else []) ++ [Backward 0],
        Raise ZeroDivisionError)) /\
  is_ok (snd (run_epoch a)) = false /\
  (forall xb rest x gs lr,
     loader a = xb :: rest -> batch_tensor xb = Some x ->
     global_steps a 0 = Ok gs -> learning_rate a (lr_scheduler a) gs = Ok lr ->
     run_epoch a =
       ([SetLr (fst lr)] ++ single_forward a x ++ [Nll 1 x; ZeroGrad; Backward 0],
        Raise ZeroDivisionError)).
Proof.
  intros Hs Hi.
  assert (Hu : forall sched step,
             train_update a sched step =
               ((if step =? 0 then [ZeroGrad] else []) ++ [Backward 0],
                Raise ZeroDivisionError)).
  { intros sched step. unfold train_update. rewrite Hi. cbn [Nat.eqb].
    unfold tbind, emit, lift, tret. destruct (step =? 0); reflexivity. }
  split; [exact Hu|]. split.
  - unfold run_epoch. destruct (loader a) as [|xb rest].
    + cbn [run_loop]. unfold tret. rewrite tbind_ok. cbv beta.
      cbn [fst snd ls_losses]. rewrite Hi. reflexivity.
    + cbn [run_loop].
      pose proof (iteration_outcome a 0 xb
                    {| ls_lr_scheduler := lr_scheduler a; ls_losses := [] |}) as Ho.
      destruct (iteration a 0 xb _) as [evs [[c st']|e]] eqn:Hit;
        [|rewrite tbind_raise; reflexivity].
      exfalso. destruct (Ho c st' eq_refl) as [(_ & _ & u & _ & Hle) | (-> & _ & _)];
        [lia|].
      revert Hit. unfold iteration. rewrite Hs.
      change (String.eqb "train" "train") with true. cbv iota.
      unfold lift, emit, tret. cbn [ls_lr_scheduler].
      destruct (global_steps a 0) as [gs|e]; [|rewrite tbind_raise; discriminate].
      tsteps.
      destruct (learning_rate a (lr_scheduler a) gs) as [[v s]|e];
        [|rewrite tbind_raise; discriminate].
      tsteps.
      destruct (truthy_nat (upto a) && _); [discriminate|].
      destruct (match xb with
                | Tensor x => Ok x
                | TensorList [x] => Ok x
                | TensorList _ => Raise AssertionError
                end) as [x|e]; [|rewrite tbind_raise; discriminate].
      tsteps. rewrite (forward_pass_train a x Hs). tsteps. rewrite Hu.
      rewrite tbind_raise. discriminate.
  - intros xb rest x gs lr Hl Hx Hg Hlr. unfold run_epoch. rewrite Hl.
    cbn [run_loop]. unfold iteration. rewrite Hs.
    change (String.eqb "train" "train") with true. cbv iota.
    unfold lift, emit, tret. cbn [ls_lr_scheduler].
    rewrite Hg. tsteps. rewrite Hlr. tsteps.
    replace (truthy_nat (upto a) &&
             match upto a with Some u => u <=? 0 | None => false end) with false
      by (destruct (upto a) as [[|u]|]; reflexivity).
    assert (Hb : match xb with
                 | Tensor x => Ok x
                 | TensorList [x] => Ok x
                 | TensorList _ => Raise AssertionError
                 end = Ok x).
    { destruct xb as [y|[|y [|z l]]]; cbn in Hx; congruence. }
    rewrite Hb. tsteps. rewrite (forward_pass_train a x Hs). tsteps. rewrite Hu.
    cbn [Nat.eqb app fst snd]. rewrite !tbind_raise.
    rewrite <- !app_assoc. reflexivity.
Qed.

(** A window of 0: the first step fails after its backward pass. *)
Lemma zero_window_fails_witness :
  run_epoch zero_window_epoch =
    ([SetLr (LrConstant (1 # 1000)); UpdateMasks; Forward 0; Nll 1 0; ZeroGrad; Backward 0],
     Raise ZeroDivisionError).
Proof.
  apply (proj2 (proj2 (zero_window_fails zero_window_epoch 5 eq_refl eq_refl))
           (Tensor 0) [Tensor 1] 0 1 (LrConstant (1 # 1000), None)); reflexivity.
Defined.

(** *** Failures of the learning-rate chain *)





(** ** Scheduler names *)

Lemma split_lacks sep s : lacks sep s = true -> split sep s = [s].
Proof.
  induction s as [|c r IH]; cbn [lacks split]; [reflexivity|].
  intros H. apply andb_true_iff in H. destruct H as [Hc Hr].
  apply negb_true_iff in Hc. rewrite Hc, (IH Hr). reflexivity.
Qed.

Lemma split_piece sep s r :
  lacks sep s = true -> split sep (s ++ String sep r) = s :: split sep r.
Proof.
  induction s as [|c s IH]; cbn [lacks split append].
  - intros _. now rewrite Ascii.eqb_refl.
  - intros H. apply andb_true_iff in H. destruct H as [Hc Hr].
    apply negb_true_iff in Hc. rewrite Hc, (IH Hr). reflexivity.
Qed.

Lemma prefix_append s t : prefix s (s ++ t) = true.
Proof.
  induction s as [|c s IH]; cbn [prefix append]; [now destruct t|].
  destruct (ascii_dec c c); [exact IH|congruence].
Qed.

(** X13.  How [setup] reads a scheduler name with parameters.  The name
    [wd_<lr>_<fraction>] installs the cosine schedule function over
    [epochs * max_steps] steps with the two numbers parsed from the name,
    and leaves the attribute [lr_scheduler] bound to the name itself; a
    name [wd_...] with fewer or more than two numbers fails the assertion
    on the number of pieces.  The name [OneCycleLR-<pct>] builds the
    one-cycle scheduler with the warmup percentage parsed from the name. *)
Theorem parameterised_scheduler_names (float : string -> result Q)
    (epochs max_steps : nat) (custom : option lr_lambda) :
  (forall lr_text fraction_text lr fraction,
     lacks "_" lr_text = true -> lacks "_" fraction_text = true ->
     float lr_text = Ok lr -> float fraction_text = Ok fraction ->
     setup_lr_scheduler float epochs max_steps
       (Some ("wd_" ++ lr_text ++ "_" ++ fraction_text)%string) custom =
       Ok {| attr_lr_scheduler :=
               Some (SchedulerName ("wd_" ++ lr_text ++ "_" ++ fraction_text)%string);
             attr_custom_lr_lambda :=
               Some (CosineLearningRateFn (epochs * max_steps) lr (1 # 100000) 0
                                          fraction) |}) /\
  (forall text,
     lacks "_" text = true ->
     setup_lr_scheduler float epochs max_steps (Some ("wd_" ++ text)%string) custom =
       Raise AssertionError) /\
  (forall text pct,
     lacks "-" text = true -> float text = Ok pct ->
     setup_lr_scheduler float epochs max_steps (Some ("OneCycleLR-" ++ text)%string) custom =
       Ok {| attr_lr_scheduler :=
               Some (SchedulerObject (OneCycleLR (2 # 1000) (epochs * max_steps) (Some pct)));
             attr_custom_lr_lambda := custom |}).
Proof.
  split; [|split].
  - intros lr_text fraction_text lr fraction H1 H2 F1 F2.
    unfold setup_lr_scheduler.
    change (String.eqb ("wd_" ++ lr_text ++ "_" ++ fraction_text) "CosineAnnealingLR")
      with false.
    change (String.eqb ("wd_" ++ lr_text ++ "_" ++ fraction_text) "OneCycleLR")
      with false.
    change (prefix "OneCycleLR-" ("wd_" ++ lr_text ++ "_" ++ fraction_text)) with false.
    assert (Hp : prefix "wd_" ("wd_" ++ lr_text ++ "_" ++ fraction_text) = true).
    { apply prefix_append. }
    rewrite Hp.
    assert (Hs : split "_" ("wd_" ++ lr_text ++ "_" ++ fraction_text) =
                 ["wd"%string; lr_text; fraction_text]).
    { change ("wd_" ++ lr_text ++ "_" ++ fraction_text)%string
        with ("wd" ++ String "_" (lr_text ++ String "_" fraction_text))%string.
      rewrite split_piece by reflexivity. rewrite split_piece by exact H1.
      now rewrite split_lacks. }
    rewrite Hs. cbn [length Nat.eqb assert bind nth]. rewrite F1, F2. reflexivity.
  - intros text H.
    unfold setup_lr_scheduler.
    change (String.eqb ("wd_" ++ text) "CosineAnnealingLR") with false.
    change (String.eqb ("wd_" ++ text) "OneCycleLR") with false.
    change (prefix "OneCycleLR-" ("wd_" ++ text)) with false.
    assert (Hp : prefix "wd_" ("wd_" ++ text) = true) by apply prefix_append.
    rewrite Hp.
    assert (Hs : split "_" ("wd_" ++ text) = ["wd"%string; text]).
    { change ("wd_" ++ text)%string with ("wd" ++ String "_" text)%string.
      rewrite split_piece by reflexivity. now rewrite split_lacks. }
    rewrite Hs. reflexivity.
  - intros text pct H F.
    unfold setup_lr_scheduler.
    change (String.eqb ("OneCycleLR-" ++ text) "CosineAnnealingLR") with false.
    assert (He : String.eqb ("OneCycleLR-" ++ text) "OneCycleLR" = false).
    { apply String.eqb_neq. intros E. apply (f_equal String.length) in E.
      cbn in E. lia. }
    rewrite He.
    assert (Hp : prefix "OneCycleLR-" ("OneCycleLR-" ++ text) = true)
      by apply prefix_append.
    rewrite Hp.
    assert (Hs : split "-" ("OneCycleLR-" ++ text) = ["OneCycleLR"%string; text]).
    { change ("OneCycleLR-" ++ text)%string with ("OneCycleLR" ++ String "-" text)%string.
      rewrite split_piece by reflexivity. now rewrite split_lacks. }
    rewrite Hs. cbn [last]. rewrite F. reflexivity.
Qed.

(** The name [wd_0.001_0.05] over 10 epochs of 100 steps. *)
Lemma parameterised_scheduler_names_witness :
  setup_lr_scheduler float_of_text 10 100 (Some "wd_0.001_0.05"%string) None =
    Ok {| attr_lr_scheduler := Some (SchedulerName "wd_0.001_0.05");
          attr_custom_lr_lambda :=
            Some (CosineLearningRateFn 1000 (1 # 1000) (1 # 100000) 0 (1 # 20)) |} /\
  setup_lr_scheduler float_of_text 10 100 (Some "wd_0.001"%string) None =
    Raise AssertionError.
Proof.
  destruct (parameterised_scheduler_names float_of_text 10 100 None) as (H1 & H2 & _).
  split.
  - apply (H1 "0.001"%string "0.05"%string); reflexivity.
  - apply (H2 "0.001"%string). reflexivity.
Defined.

(** ** The ordering builder, continued *)

Lemma filter_delete_value (P : nat -> bool) l v :
  P v = false -> filter P (delete_value l v) = filter P l.
Proof.
  intros Hv. unfold delete_value. induction l as [|x l IH]; [reflexivity|].
  cbn [filter]. destruct (x =? v) eqn:E; cbn [negb].
  - apply Nat.eqb_eq in E. subst x. now rewrite Hv.
  - cbn [filter]. now rewrite IH.
Qed.

Lemma filter_insert (P : nat -> bool) l i v l' :
  P v = false -> insert l i v = Ok l' -> filter P l' = filter P l.
Proof.
  intros Hv. unfold insert. destruct (i <=? length l); [|discriminate].
  intros [= <-]. rewrite filter_app. cbn [filter]. rewrite Hv, <- filter_app.
  now rewrite firstn_skipn.
Qed.

Lemma relocate_subvars_filter (P : nat -> bool) cols first :
  forall sub_cols j order order',
    (forall sub c, In sub sub_cols -> index cols sub = Ok c -> P c = false) ->
    relocate_subvars cols first j sub_cols order = Ok order' ->
    filter P order' = filter P order.
Proof.
  induction sub_cols as [|sub rest IH]; intros j order order' HP; cbn [relocate_subvars].
  - now intros [= <-].
  - destruct (index cols sub) as [v|e] eqn:Ev; [|discriminate]. cbn [bind].
    destruct (argwhere_first (delete_value order v) first) as [p|e]; [|discriminate].
    cbn [bind].
    destruct (insert (delete_value order v) (p + j) v) as [order1|e] eqn:Ei;
      [|discriminate].
    cbn [bind]. intros H.
    assert (Hv : P v = false) by (apply (HP sub); [now left|exact Ev]).
    rewrite (IH _ _ _ (fun s c Hin => HP s c (or_intror Hin)) H).
    rewrite (filter_insert P _ _ _ _ Hv Ei). now apply filter_delete_value.
Qed.

Lemma correct_order_filter (P : nat -> bool) cols :
  forall mapping order order',
    (forall m sub c, In m mapping -> In sub (tl (snd m)) -> index cols sub = Ok c ->
                     P c = false) ->
    correct_order cols mapping order = Ok order' ->
    filter P order' = filter P order.
Proof.
  induction mapping as [|[orig sub_cols] rest IH]; intros order order' HP;
    cbn [correct_order].
  - now intros [= <-].
  - destruct (correct_column cols sub_cols order) as [order1|e] eqn:Ec; [|discriminate].
    cbn [bind]. intros H.
    rewrite (IH _ _ (fun m s c Hin => HP m s c (or_intror Hin)) H).
    unfold correct_column in Ec. destruct sub_cols as [|first subs]; [discriminate|].
    destruct (index cols first) as [f|e]; [|discriminate]. cbn [bind] in Ec.
    apply (relocate_subvars_filter P cols f subs 1 order order1); [|exact Ec].
    intros sub c Hin Hc. apply (HP (orig, first :: subs) sub c); auto. now left.
Qed.

(** X15.  The correction for sub-variable ordering moves only the sub-variable
    columns after the first one of each factorized column: all other
    columns, the first sub-variables among them, keep their relative order. *)
Theorem correction_keeps_other_columns (cols : list Column)
    (mapping : list (Column * list Column)) (raw order : list nat) :
  correct_order cols mapping raw = Ok order ->
  filter (fun v => negb (relocated cols mapping v)) order =
  filter (fun v => negb (relocated cols mapping v)) raw.
Proof.
  apply correct_order_filter. intros m sub c Hm Hsub Hc.
  apply negb_false_iff. unfold relocated. apply existsb_exists.
  exists m. split; [exact Hm|]. apply existsb_exists.
  exists sub. split; [exact Hsub|]. rewrite Hc. apply Nat.eqb_refl.
Qed.

(** The second sub-variable of column [a] (index 2) is brought behind the
    first one (index 0); the other indices keep their order 1, 0, 3, 4. *)
Lemma correction_keeps_other_columns_witness :
  correct_order factorized_cols (fact_col_mapping factorized_table) [2; 1; 0; 3; 4] =
    Ok [1; 0; 2; 3; 4] /\
  filter (fun v => negb (relocated factorized_cols (fact_col_mapping factorized_table) v))
         [1; 0; 2; 3; 4] = [1; 0; 3; 4].
Proof.
  split; [reflexivity|].
  rewrite (correction_keeps_other_columns factorized_cols
             (fact_col_mapping factorized_table) [2; 1; 0; 3; 4] [1; 0; 2; 3; 4] eq_refl).
  reflexivity.
Defined.

(** *** Orderings the correction leaves alone *)

Lemma NoDup_app_notin {A : Type} (l1 l2 : list A) x :
  NoDup (l1 ++ x :: l2) -> ~ In x l1 /\ ~ In x l2.
Proof.
  intros H. apply NoDup_remove_2 in H. split; intros Hin; apply H, in_or_app; auto.
Qed.

Lemma relocate_subvars_fixed cols first :
  forall sub_cols idxs j a cur' b,
    map_result (index cols) sub_cols = Ok idxs ->
    j = length (first :: cur') ->
    NoDup (a ++ (first :: cur' ++ idxs) ++ b) ->
    relocate_subvars cols first j sub_cols (a ++ (first :: cur' ++ idxs) ++ b) =
      Ok (a ++ (first :: cur' ++ idxs) ++ b).
Proof.
  induction sub_cols as [|sub rest IH]; intros idxs j a cur' b Hidx Hj Hnd.
  - reflexivity.
  - cbn [map_result] in Hidx.
    destruct (index cols sub) as [v|e] eqn:Ev; [|discriminate]. cbn [bind] in Hidx.
    destruct (map_result (index cols) rest) as [idxs'|e] eqn:Er; [|discriminate].
    cbn [bind] in Hidx. injection Hidx as <-.
    cbn [relocate_subvars]. rewrite Ev. cbn [bind].
    assert (E : a ++ (first :: cur' ++ v :: idxs') ++ b =
                (a ++ first :: cur') ++ v :: (idxs' ++ b)).
    { cbn [app]. rewrite <- !app_assoc. cbn [app]. reflexivity. }
    rewrite E in Hnd |- *.
    destruct (NoDup_app_notin _ _ _ Hnd) as [Hl Hr].
    assert (Hd : delete_value ((a ++ first :: cur') ++ v :: idxs' ++ b) v =
                 (a ++ first :: cur') ++ idxs' ++ b).
    { rewrite delete_value_app. cbn [delete_value filter].
      rewrite Nat.eqb_refl. cbn [negb].
      fold (delete_value (a ++ first :: cur') v). fold (delete_value (idxs' ++ b) v).
      now rewrite !delete_value_notin. }
    rewrite Hd.
    assert (Ha : ~ In first a).
    { apply NoDup_remove_1 in Hnd. rewrite <- app_assoc in Hnd. cbn [app] in Hnd.
      now apply NoDup_app_notin in Hnd. }
    rewrite <- (app_assoc a). cbn [app].
    rewrite (argwhere_first_app a _ first Ha). cbn [bind].
    rewrite Hj, <- length_app.
    replace (a ++ first :: cur' ++ idxs' ++ b) with ((a ++ first :: cur') ++ idxs' ++ b)
      by (rewrite <- app_assoc; reflexivity).
    rewrite insert_app. cbn [bind].
    replace ((a ++ first :: cur') ++ v :: idxs' ++ b)
      with (a ++ (first :: (cur' ++ [v]) ++ idxs') ++ b).
    + apply IH; [reflexivity| |].
      * cbn [length]. rewrite !length_app. cbn [length]. lia.
      * replace (a ++ (first :: (cur' ++ [v]) ++ idxs') ++ b)
          with ((a ++ first :: cur') ++ v :: idxs' ++ b); [exact Hnd|].
        cbn [app]. rewrite <- !app_assoc. cbn [app]. reflexivity.
    + cbn [app]. rewrite <- !app_assoc. cbn [app]. reflexivity.
Qed.

Lemma correct_column_fixed cols sub_cols blk order :
  map_result (index cols) sub_cols = Ok blk ->
  blk <> [] ->
  infix blk order ->
  NoDup order ->
  correct_column cols sub_cols order = Ok order.
Proof.
  intros Hidx Hne (pre & post & ->) Hnd.
  destruct sub_cols as [|s0 rest]; [cbn in Hidx; congruence|].
  cbn [map_result] in Hidx.
  destruct (index cols s0) as [f|e] eqn:E0; [|discriminate]. cbn [bind] in Hidx.
  destruct (map_result (index cols) rest) as [idxs|e] eqn:Er; [|discriminate].
  cbn [bind] in Hidx. injection Hidx as <-.
  unfold correct_column. rewrite E0. cbn [bind].
  apply (relocate_subvars_fixed cols f rest idxs 1 pre [] post Er eq_refl Hnd).
Qed.

Lemma correct_order_fixed cols order :
  NoDup order ->
  forall mapping blocks,
    blocks_of cols mapping blocks ->
    Forall (fun blk => infix blk order) blocks ->
    correct_order cols mapping order = Ok order.
Proof.
  intros Hnd. induction mapping as [|[orig sub_cols] rest IH]; intros blocks Hb Hinf.
  - reflexivity.
  - inversion Hb as [|? blk ? blocks' [Hidx Hne] Hrest]; subst. cbn [snd] in Hidx.
    inversion Hinf as [|? ? H1 H2]; subst.
    cbn [correct_order].
    rewrite (correct_column_fixed cols sub_cols blk order Hidx Hne H1 Hnd). cbn [bind].
    now apply (IH blocks').
Qed.

(** X16.  The correction is idempotent: a corrected ordering is left as it is by
    a second correction. *)
Theorem correction_idempotent (cols : list Column)
    (mapping : list (Column * list Column)) (raw order : list nat) :
  well_formed_factor cols mapping ->
  Permutation (seq 0 (length cols)) raw ->
  correct_order cols mapping raw = Ok order ->
  correct_order cols mapping order = Ok order.
Proof.
  intros Hwf Hp Hc.
  destruct (blocks_exist cols mapping Hwf) as (blocks & Hb & Hnd & Hlt & _).
  destruct (correct_order_spec cols (length cols) mapping blocks [] raw
              Hb Hp Hnd Hlt (Forall_nil _)) as (order' & Hc' & Hp' & Hinf).
  assert (order' = order) by congruence. subst order'.
  apply (correct_order_fixed cols order) with (blocks := blocks); auto.
  eapply Permutation_NoDup; [exact Hp'|apply seq_NoDup].
Qed.

(** The corrected ordering 1, 0, 2, 3, 4 is left as it is. *)
Lemma correction_idempotent_witness :
  correct_order factorized_cols (fact_col_mapping factorized_table) [1; 0; 2; 3; 4] =
    Ok [1; 0; 2; 3; 4].
Proof.
  apply (correction_idempotent factorized_cols (fact_col_mapping factorized_table)
           [2; 1; 0; 3; 4] [1; 0; 2; 3; 4]).
  - exact (factorized_table_well_formed factorized_table eq_refl).
  - change (seq 0 (length factorized_cols)) with [0; 1; 2; 3; 4].
    apply (perm_trans (l' := [1; 0; 2; 3; 4])); [apply perm_swap|].
    apply (perm_trans (l' := [1; 2; 0; 3; 4])); [constructor; apply perm_swap|].
    apply perm_swap.
  - reflexivity.
Defined.

(** *** The brackets of an ordering over content columns *)

Section BuilderLayout.

Variable rng_state : Type.
Variable RandomState : nat -> rng_state.
Variable permutation : rng_state -> list nat -> list nat * rng_state.

Hypothesis permutation_law :
  forall rng l, Permutation l (fst (permutation rng l)).


End BuilderLayout.


(** ** Gradient helpers *)

Lemma PrintGrads_clean ps :
  Forall nan_free ps -> PrintGrads ps = (grad_lines ps, Ok tt).
Proof.
  induction 1 as [|[n [g|]] ps Hp _ IH]; cbn [PrintGrads grad_lines flat_map snd fst app].
  - reflexivity.
  - rewrite (Hp g eq_refl). fold (grad_lines ps). now rewrite IH.
  - exact IH.
Qed.

Lemma PrintGrads_first_nan pre n g post :
  Forall nan_free pre -> has_nan g = true ->
  PrintGrads (pre ++ (n, Some g) :: post) =
    (grad_lines pre ++ [(n, grad_data g)], Raise AssertionError).
Proof.
  intros Hpre Hg.
  induction Hpre as [|[m [h|]] pre Hp _ IH]; cbn [PrintGrads grad_lines flat_map snd fst app].
  - now rewrite Hg.
  - rewrite (Hp h eq_refl). fold (grad_lines pre). now rewrite IH.
  - exact IH.
Qed.

Lemma first_nan ps :
  Forall nan_free ps \/
  exists pre n g post,
    ps = pre ++ (n, Some g) :: post /\ Forall nan_free pre /\ has_nan g = true.
Proof.
  induction ps as [|[n [g|]] ps IH].
  - left. constructor.
  - destruct (has_nan g) eqn:E.
    + right. exists [], n, g, ps. repeat split; auto.
    + destruct IH as [IH | (pre & m & h & post & -> & Hpre & Hh)].
      * left. constructor; [|exact IH]. intros g' [= <-]. exact E.
      * right. exists ((n, Some g) :: pre), m, h, post. repeat split; auto.
        constructor; [|exact Hpre]. intros g' [= <-]. exact E.
  - destruct IH as [IH | (pre & m & h & post & -> & Hpre & Hh)].
    + left. constructor; [|exact IH]. intros g' [=].
    + right. exists ((n, None) :: pre), m, h, post. repeat split; auto.
      constructor; [|exact Hpre]. intros g' [=].
Qed.

(** X25.  [PrintGrads] prints the gradients in order, skipping the parameters
    that have none, and stops at the first gradient that holds a NaN, which
    it has printed already: it returns exactly when no gradient holds a
    NaN, and otherwise fails its assertion after printing the parameters
    up to and including the first offending one. *)
Theorem PrintGrads_stops_at_first_nan (named_parameters : list (string * option Grad)) :
  (snd (PrintGrads named_parameters) = Ok tt <-> Forall nan_free named_parameters) /\
  (Forall nan_free named_parameters ->
   fst (PrintGrads named_parameters) = grad_lines named_parameters) /\
  (forall pre n g post,
     named_parameters = pre ++ (n, Some g) :: post ->
     Forall nan_free pre -> has_nan g = true ->
     PrintGrads named_parameters =
       (grad_lines pre ++ [(n, grad_data g)], Raise AssertionError)).
Proof.
  split; [|split].
  - split.
    + intros H. destruct (first_nan named_parameters)
        as [Hc | (pre & n & g & post & -> & Hpre & Hg)]; [exact Hc|].
      rewrite (PrintGrads_first_nan pre n g post Hpre Hg) in H. discriminate.
    + intros H. now rewrite (PrintGrads_clean _ H).
  - intros H. now rewrite (PrintGrads_clean _ H).
  - intros pre n g post -> Hpre Hg. now apply PrintGrads_first_nan.
Qed.

(** The third parameter holds a NaN: two lines are printed, the last one
    for the offending parameter. *)
Lemma PrintGrads_stops_at_first_nan_witness :
  PrintGrads named_parameters_with_nan =
    ([("embedding.weight"%string, 1); ("net.0.weight"%string, 2)],
     Raise AssertionError).
Proof.
  apply (proj2 (proj2 (PrintGrads_stops_at_first_nan named_parameters_with_nan))
           [("embedding.weight"%string, Some {| grad_data := 1; has_nan := false |});
            ("frozen.weight"%string, None)]
           "net.0.weight"%string {| grad_data := 2; has_nan := true |}
           [("net.0.bias"%string, Some {| grad_data := 3; has_nan := false |})]).
  - reflexivity.
  - repeat constructor; intros g [= <-]; reflexivity.
  - reflexivity.
Defined.

(** ** The fixed ordering *)

Section OrderingFacts.

Variable rng_state : Type.
Variable RandomState : nat -> rng_state.
Variable shuffle : rng_state -> list nat -> list nat * rng_state.
Variable permutation : rng_state -> list nat -> list nat * rng_state.

Hypothesis shuffle_law : forall rng l, Permutation l (fst (shuffle rng l)).

(** X17.  What [MakeOrdering] returns.  The natural ordering is made only for a
    dataset outside the list of available ones and an ensemble of at most
    one ordering; a passed-in order replaces it; with [order_seed] set and
    no ordering to start from the call raises [TypeError]; and an ordering
    that is returned is a rearrangement of the passed-in order, or of the
    column indices when none was passed. *)
Theorem MakeOrdering_cases (self : builder_attrs) (num_columns : nat) :
  let natural := negb (dataset_available self) && (special_orders self <=? 1) in
  (order self = None -> natural = false -> order_seed self = None ->
   MakeOrdering RandomState shuffle self num_columns = Ok (None, self)) /\
  (order self = None -> natural = false -> order_seed self <> None ->
   MakeOrdering RandomState shuffle self num_columns = Raise TypeError) /\
  (forall obj self',
     MakeOrdering RandomState shuffle self num_columns = Ok (Some obj, self') ->
     Permutation (match order self with
                  | Some l => l
                  | None => seq 0 num_columns
                  end)
                 (content self' obj)) /\
  (forall l,
     order self = Some l -> order_seed self = Some Reverse ->
     MakeOrdering RandomState shuffle self num_columns = Ok (Some (NewList (rev l)), self)).
Proof.
  cbv zeta. unfold MakeOrdering. repeat split.
  - intros Ho Hn Hs. now rewrite Ho, Hn, Hs.
  - intros Ho Hn Hs. rewrite Ho, Hn.
    destruct (order_seed self) as [[|n]|]; [reflexivity|reflexivity|congruence].
  - intros obj self'.
    destruct (order self) as [l|] eqn:Ho.
    + destruct (order_seed self) as [[|n]|].
      * intros [= <- <-]. cbn [content]. rewrite Ho. apply Permutation_rev.
      * intros [= <- <-]. cbn [content set_order order]. rewrite Ho. apply shuffle_law.
      * intros [= <- <-]. cbn [content]. now rewrite Ho.
    + destruct (negb (dataset_available self) && (special_orders self <=? 1)).
      * destruct (order_seed self) as [[|n]|].
        -- intros [= <- <-]. cbn [content]. apply Permutation_rev.
        -- intros [= <- <-]. cbn [content]. apply shuffle_law.
        -- intros [= <- <-]. reflexivity.
      * destruct (order_seed self) as [[|n]|]; discriminate.
  - intros l Ho Hs. rewrite Ho, Hs. cbn [content]. now rewrite Ho.
Qed.

(** X18.  [setup] makes the ordering twice, once for [self.fixed_ordering] and
    once inside [MakeModel].  With a passed-in order and a numeric seed,
    each call shuffles the list bound to [self.order] in place, so the
    model is built on that order shuffled twice; [self.fixed_ordering] is
    the same list and shows the same content.  With ['reverse'] the list
    is left alone and both calls give its reverse.  In every case the
    ordering kept by the controller and the one handed to the model
    agree, and the model is given the ReLU activation: the stage fails its
    assertion when ['tanh'] is configured. *)
Theorem ordering_made_twice (self : builder_attrs) (table : LoadedTable)
    (train_data_columns : list Column) (train_data : FactorTable)
    (fixed : option ordering_object) (act : activation_class)
    (made : made_orderings) (self' : builder_attrs) :
  setup_model RandomState shuffle permutation self table train_data_columns
              train_data = Ok (fixed, act, made, self') ->
  option_map (content self') fixed = made_fixed_ordering made /\
  (forall l n,
     order self = Some l -> order_seed self = Some (Seed n) ->
     let once := fst (shuffle (RandomState n) l) in
     let twice := fst (shuffle (RandomState n) once) in
     fixed = Some SelfOrder /\ order self' = Some twice /\
     made_fixed_ordering made = Some twice) /\
  (forall l,
     order self = Some l -> order_seed self = Some Reverse ->
     order self' = Some l /\ made_fixed_ordering made = Some (rev l)) /\
  activation self <> "tanh"%string /\ act = ReLU.
Proof.
  unfold setup_model, MakeModel.
  destruct (MakeOrdering RandomState shuffle self (length (table_columns table)))
    as [[fixed1 self1]|e] eqn:E1; [|discriminate].
  cbn [bind fst snd].
  destruct (String.eqb (activation self) "tanh") eqn:Ea; [discriminate|].
  apply String.eqb_neq in Ea. cbn [bind].
  destruct (MakeOrdering RandomState shuffle self1 (length (table_columns table)))
    as [[fixed2 self2]|e] eqn:E2; [|discriminate].
  cbn [bind fst snd].
  destruct (MakeMade _ _ _ _ _ _ _ _ _) as [m|e] eqn:Em; [|discriminate].
  cbn [bind fst snd]. intros [= <- <- <- <-].
  assert (Hm : made_fixed_ordering m = option_map (content self2) fixed2).
  { revert Em. unfold MakeMade.
    destruct (0 <? special_orders self2); [|now intros [= <-]].
    destruct (map_result _ _) as [orders|]; [|discriminate]. cbn [bind].
    destruct (match (if factorize self2 then Some train_data else None) with
              | Some ft => map_result (correct_order _ (fact_col_mapping ft)) orders
              | None => Ok orders
              end) as [orders'|]; [|discriminate].
    cbn [bind]. now intros [= <-]. }
  rewrite Hm. clear Em Hm.
  assert (Hact : activation self <> "tanh"%string /\ ReLU = ReLU) by (split; auto).
  unfold MakeOrdering in E1, E2.
  destruct (order self) as [l|] eqn:Ho.
  - destruct (order_seed self) as [[|n]|] eqn:Hs.
    + injection E1 as <- <-. rewrite Ho, Hs in E2. injection E2 as <- <-.
      cbn [content option_map]. rewrite Ho.
      split; [reflexivity|]. split; [discriminate|]. split; [|exact Hact].
      intros l' [= <-] _. split; reflexivity.
    + injection E1 as <- <-. cbn [set_order order order_seed content] in E2.
      rewrite Hs in E2. injection E2 as <- <-.
      cbn [content option_map set_order order]. rewrite Ho.
      split; [reflexivity|]. split; [|split; [discriminate|exact Hact]].
      intros l' n' [= <-] [= <-]. cbv zeta. repeat split.
    + injection E1 as <- <-. rewrite Ho, Hs in E2. injection E2 as <- <-.
      cbn [content option_map].
      split; [reflexivity|]. split; [discriminate|]. split; [discriminate|exact Hact].
  - destruct (negb (dataset_available self) && (special_orders self <=? 1)) eqn:Hn.
    + destruct (order_seed self) as [[|n]|] eqn:Hs;
        injection E1 as <- <-; rewrite Ho, Hn, Hs in E2; injection E2 as <- <-;
        cbn [content option_map]; (split; [reflexivity|]);
        (split; [discriminate|]); (split; [discriminate|exact Hact]).
    + destruct (order_seed self) as [[|n]|] eqn:Hs; try discriminate.
      injection E1 as <- <-. rewrite Ho, Hn, Hs in E2. injection E2 as <- <-.
      cbn [option_map]. split; [reflexivity|]. split; [discriminate|].
      split; [discriminate|exact Hact].
Qed.

End OrderingFacts.

(** The order 2, 0, 1 with seed 1 reaches the model rotated twice. *)
Lemma ordering_made_twice_witness :
  exists made self',
    setup_model rotating_RandomState rotating_permutation rotating_permutation
                (seeded_order (Seed 1)) title_table [] factorized_table =
      Ok (Some SelfOrder, ReLU, made, self') /\
    order self' = Some [1; 2; 0] /\
    made_fixed_ordering made = Some [1; 2; 0].
Proof.
  destruct (setup_model rotating_RandomState rotating_permutation rotating_permutation
              (seeded_order (Seed 1)) title_table [] factorized_table)
    as [[[[fixed act] made] self']|e] eqn:E; [|discriminate E].
  destruct (ordering_made_twice nat rotating_RandomState rotating_permutation
              rotating_permutation (seeded_order (Seed 1)) title_table []
              factorized_table fixed act made self' E) as (_ & H & _ & _ & Hact).
  destruct (H [2; 0; 1] 1 eq_refl eq_refl) as (Hf & Ho & Hm).
  exists made, self'. subst fixed act. split; [reflexivity|]. split; assumption.
Defined.

(** A passed-in order reversed, and shuffled. *)
Lemma MakeOrdering_cases_witness :
  MakeOrdering rotating_RandomState rotating_permutation (seeded_order Reverse) 3 =
    Ok (Some (NewList [1; 0; 2]), seeded_order Reverse) /\
  (forall obj self',
     MakeOrdering rotating_RandomState rotating_permutation (seeded_order (Seed 1)) 3 =
       Ok (Some obj, self') ->
     Permutation [2; 0; 1] (content self' obj)).
Proof.
  split.
  - apply (proj2 (proj2 (proj2 (MakeOrdering_cases nat rotating_RandomState
                                  rotating_permutation rotating_law
                                  (seeded_order Reverse) 3))) [2; 0; 1]); reflexivity.
  - exact (proj1 (proj2 (proj2 (MakeOrdering_cases nat rotating_RandomState
                                  rotating_permutation rotating_law
                                  (seeded_order (Seed 1)) 3)))).
Defined.

(** ** Estimators for single queries *)

Lemma MakeProgressiveSamplers_built self :
  (verbose_mode self = true -> eval_psamples self <> [] ->
   loaded_queries self <> None) ->
  MakeProgressiveSamplers self (model_state self)
    (if factorize (builder self) then TrainData else Table)
    (dataset_available (builder self) && (1 <? length (join_tables self))) =
    Ok (map (built_sampler self) (eval_psamples self)).
Proof.
  intros Hv. unfold MakeProgressiveSamplers, built_sampler.
  destruct (verbose_mode self) eqn:V; [|reflexivity].
  destruct (eval_psamples self) as [|n rest] eqn:E; [reflexivity|].
  specialize (Hv eq_refl ltac:(discriminate)).
  destruct (loaded_queries self) as [queries|]; [|congruence].
  cbn [map option_map]. rewrite map_map. reflexivity.
Qed.

(** X22.  [ready_for_evaluate] returns only when exactly one sample count is
    configured.  The controller then holds a single estimator, built on the
    factorized data exactly when [factorize] is set and short-circuiting
    exactly when some dropout is; every accessor answers from that
    estimator rather than with [None]; and a tree query is handed to it
    with the raw-table flag given to [ready_for_evaluate], provided the
    sampling algorithm is ['ps']. *)
Theorem ready_for_evaluate_single (use_ctypes : bool) (self : NeuroCard)
    (raw : bool) :
  snd (ready_for_evaluate use_ctypes self raw) = Ok tt ->
  let self' := fst (ready_for_evaluate use_ctypes self raw) in
  exists n est,
    eval_psamples self = [n] /\
    est = (if use_ctypes then make_bytes_domain (built_sampler self n) raw
           else built_sampler self n) /\
    self_estimators self' = Some [est] /\
    use_raw_table self' = Some raw /\
    get_num_rows self' = Ok (Some est) /\
    put_sample self' None = Ok (if raw then None else Some est) /\
    evaluate_one_tree self' =
      if String.eqb (sample_alg self) "ps"
      then Ok (Some {| callee := est;
                       with_raw_table := raw;
                       with_subvar_dropout := subvar_dropout (builder self);
                       with_adjust_fact_col := adjust_fact_col (builder self) |})
      else Raise AssertionError.
Proof.
  unfold ready_for_evaluate.
  set (self1 := set_inference self (Some raw) (self_estimators self)).
  assert (Hb : forall n, built_sampler self1 n = built_sampler self n) by reflexivity.
  destruct (MakeProgressiveSamplers self1 _ _) as [ests|e] eqn:Em; [|discriminate].
  destruct (length ests =? 1) eqn:El; [|destruct use_ctypes; discriminate].
  apply Nat.eqb_eq in El.
  assert (Hv : verbose_mode self1 = true -> eval_psamples self1 <> [] ->
               loaded_queries self1 <> None).
  { intros V Hne Hq. revert Em. unfold MakeProgressiveSamplers. rewrite V.
    destruct (eval_psamples self1); [congruence|]. cbn [map]. now rewrite Hq. }
  rewrite (MakeProgressiveSamplers_built self1 Hv) in Em. injection Em as <-.
  rewrite length_map in El.
  change (eval_psamples self1) with (eval_psamples self) in *.
  destruct (eval_psamples self) as [|n [|m rest]]; try discriminate.
  cbn [map]. rewrite Hb.
  intros _. cbv zeta.
  exists n, (if use_ctypes then make_bytes_domain (built_sampler self n) raw
             else built_sampler self n).
  split; [reflexivity|]. split; [reflexivity|].
  destruct use_ctypes; cbn [fst map set_inference self_estimators use_raw_table];
    (split; [reflexivity|]); (split; [reflexivity|]); (split; [reflexivity|]);
    (split; [destruct raw; reflexivity|]);
    unfold evaluate_one_tree, delegate, self1;
    cbn [self_estimators use_raw_table sample_alg builder set_inference];
    destruct (String.eqb (sample_alg self) "ps"); reflexivity.
Qed.

(** One sample count: the single estimator answers. *)
Lemma ready_for_evaluate_single_witness :
  exists est,
    self_estimators (fst (ready_for_evaluate true (single_sampler [2000]) false)) =
      Some [est] /\
    ps_num_samples est = 2000 /\ ps_bytes_domain est = Some false /\
    get_num_rows (fst (ready_for_evaluate true (single_sampler [2000]) false)) =
      Ok (Some est).
Proof.
  destruct (ready_for_evaluate_single true (single_sampler [2000]) false eq_refl)
    as (n & est & Hn & He & Hs & _ & Hg & _).
  injection Hn as <-. exists est. split; [exact Hs|].
  split; [now subst est|]. split; [now subst est|exact Hg].
Defined.

(** X23.  With more or fewer than one sample count, [ready_for_evaluate] fails
    its assertion, but only after replacing the estimators: the controller
    is left holding all of them, and the accessors answer from the first
    one. *)
Theorem ready_for_evaluate_many (use_ctypes : bool) (self : NeuroCard)
    (raw : bool) :
  verbose_mode self = false ->
  length (eval_psamples self) <> 1 ->
  snd (ready_for_evaluate use_ctypes self raw) = Raise AssertionError /\
  self_estimators (fst (ready_for_evaluate use_ctypes self raw)) =
    Some (map (built_sampler self) (eval_psamples self)) /\
  get_num_rows (fst (ready_for_evaluate use_ctypes self raw)) =
    Ok (option_map (built_sampler self) (hd_error (eval_psamples self))).
Proof.
  intros Hv Hl. unfold ready_for_evaluate.
  set (self1 := set_inference self (Some raw) (self_estimators self)).
  assert (Hb : forall n, built_sampler self1 n = built_sampler self n) by reflexivity.
  rewrite (MakeProgressiveSamplers_built self1).
  - rewrite length_map. change (eval_psamples self1) with (eval_psamples self).
    destruct (length (eval_psamples self) =? 1) eqn:E;
      [apply Nat.eqb_eq in E; congruence|].
    cbn [fst snd set_inference self_estimators]. split; [reflexivity|].
    split; [reflexivity|].
    unfold get_num_rows, first_estimator. cbn [self_estimators].
    destruct (eval_psamples self); reflexivity.
  - intros V. change (verbose_mode self1) with (verbose_mode self) in V. congruence.
Qed.

(** Two sample counts: the assertion fails but both estimators stay. *)
Lemma ready_for_evaluate_many_witness :
  snd (ready_for_evaluate false (single_sampler [1000; 2000]) false) =
    Raise AssertionError /\
  option_map (@length ProgressiveSampler)
    (self_estimators (fst (ready_for_evaluate false (single_sampler [1000; 2000]) false))) =
    Some 2.
Proof.
  destruct (ready_for_evaluate_many false (single_sampler [1000; 2000]) false eq_refl)
    as (H1 & H2 & _); [discriminate|].
  split; [exact H1|]. rewrite H2. reflexivity.
Defined.

(** Entry points that never reach an estimator: [evaluate_one] and
    [sample_put_input] fail their assertion whatever the state of the
    controller; in raw-table mode [put_sample] returns [None] for no sample
    and fails its assertion for any other; and every entry point raises
    [AttributeError] before [ready_for_evaluate] has run. *)
Lemma entry_points_without_estimator (self : NeuroCard) (sample : option nat) :
  evaluate_one self = Raise AssertionError /\
  sample_put_input self = Raise AssertionError /\
  (use_raw_table self = Some true ->
   put_sample self sample =
     match sample with None => Ok None | Some _ => Raise AssertionError end) /\
  (self_estimators self = None ->
   get_num_rows self = Raise AttributeError /\
   get_P self = Raise AttributeError /\
   evaluate_one_tree self = Raise AttributeError) /\
  (use_raw_table self = None -> put_sample self sample = Raise AttributeError).
Proof.
  repeat split.
  - intros H. unfold put_sample. rewrite H. now destruct sample.
  - unfold get_num_rows, first_estimator. now rewrite H.
  - unfold get_P. now rewrite H.
  - unfold evaluate_one_tree. now rewrite H.
  - intros H. unfold put_sample. now rewrite H.
Qed.

(** ** Logging a result *)

Lemma prefix_append_r p a b : prefix p a = true -> prefix p (a ++ b) = true.
Proof.
  revert a. induction p as [|c p IH]; intros a; cbn [prefix].
  - intros _. now destruct (a ++ b)%string.
  - destruct a as [|d a]; [discriminate|]. cbn [prefix append].
    destruct (ascii_dec c d); [apply IH|discriminate].
Qed.

Lemma contains_append needle a b :
  contains needle a = true -> contains needle (a ++ b) = true.
Proof.
  induction a as [|c a IH]; cbn [contains append].
  - rewrite orb_false_r. intros H.
    destruct needle; [|now destruct b]. destruct b; reflexivity.
  - intros H. apply orb_true_iff in H. apply orb_true_iff.
    destruct H as [H | H].
    + left. apply (prefix_append_r needle (String c a) b H).
    + right. now apply IH.
Qed.

Lemma dict_set_keys d k v x :
  In x (map fst (dict_set d k v)) -> x = k \/ In x (map fst d).
Proof.
  induction d as [|[k' v'] d IH]; cbn [dict_set map fst In].
  - intros [<- | []]. now left.
  - destruct (String.eqb k' k) eqn:E; cbn [map fst In].
    + apply String.eqb_eq in E. subst k'. intros [<- | H]; auto.
    + intros [<- | H]; auto. destruct (IH H); auto.
Qed.

Lemma report_estimators_keys ests : forall results d x,
  report_estimators results ests = Ok d ->
  In x (map fst d) ->
  In x (map fst results) \/
  exists est suffix, In est ests /\ x = (est_name est ++ suffix)%string.
Proof.
  induction ests as [|est rest IH]; intros results d x; cbn [report_estimators].
  - intros [= <-] H. now left.
  - unfold report_estimator at 1.
    destruct (Numpy.max (errs est)) as [m|]; [|discriminate]. cbn [bind].
    intros H Hin. destruct (IH _ _ _ H Hin) as [Hk | (est' & suffix & He & ->)].
    + repeat (apply dict_set_keys in Hk; destruct Hk as [-> | Hk]);
        try (right; exists est; eexists; split; [now left|reflexivity]).
      now left.
    + right. exists est', suffix. split; [now right|reflexivity].
Qed.

Lemma filter_all {A : Type} (f : A -> bool) l :
  (forall x, In x l -> f x = true) -> filter f l = l.
Proof.
  induction l as [|x l IH]; intros H; cbn [filter]; [reflexivity|].
  rewrite (H x (or_introl eq_refl)), IH; [reflexivity|].
  intros y Hy. apply H. now right.
Qed.

(** X24.  [_log_result] on what [step] returns: the two iteration counters are
    set to the controller's epoch (while the entry ['epoch'] written by
    [step] stays 0), the report is passed on unchanged, and the chart shows
    the report's keys that contain ['psample'], in the report's order.
    When the report was made for estimators whose names all contain
    ['psample'], every aggregate is charted. *)
Theorem log_result_of_step (self : NeuroCard) (r : step_result) :
  let results :=
    step_dict r ++
    [("iterations_since_restore"%string, PyInt (epoch self));
     ("training_iteration"%string, PyInt (epoch self))] in
  _log_result self (step_dict r) =
    (results,
     Ok {| on_result := results;
           chart_tags :=
             map (fun k => ("ray/tune/results/" ++ k)%string)
                 (filter (contains "psample") (map fst (sr_results r)));
           chart_title := "psample" |}) /\
  (forall ests,
     report_estimators [] ests = Ok (sr_results r) ->
     Forall (fun est => contains "psample" (est_name est) = true) ests ->
     filter (contains "psample") (map fst (sr_results r)) = map fst (sr_results r)).
Proof.
  cbv zeta. split.
  - unfold _log_result, step_dict. cbn [setitem getitem String.eqb Ascii.eqb Bool.eqb andb app].
    f_equal. f_equal. f_equal.
    induction (sr_results r) as [|[k v] d IH]; [reflexivity|].
    cbn [filter map fst]. destruct (contains "psample" k); cbn [map fst]; now rewrite IH.
  - intros ests Hr Hn. apply filter_all. intros x Hx.
    destruct (report_estimators_keys ests [] _ x Hr Hx) as [[] | (est & suffix & He & ->)].
    apply contains_append. rewrite Forall_forall in Hn. now apply Hn.
Qed.

(** A report with one key that names a sampler and one that does not: the
    first is charted. *)
Lemma log_result_of_step_witness :
  option_map chart_tags
    (match snd (_log_result (trial [])
                  (step_dict {| sr_epoch := 0; sr_done := true;
                                sr_results := [("psample_2000_max"%string, 2%Q);
                                               ("oracle_max"%string, 1%Q)] |})) with
     | Ok l => Some l
     | Raise _ => None
     end) = Some ["ray/tune/results/psample_2000_max"%string].
Proof.
  rewrite (proj1 (log_result_of_step (trial [])
                    {| sr_epoch := 0; sr_done := true;
                       sr_results := [("psample_2000_max"%string, 2%Q);
                                      ("oracle_max"%string, 1%Q)] |})).
  reflexivity.
Defined.

(** ** The stages of [setup] *)

Lemma load_tables_length (env : table_env) names :
  forall tables, load_tables env names = Ok tables -> length tables = length names.
Proof.
  induction names as [|t rest IH]; intros tables; cbn [load_tables].
  - now intros [= <-].
  - destruct (LoadDataset env t) as [table|]; [|discriminate]. cbn [bind].
    destruct (load_tables env rest) as [l|]; [|discriminate]. cbn [bind].
    intros [= <-]. cbn [length]. now rewrite (IH l eq_refl).
Qed.

(** X19.  The table stage of [setup] goes through for a single table only: it
    needs the primary-key file, a dataset from the list of available
    ones, and exactly one table name (given as such, or as an index into
    the sorted table names).  The table is then the one [LoadDataset]
    returns for that name, and the training dataset is made from it with
    the keys of the primary-key file as join keys, factorized exactly when
    [factorize] is set.  A list of several tables, or of none, always ends
    in an exception. *)
Theorem setup_single_table_only (env : table_env) (self : builder_attrs)
    (configured : join_tables_value) (PK_tuples_np_loc : option string) :
  (forall join_tables table train_data,
     setup_tables env self configured PK_tuples_np_loc =
       Ok (join_tables, table, train_data) ->
     exists loc keys t,
       PK_tuples_np_loc = Some loc /\ pickle_load env loc = Ok keys /\
       dataset_available self = true /\
       join_tables = [t] /\
       match configured with
       | TableIndex i => nth_error (sorted_table_names env) i = Some t
       | TableNames names => names = [t]
       end /\
       LoadDataset env t = Ok table /\
       train_data =
         (let base := TableDataset table (num_sigmoids self <=? 0)%Z (post_add_noise self) in
          if factorize self
          then FactorizedTable base (word_size_bits self) keys
                               (subvar_dropout self) (adjust_fact_col self)
          else base)) /\
  (forall names,
     configured = TableNames names -> length names <> 1 ->
     is_ok (setup_tables env self configured PK_tuples_np_loc) = false) /\
  (PK_tuples_np_loc = None ->
   forall names, configured = TableNames names ->
   setup_tables env self configured PK_tuples_np_loc = Raise AssertionError).
Proof.
  split; [|split].
  - intros join_tables table train_data. unfold setup_tables.
    destruct (match configured with
              | TableIndex i => _
              | TableNames names => Ok names
              end) as [jt|] eqn:Ej; [|discriminate]. cbn [bind].
    destruct PK_tuples_np_loc as [loc|]; [|discriminate].
    destruct (pickle_load env loc) as [keys|] eqn:Ep; [|discriminate]. cbn [bind].
    destruct (dataset_available self); [|discriminate]. cbn [assert bind].
    destruct (load_tables env jt) as [tables|] eqn:El; [|discriminate]. cbn [bind].
    destruct (length jt =? 1) eqn:E1.
    + apply Nat.eqb_eq in E1.
      destruct jt as [|t [|t' rest]]; try discriminate.
      cbn [length Nat.ltb Nat.leb].
      revert El. cbn [load_tables].
      destruct (LoadDataset env t) as [tb|] eqn:Et; [|discriminate]. cbn [bind].
      intros [= <-]. cbn [bind].
      destruct (get_single_join_spec env); [|discriminate]. cbn [bind].
      intros [= <- <- <-].
      exists loc, keys, t. repeat split; auto.
      destruct configured as [i|names].
      * destruct (nth_error (sorted_table_names env) i); [|discriminate].
        now injection Ej as ->.
      * now injection Ej as ->.
    + destruct (1 <? length jt).
      * destruct (join_branch env tables); discriminate.
      * destruct tables; discriminate.
  - intros names -> Hl. unfold setup_tables. cbn [bind].
    destruct PK_tuples_np_loc as [loc|]; [|reflexivity].
    destruct (pickle_load env loc); [|reflexivity]. cbn [bind].
    destruct (dataset_available self); [|reflexivity]. cbn [assert bind].
    destruct (load_tables env names) as [tables|]; [|reflexivity]. cbn [bind].
    destruct (length names =? 1) eqn:E1; [apply Nat.eqb_eq in E1; congruence|].
    destruct (1 <? length names).
    + destruct (join_branch env tables); reflexivity.
    + destruct tables; reflexivity.
  - intros -> names ->. reflexivity.
Qed.

(** The table [title], given by its index, and a join of two tables. *)
Lemma setup_single_table_only_witness :
  setup_tables title_env (seeded_order Reverse) (TableIndex 1)
               (Some "pk_tuples.pkl"%string) =
    Ok (["title"%string], title_table, TableDataset title_table true false) /\
  is_ok (setup_tables title_env (seeded_order Reverse)
           (TableNames ["cast_info"%string; "title"%string])
           (Some "pk_tuples.pkl"%string)) = false.
Proof.
  split; [reflexivity|].
  apply (proj1 (proj2 (setup_single_table_only title_env (seeded_order Reverse)
                         (TableNames ["cast_info"%string; "title"%string])
                         (Some "pk_tuples.pkl"%string)))
           ["cast_info"%string; "title"%string]); [reflexivity|discriminate].
Defined.

(** What [step] raises when no queries are loaded and at least one is to
    be evaluated. *)
Lemma step_without_loaded_queries (self : NeuroCard) disk :
  loaded_queries self = None ->
  0 < num_eval_queries_at_checkpoint_load self ->
  snd (step self disk) =
    Raise (if verbose_mode self && (0 <? length (eval_psamples self))
           then TypeError else AssertionError).
Proof.
  intros Hq Hn. unfold step, evaluate, MakeProgressiveSamplers. rewrite Hq.
  destruct (num_eval_queries_at_checkpoint_load self =? 0) eqn:E0;
    [apply Nat.eqb_eq in E0; lia|].
  destruct (verbose_mode self); cbn [andb].
  - destruct (eval_psamples self) as [|n rest]; cbn [map length Nat.ltb Nat.leb bind];
      [|reflexivity].
    destruct (eval_join_sampling self) as [[|k]|]; reflexivity.
  - cbn [bind]. destruct (eval_join_sampling self) as [[|k]|]; reflexivity.
Qed.

(** X20.  After [setup], a step needs a queries file: the query stage leaves
    [loaded_queries] unset when no file is configured (and the oracle
    estimator unset in every case), so [step] then fails as soon as it is
    asked to evaluate at least one query.  In verbose mode with a sample
    count configured it raises [TypeError], since
    [MakeProgressiveSamplers] takes the length of [loaded_queries] before
    [evaluate] asserts that they are loaded; otherwise it fails an
    assertion. *)
Theorem step_needs_queries (self self' : NeuroCard) (queries_csv : option string)
    (load : string -> result (list query * list Q * list nat))
    (disk : list (string * log_line)) :
  setup_queries self queries_csv load = Ok self' ->
  oracle self' = None /\
  (queries_csv = None \/ dataset_available (builder self) = false ->
   loaded_queries self' = None /\ oracle_cards self' = None /\
   not_support_query_idx self' = [] /\
   (0 < num_eval_queries_at_checkpoint_load self ->
    snd (step self' disk) =
      Raise (if verbose_mode self && (0 <? length (eval_psamples self))
             then TypeError else AssertionError))) /\
  (forall path queries cards flagged,
     dataset_available (builder self) = true -> queries_csv = Some path ->
     load path = Ok (queries, cards, flagged) ->
     loaded_queries self' = Some queries /\ oracle_cards self' = Some cards /\
     not_support_query_idx self' = flagged).
Proof.
  unfold setup_queries. intros H. split; [|split].
  - destruct (dataset_available (builder self)); [destruct queries_csv as [path|]|];
      [destruct (load path); [|discriminate]| |]; cbn [bind] in H;
      injection H as <-; reflexivity.
  - intros Hno.
    assert (E : loaded_queries self' = None /\ oracle_cards self' = None /\
                not_support_query_idx self' = [] /\
                num_eval_queries_at_checkpoint_load self' =
                  num_eval_queries_at_checkpoint_load self /\
                verbose_mode self' = verbose_mode self /\
                eval_psamples self' = eval_psamples self).
    { destruct (dataset_available (builder self)).
      - destruct Hno as [-> | Hno]; [|discriminate]. injection H as <-.
        repeat split.
      - injection H as <-. repeat split. }
    destruct E as (Hq & Hc & Hf & Hn & Hv & Hp).
    split; [exact Hq|]. split; [exact Hc|]. split; [exact Hf|].
    intros Hpos. rewrite <- Hn in Hpos.
    rewrite (step_without_loaded_queries self' disk Hq Hpos), Hv, Hp. reflexivity.
  - intros path queries cards flagged Hd -> Hl. rewrite Hd, Hl in H. cbn [bind] in H.
    injection H as <-. repeat split.
Qed.

(** No queries file: the step that follows fails its assertion, and in
    verbose mode it raises [TypeError] before that. *)
Lemma step_needs_queries_witness :
  (exists self',
     setup_queries (trial [steady_sampler]) None (fun _ => Raise (ExternalError 3)) =
       Ok self' /\
     loaded_queries self' = None /\
     snd (step self' []) = Raise AssertionError) /\
  (exists self',
     setup_queries verbose_trial None (fun _ => Raise (ExternalError 3)) = Ok self' /\
     snd (step self' []) = Raise TypeError).
Proof.
  split.
  - eexists. split; [reflexivity|].
    destruct (step_needs_queries (trial [steady_sampler]) _ None
                (fun _ => Raise (ExternalError 3)) [] eq_refl) as (_ & H & _).
    destruct (H (or_introl eq_refl)) as (Hq & _ & _ & Hs).
    split; [exact Hq|]. apply Hs. cbn. lia.
  - eexists. split; [reflexivity|].
    destruct (step_needs_queries verbose_trial _ None
                (fun _ => Raise (ExternalError 3)) [] eq_refl) as (_ & H & _).
    destruct (H (or_introl eq_refl)) as (_ & _ & _ & Hs).
    apply Hs. cbn. lia.
Defined.

(** ** Restoring a checkpoint *)

(** X21.  What [LoadCheckpoint] restores: the model state always; in
    ['INFERENCE'] mode nothing else, so the epoch, the optimizer state and
    the last loss stay as they were; in any other mode all three are taken
    from the checkpoint.  Every other attribute of the controller is left
    alone, so [MakeProgressiveSamplers], called on the controller's model
    afterwards, makes the estimators it would have made before on the
    checkpoint's model. *)
Theorem LoadCheckpoint_restores (self self' : NeuroCard) (d : Disk) :
  LoadCheckpoint self d = Ok self' ->
  exists pattern file loaded,
    checkpoint_to_load self = Some pattern /\
    glob d pattern = [file] /\
    torch_load d file = Ok loaded /\
    model_state self' = ck_model_state_dict loaded /\
    (mode self = "INFERENCE"%string ->
     epoch self' = epoch self /\ opt_state self' = opt_state self /\
     lloss self' = lloss self) /\
    (mode self <> "INFERENCE"%string ->
     epoch self' = ck_epoch loaded /\
     opt_state self' = ck_optimizer_state_dict loaded /\
     lloss self' = Some (ck_loss loaded)) /\
    same_configuration self self' /\
    (forall train_data do_fanout_scaling,
       MakeProgressiveSamplers self' (model_state self') train_data do_fanout_scaling =
       MakeProgressiveSamplers self (ck_model_state_dict loaded) train_data
                               do_fanout_scaling).
Proof.
  unfold LoadCheckpoint.
  destruct (checkpoint_to_load self) as [pattern|] eqn:Ec; [|discriminate].
  destruct (length (glob d pattern) =? 1) eqn:El; [|discriminate].
  apply Nat.eqb_eq in El. cbn [assert bind].
  destruct (glob d pattern) as [|file [|f2 rest]] eqn:Eg; try discriminate.
  cbn [hd].
  destruct (torch_load d file) as [loaded|] eqn:Et; [|discriminate]. cbn [bind].
  intros H. exists pattern, file, loaded.
  split; [reflexivity|]. split; [exact Eg|]. split; [exact Et|].
  destruct (String.eqb (mode self) "INFERENCE") eqn:Em; injection H as <-;
    cbn [model_state epoch opt_state lloss]; (split; [reflexivity|]).
  - apply String.eqb_eq in Em. split; [auto|]. split; [congruence|].
    split; [|reflexivity].
    unfold same_configuration. cbn. rewrite Ec. repeat split.
  - apply String.eqb_neq in Em. split; [congruence|]. split; [auto|].
    split; [|reflexivity].
    unfold same_configuration. cbn. rewrite Ec. repeat split.
Qed.

(** The checkpoint of epoch 5 restored in training mode: the estimator
    made afterwards is made on the model of the checkpoint. *)
Lemma LoadCheckpoint_restores_witness :
  exists self',
    LoadCheckpoint (trial [steady_sampler]) one_checkpoint = Ok self' /\
    epoch self' = 5 /\ model_state self' = 11 /\ opt_state self' = 12 /\
    lloss self' = Some 3%Q /\
    MakeProgressiveSamplers self' (model_state self') Table false =
      Ok [{| ps_class := ProgressiveSampling;
             ps_model := 11;
             ps_data := Table;
             ps_num_samples := 2000;
             ps_shortcircuit := false;
             ps_do_fanout_scaling := false;
             ps_verbose_data := None;
             ps_bytes_domain := None |}].
Proof.
  eexists. split; [reflexivity|].
  destruct (LoadCheckpoint_restores (trial [steady_sampler]) _ one_checkpoint eq_refl)
    as (pattern & file & loaded & _ & Hg & Hl & Hm & _ & Ht & _ & Hs).
  injection Hg as <-. injection Hl as <-.
  destruct Ht as (He & Ho & Hlo); [discriminate|].
  repeat (split; [assumption|]). rewrite Hs. reflexivity.
Defined.
